(** * derisk-research: event payload serializers and the notification queue

    A shallow embedding of
    [data_handler/handler_tools/data_parser/serializers.py]: the three
    pydantic models [DataAccumulatorsSyncEvent], [LiquidationEventData] and
    [WithdrawalEventData], together with the parts of the Python runtime
    their validators call ([int(v, 16)], [str.isdigit], [str.startswith],
    [decimal.Decimal]) and the way pydantic (version 2) runs field
    validators; and of the class [TelegramNotifications] of
    [web_app/telegram/utils.py], with the [asyncio.Queue] it keeps.

    The runtime is CPython's. Code that can raise and that touches the
    thread's decimal context is written in a small monad over the context
    flags. The precision and the exponent limits of the context are a
    parameter, [Context], of the decimal arithmetic and of what divides
    with it; the properties are stated in [decimal.DefaultContext]
    (28 digits) unless they name another context. The rounding mode is
    [ROUND_HALF_EVEN] and the traps are the default ones throughout. *)

From stdpp Require Import gmap strings list.
From Stdlib Require Import ZArith QArith.

Local Open Scope Z_scope.

(** ** Python strings

    A Python [str] is a sequence of Unicode code points; a code point is
    kept as the integer [ord(c)], in [0 .. 0x10FFFF]. *)

Definition str := list Z.

(** An ASCII literal of the source, as a Python string. *)
Definition lit (s : string) : str :=
  (λ a, Z.of_N (Ascii.N_of_ascii a)) <$> String.list_ascii_of_string s.

(** [s.startswith(prefix)] *)
Fixpoint startswith (s prefix : str) {struct prefix} : bool :=
  match prefix, s with
  | [], _ => true
  | p :: prefix', c :: s' => (c =? p) && startswith s' prefix'
  | _ :: _, [] => false
  end.

(** [needle in s] for strings: [needle] occurs as a contiguous run of [s]. *)
Fixpoint contains (s needle : str) : bool :=
  startswith s needle ||
  match s with
  | [] => false
  | _ :: s' => contains s' needle
  end.

(** ** Unicode character properties

    CPython consults the Unicode character database through
    [Py_UNICODE_ISSPACE], [Py_UNICODE_TODECIMAL] and [Py_UNICODE_TODIGIT].
    The Basic Latin and Latin-1 Supplement blocks (up to U+00FF) and the
    white-space set are written out below; the numeric properties of the
    characters above U+00FF vary with the Unicode version of the
    interpreter and are taken as a parameter. *)

Class UnicodeData := {
  (** decimal value of a character above U+00FF of category Nd *)
  ucd_todecimal : Z → option Z;
  (** digit value of a character above U+00FF with Numeric_Type Digit or
      Decimal *)
  ucd_todigit : Z → option Z;
  (** a decimal value is one of 0 .. 9 *)
  ucd_todecimal_range : ∀ ch d, ucd_todecimal ch = Some d → 0 <= d <= 9
}.

(** The database cut off after U+00FF: no character beyond the Latin-1
    Supplement has a numeric property. It serves to evaluate the model on
    concrete strings of that range, where the cut-off is never consulted. *)
Definition ucd_latin1 : UnicodeData :=
  {| ucd_todecimal := λ _, None;
     ucd_todigit := λ _, None;
     ucd_todecimal_range := λ ch d (H : None = Some d), ltac:(discriminate H) |}.

(** [Py_ISSPACE]: the C-locale white space of [pyctype.h]. *)
Definition Py_ISSPACE (ch : Z) : bool :=
  (ch =? 32) || ((9 <=? ch) && (ch <=? 13)).

(** [Py_UNICODE_ISSPACE] ([_PyUnicode_IsWhitespace]). *)
Definition Py_UNICODE_ISSPACE (ch : Z) : bool :=
  ((9 <=? ch) && (ch <=? 13)) || ((28 <=? ch) && (ch <=? 31)) || (ch =? 32)
  || (ch =? 133) || (ch =? 160) || (ch =? 5760)
  || ((8192 <=? ch) && (ch <=? 8202)) || (ch =? 8232) || (ch =? 8233)
  || (ch =? 8239) || (ch =? 8287) || (ch =? 12288).

Definition is_ascii_digit (ch : Z) : bool := (48 <=? ch) && (ch <=? 57).

(** [Py_UNICODE_TODECIMAL]: [None] stands for the C result [-1]. *)
Definition Py_UNICODE_TODECIMAL `{UnicodeData} (ch : Z) : option Z :=
  if ch <? 256 then
    if is_ascii_digit ch then Some (ch - 48) else None
  else ucd_todecimal ch.

(** [Py_UNICODE_TODIGIT]: below U+0100 the digits are [0-9] and the
    superscripts U+00B2, U+00B3 and U+00B9. *)
Definition Py_UNICODE_TODIGIT `{UnicodeData} (ch : Z) : option Z :=
  if ch <? 256 then
    if is_ascii_digit ch then Some (ch - 48)
    else if ch =? 178 then Some 2
    else if ch =? 179 then Some 3
    else if ch =? 185 then Some 1
    else None
  else ucd_todigit ch.

(** [_PyUnicode_ToDigit(ch) >= 0] *)
Definition Py_UNICODE_ISDIGIT `{UnicodeData} (ch : Z) : bool :=
  match Py_UNICODE_TODIGIT ch with
  | Some _ => true
  | None => false
  end.

(** [s.isdigit()]: all characters are digits and there is at least one. *)
Definition isdigit `{UnicodeData} (s : str) : bool :=
  match s with
  | [] => false
  | _ :: _ => forallb Py_UNICODE_ISDIGIT s
  end.

(** ** [int(value, base=16)]

    [PyLong_FromUnicodeObject] first maps the string to ASCII
    ([_PyUnicode_TransformDecimalAndSpaceToASCII]) and then parses it with
    [PyLong_FromString]. *)

Fixpoint transform_to_ascii `{UnicodeData} (s : str) : str :=
  match s with
  | [] => []
  | ch :: s' =>
      if ch <? 127 then ch :: transform_to_ascii s'
      else if Py_UNICODE_ISSPACE ch then 32 :: transform_to_ascii s'
      else match Py_UNICODE_TODECIMAL ch with
           | Some d => (48 + d) :: transform_to_ascii s'
           | None => [63]
           end
  end.

(** An ASCII string is returned as it is. *)
Definition _PyUnicode_TransformDecimalAndSpaceToASCII `{UnicodeData} (s : str) : str :=
  if forallb (λ ch, ch <? 128) s then s else transform_to_ascii s.

(** [_PyLong_DigitValue]: 37 for a character that is no digit in any base. *)
Definition _PyLong_DigitValue (ch : Z) : Z :=
  if (48 <=? ch) && (ch <=? 57) then ch - 48
  else if (97 <=? ch) && (ch <=? 122) then ch - 87
  else if (65 <=? ch) && (ch <=? 90) then ch - 55
  else 37.

Fixpoint skip_spaces (s : str) : str :=
  match s with
  | ch :: s' => if Py_ISSPACE ch then skip_spaces s' else s
  | [] => []
  end.

(** [long_from_binary_base]: scans digits and single underscores, keeping
    the previous character in [prev]; the value is accumulated in [acc].
    It returns the value and the unread rest, or [None] on a doubled or
    trailing underscore. *)
Fixpoint long_from_binary_base (base prev acc : Z) (p : str) : option (Z * str) :=
  match p with
  | ch :: p' =>
      if ch =? 95 then
        if prev =? 95 then None
        else long_from_binary_base base ch acc p'
      else if _PyLong_DigitValue ch <? base then
        long_from_binary_base base ch (acc * base + _PyLong_DigitValue ch) p'
      else if prev =? 95 then None else Some (acc, p)
  | [] => if prev =? 95 then None else Some (acc, [])
  end.

(** The optional sign in front of the digits. *)
Definition parse_sign (s : str) : Z * str :=
  match s with
  | ch :: s' =>
      if ch =? 43 then (1, s')
      else if ch =? 45 then (-1, s')
      else (1, s)
  | [] => (1, s)
  end.

(** The optional [0x] or [0X] of base 16, after which one underscore is
    allowed. *)
Definition skip_prefix16 (s : str) : str :=
  match s with
  | c0 :: c1 :: s' =>
      if (c0 =? 48) && ((c1 =? 120) || (c1 =? 88)) then
        match s' with
        | c2 :: s'' => if c2 =? 95 then s'' else s'
        | [] => s'
        end
      else s
  | _ => s
  end.

(** [PyLong_FromString(str, &end, 16)]; [None] is the [ValueError]. The
    digits may not start with an underscore, there has to be at least one
    character of them, and after trailing white space the parse has to be
    at the end of the buffer. *)
Definition PyLong_FromString16 (s : str) : option Z :=
  let s := skip_spaces s in
  let '(sign, s) := parse_sign s in
  let s := skip_prefix16 s in
  if bool_decide (head s = Some 95) then None
  else
    match long_from_binary_base 16 0 0 s with
    | None => None
    | Some (z, rest) =>
        if (length rest =? length s)%nat then None
        else match skip_spaces rest with
             | [] => Some (sign * z)
             | _ :: _ => None
             end
    end.

(** [int(value, base=16)] on a [str]; [None] is the [ValueError]. *)
Definition int16 `{UnicodeData} (value : str) : option Z :=
  PyLong_FromString16 (_PyUnicode_TransformDecimalAndSpaceToASCII value).

(** ** Exceptions and the thread's decimal context

    The signals of the [decimal] module are exception classes and sticky
    flags of the thread's context at once. *)

Inductive signal :=
  | Clamped | DivisionByZero | Inexact | InvalidOperation
  | Overflow | Rounded | Subnormal | Underflow.

(** The text of an exception. The text of the [ValueError] of [int()] ends
    in [repr(value)], which is kept symbolic. *)
Inductive message :=
  | Text (s : str)
  | InvalidLiteralForInt (base : Z) (value : str).

Inductive exn :=
  | ValueError (m : message)
  | DecimalException (sig : signal).

(** [getcontext().flags] *)
Record Flags := {
  f_Clamped : bool; f_DivisionByZero : bool; f_Inexact : bool;
  f_InvalidOperation : bool; f_Overflow : bool; f_Rounded : bool;
  f_Subnormal : bool; f_Underflow : bool
}.

Definition no_flags : Flags :=
  {| f_Clamped := false; f_DivisionByZero := false; f_Inexact := false;
     f_InvalidOperation := false; f_Overflow := false; f_Rounded := false;
     f_Subnormal := false; f_Underflow := false |}.

Definition flag (sig : signal) (fl : Flags) : bool :=
  match sig with
  | Clamped => f_Clamped fl
  | DivisionByZero => f_DivisionByZero fl
  | Inexact => f_Inexact fl
  | InvalidOperation => f_InvalidOperation fl
  | Overflow => f_Overflow fl
  | Rounded => f_Rounded fl
  | Subnormal => f_Subnormal fl
  | Underflow => f_Underflow fl
  end.

(** [context.flags[sig] = 1] *)
Definition set_flag (sig : signal) (fl : Flags) : Flags :=
  let 'Build_Flags c d i o v r s u := fl in
  match sig with
  | Clamped => Build_Flags true d i o v r s u
  | DivisionByZero => Build_Flags c true i o v r s u
  | Inexact => Build_Flags c d true o v r s u
  | InvalidOperation => Build_Flags c d i true v r s u
  | Overflow => Build_Flags c d i o true r s u
  | Rounded => Build_Flags c d i o v true s u
  | Subnormal => Build_Flags c d i o v r true u
  | Underflow => Build_Flags c d i o v r s true
  end.

(** The precision and the exponent limits of the thread's context,
    [decimal.getcontext()]. The serializers never replace or edit the
    context, but they compute in the one the thread has, which other code
    of the process can have changed ([getcontext().prec = 50]). The
    rounding mode is taken to be [ROUND_HALF_EVEN], [clamp] to be 0 and
    the traps to be those of [DefaultContext]: with another rounding mode
    or trap the results are different ones, which are not described
    here. *)
Class Context := { prec : Z; Emax : Z; Emin : Z }.

(** [decimal.DefaultContext], from which the context of every thread is
    copied. A statement that names no context is about this one. *)
#[global] Instance DefaultContext : Context :=
  {| prec := 28; Emax := 999999; Emin := -999999 |}.

Definition Etiny `{Context} : Z := Emin - prec + 1.
Definition Etop `{Context} : Z := Emax - prec + 1.

(** [DefaultContext.traps] *)
Definition traps (sig : signal) : bool :=
  match sig with
  | InvalidOperation | DivisionByZero | Overflow => true
  | _ => false
  end.

(** Code that may raise and that reads and writes the context flags. *)
Inductive result (A : Type) :=
  | Return (a : A)
  | Raise (e : exn).
Arguments Return {A} a.
Arguments Raise {A} e.

Definition M (A : Type) : Type := Flags → result A * Flags.

Definition ret {A} (a : A) : M A := λ fl, (Return a, fl).
Definition raise {A} (e : exn) : M A := λ fl, (Raise e, fl).
Definition bind {A B} (m : M A) (k : A → M B) : M B :=
  λ fl, match m fl with
        | (Return a, fl') => k a fl'
        | (Raise e, fl') => (Raise e, fl')
        end.

Notation "'do' x <- m ; k" := (bind m (λ x, k))
  (at level 10, x name, m at level 100, k at level 200).

(** [try: body  except ValueError: handler] *)
Definition try_except_ValueError {A} (body handler : M A) : M A :=
  λ fl, match body fl with
        | (Raise (ValueError _), fl') => handler fl'
        | r => r
        end.

(** [context._raise_error(sig)]: the flag is set, and a trapped signal is
    then raised. An untrapped signal lets the computation go on with the
    substitute result of the condition; the signals with a substitute
    result of their own ([InvalidOperation], [DivisionByZero], [Overflow])
    are all trapped by the default context, so that the substitute is
    never used and [unit] is returned here. *)
Definition _raise_error (sig : signal) : M unit :=
  λ fl, if traps sig then (Raise (DecimalException sig), set_flag sig fl)
        else (Return (), set_flag sig fl).

(** ** Decimal numbers

    A finite [Decimal] is the triple of [as_tuple()]: a sign, a coefficient
    (the integer written by [_int]) and an exponent; its value is
    [(-1)^sign * coefficient * 10^exponent]. The serializers build no
    infinity and no NaN. *)

Record Decimal := { d_sign : bool; d_int : Z; d_exp : Z }.

(** The rational a [Decimal] denotes. *)
Definition Decimal_value (d : Decimal) : Q :=
  let m := inject_Z (if d_sign d then - d_int d else d_int d) in
  if 0 <=? d_exp d then (m * inject_Z (10 ^ d_exp d))%Q
  else (m / inject_Z (10 ^ (- d_exp d)))%Q.

(** [Decimal(n)] for an [int]: exact, whatever the context. *)
Definition Decimal_of_int (n : Z) : Decimal :=
  {| d_sign := n <? 0; d_int := Z.abs n; d_exp := 0 |}.

(** The literal [Decimal("1e27")]. *)
Definition Decimal_1e27 : Decimal :=
  {| d_sign := false; d_int := 1; d_exp := 27 |}.

(** [len(str(n))] for [n >= 0]. *)
Fixpoint ndigits_fuel (fuel : nat) (n : Z) : Z :=
  match fuel with
  | O => 1
  | S fuel' => if n <? 10 then 1 else 1 + ndigits_fuel fuel' (n / 10)
  end.

Definition ndigits (n : Z) : Z := ndigits_fuel (Z.to_nat (Z.log2 n)) n.

(** [_round_half_even(self, digits)] on the coefficient [c], of which the
    leading [digits] digits are kept: the discarded digits are
    [c mod 10^k] with [k = ndigits c - digits]. The result is 1 to round
    away from zero, 0 when the discarded digits are all zero, -1 to
    truncate. *)
Definition _round_half_even (c digits : Z) : Z :=
  let k := ndigits c - digits in
  let kept := c / 10 ^ k in
  let discarded := c mod 10 ^ k in
  let half := 5 * 10 ^ (k - 1) in
  if (discarded =? half) && Z.even kept then -1
  else if half <=? discarded then 1
  else if discarded =? 0 then 0
  else -1.

(** A result above the exponent range, [context._raise_error(Overflow,
    'above Emax', sign)]. The condition has three signals: the C
    implementation, which CPython runs, records all of them in the flags
    and then raises the trapped one, whereas the pure-Python [_pydecimal]
    raises [Overflow] before the other two are recorded. The flags are
    those of the C implementation. *)
Definition _raise_overflow : M unit :=
  do _ <- _raise_error Inexact;
  do _ <- _raise_error Rounded;
  _raise_error Overflow.

(** [Decimal._fix(context)]: round to the context's precision and check
    the exponent range ([clamp] is 0, rounding is [ROUND_HALF_EVEN]). *)
Definition _fix `{Context} (self : Decimal) : M Decimal :=
  let sign := d_sign self in
  if d_int self =? 0 then
    let new_exp := Z.min (Z.max (d_exp self) Etiny) Emax in
    if negb (new_exp =? d_exp self) then
      do _ <- _raise_error Clamped;
      ret {| d_sign := sign; d_int := 0; d_exp := new_exp |}
    else ret self
  else
    let exp_min := ndigits (d_int self) + d_exp self - prec in
    if Etop <? exp_min then
      do _ <- _raise_overflow;
      ret self
    else
      let self_is_subnormal := exp_min <? Etiny in
      let exp_min := if self_is_subnormal then Etiny else exp_min in
      if d_exp self <? exp_min then
        let digits := ndigits (d_int self) + d_exp self - exp_min in
        let '(c, digits) := if digits <? 0 then (1, 0) else (d_int self, digits) in
        let changed := _round_half_even c digits in
        let coeff := c / 10 ^ (ndigits c - digits) in
        let '(coeff, exp_min) :=
          if 0 <? changed then
            let coeff := coeff + 1 in
            if prec <? ndigits coeff then (coeff / 10, exp_min + 1)
            else (coeff, exp_min)
          else (coeff, exp_min) in
        do _ <- (if Etop <? exp_min then _raise_overflow else ret ());
        let ans := {| d_sign := sign; d_int := coeff; d_exp := exp_min |} in
        do _ <- (if negb (changed =? 0) && self_is_subnormal
                 then _raise_error Underflow else ret ());
        do _ <- (if self_is_subnormal then _raise_error Subnormal else ret ());
        do _ <- (if negb (changed =? 0) then _raise_error Inexact else ret ());
        do _ <- _raise_error Rounded;
        do _ <- (if d_int ans =? 0 then _raise_error Clamped else ret ());
        ret ans
      else
        do _ <- (if self_is_subnormal then _raise_error Subnormal else ret ());
        ret self.

(** The loop of [__truediv__] for an exact quotient:
    [while exp < ideal_exp and coeff % 10 == 0: coeff //= 10; exp += 1],
    with [n] the [ideal_exp - exp] rounds the first test allows. *)
Fixpoint to_ideal_exp (n : nat) (coeff exp : Z) : Z * Z :=
  match n with
  | O => (coeff, exp)
  | S n' =>
      if coeff mod 10 =? 0 then to_ideal_exp n' (coeff / 10) (exp + 1)
      else (coeff, exp)
  end.

(** [self / other] ([Decimal.__truediv__]) for finite operands. *)
Definition Decimal_truediv `{Context} (self other : Decimal) : M Decimal :=
  let sign := xorb (d_sign self) (d_sign other) in
  if d_int other =? 0 then
    if d_int self =? 0 then
      (* DivisionUndefined, a kind of InvalidOperation *)
      do _ <- _raise_error InvalidOperation; ret self
    else
      do _ <- _raise_error DivisionByZero; ret self
  else
    let '(coeff, exp) :=
      if d_int self =? 0 then (0, d_exp self - d_exp other)
      else
        let shift := ndigits (d_int other) - ndigits (d_int self) + prec + 1 in
        let exp := d_exp self - d_exp other - shift in
        let '(coeff, remainder) :=
          if 0 <=? shift then
            ((d_int self * 10 ^ shift) / d_int other,
             (d_int self * 10 ^ shift) mod d_int other)
          else
            (d_int self / (d_int other * 10 ^ (- shift)),
             d_int self mod (d_int other * 10 ^ (- shift))) in
        if negb (remainder =? 0) then
          (* not exact: make sure the rounding sees a non-zero tail *)
          (if coeff mod 5 =? 0 then coeff + 1 else coeff, exp)
        else
          let ideal_exp := d_exp self - d_exp other in
          to_ideal_exp (Z.to_nat (ideal_exp - exp)) coeff exp in
    _fix {| d_sign := sign; d_int := coeff; d_exp := exp |}.

(** [Decimal(value)] for a [str] on which [value.isdigit()] holds, the
    only strings [validate_amount] hands to the constructor. Such a string
    has no blank, underscore, sign, point or exponent, so that the
    numeric-string syntax of the constructor comes down to this: every
    character has to be a decimal digit ([Py_UNICODE_TODECIMAL], the [\d]
    of the pure-Python parser), and the result is the integer the digits
    write; any other character is a [ConversionSyntax] condition, which
    signals [InvalidOperation]. *)
Fixpoint decimal_digits `{UnicodeData} (acc : Z) (s : str) : option Z :=
  match s with
  | [] => Some acc
  | ch :: s' =>
      match Py_UNICODE_TODECIMAL ch with
      | Some d => decimal_digits (acc * 10 + d) s'
      | None => None
      end
  end.

Definition Decimal_of_digit_str `{UnicodeData} (value : str) : M Decimal :=
  match decimal_digits 0 value with
  | Some n => ret {| d_sign := false; d_int := n; d_exp := 0 |}
  | None =>
      do _ <- _raise_error InvalidOperation;
      ret {| d_sign := false; d_int := 0; d_exp := 0 |}
  end.

(** ** pydantic: validation of the fields of a model

    [BaseModel.__init__] looks every declared field up in the input, in
    the order of declaration, and runs its validators. A [ValueError]
    raised by a validator becomes a line error located at the field, and
    validation goes on with the next field; any other exception leaves the
    constructor at once. When all fields are done, a non-empty list of line
    errors is raised as one [ValidationError]. *)

Inductive error_type := missing | value_error.

(** An entry of [ValidationError.errors()]. For a [value_error], [msg] is
    the text of the [ValueError] (pydantic shows it after
    ["Value error, "]); for [missing] it is ["Field required"]. *)
Record line_error := { loc : string; type : error_type; msg : message }.

Inductive outcome (A : Type) :=
  | Constructed (a : A)
  | ValidationError (errors : list line_error)
  | Propagated (e : exn).
Arguments Constructed {A} a.
Arguments ValidationError {A} errors.
Arguments Propagated {A} e.

(** The raw input: a [dict] from field names to strings. *)
Abbreviation raw_mapping := (gmap string str).

(** Validation of some of the fields: either an exception that is no
    validation failure, or the value built so far (if no field failed)
    with the line errors collected. *)
Definition fields (A : Type) : Type :=
  Flags → (exn + option A * list line_error) * Flags.

Definition pure {A} (a : A) : fields A := λ fl, (inr (Some a, []), fl).

Definition ap {A B} (f : fields (A → B)) (x : fields A) : fields B :=
  λ fl,
    match f fl with
    | (inl e, fl') => (inl e, fl')
    | (inr (og, errs1), fl') =>
        match x fl' with
        | (inl e, fl'') => (inl e, fl'')
        | (inr (ox, errs2), fl'') =>
            (inr (match og, ox with
                  | Some g, Some a => Some (g a)
                  | _, _ => None
                  end, errs1 ++ errs2), fl'')
        end
    end.

Notation "f <*> x" := (ap f x) (at level 50, left associativity).

(** One field: the value is looked up by the field's name and passed to
    the field's validator function. The raw values being strings, the type
    check of a [str] field (before an "after" validator) always passes, and
    so does the check of a [Decimal] field on the finite [Decimal] its
    "before" validator returns. *)
Definition field {A} (name : string) (validator : str → M A)
    (raw : raw_mapping) : fields A :=
  λ fl,
    match raw !! name with
    | None =>
        (inr (None, [{| loc := name; type := missing;
                        msg := Text (lit "Field required") |}]), fl)
    | Some v =>
        match validator v fl with
        | (Return a, fl') => (inr (Some a, []), fl')
        | (Raise (ValueError m), fl') =>
            (inr (None, [{| loc := name; type := value_error; msg := m |}]), fl')
        | (Raise e, fl') => (inl e, fl')
        end
    end.

Definition validate_model {A} (v : fields A) (fl : Flags) : outcome A * Flags :=
  match v fl with
  | (inl e, fl') => (Propagated e, fl')
  | (inr (Some a, []), fl') => (Constructed a, fl')
  | (inr (_, errs), fl') => (ValidationError errs, fl')
  end.

(** ** shared.helpers *)

(** The number of hexadecimal digits of a canonical address. *)
Class CanonicalWidth := canonical_width : nat.

(** Modelled from the spec: [shared.helpers.add_leading_zeros] is not among
    the sources. The spec has it pad an address that starts with [0x] with
    leading zeros to a fixed total width, keeping the number it writes: the
    digits after the prefix are kept, and zeros are put in front of them
    until there are [canonical_width] digits. *)
Definition add_leading_zeros `{CanonicalWidth} (hash : str) : str :=
  let digits := drop 2 hash in
  lit "0x" ++ replicate (canonical_width - length digits)%nat 48 ++ digits.

(** The width of a Starknet address, 64 hexadecimal digits. *)
Definition starknet_width : CanonicalWidth := 64%nat.

(** ** serializers.py *)

(** [int(v, 16)], raising [ValueError]. *)
Definition int_base16 `{UnicodeData} (v : str) : M Z :=
  match int16 v with
  | Some n => ret n
  | None => raise (ValueError (InvalidLiteralForInt 16 v))
  end.

Module DataAccumulatorsSyncEvent.
Record t := {
  token : str;
  lending_accumulator : Decimal;
  debt_accumulator : Decimal
}.

(** [return Decimal(int(v, 16)) / Decimal("1e27")] *)
Definition hex_to_decimal `{UnicodeData} `{Context} (v : str) : M Decimal :=
  do n <- int_base16 v;
  Decimal_truediv (Decimal_of_int n) Decimal_1e27.

Definition model_validate `{UnicodeData} `{Context} (raw : raw_mapping)
    : Flags → outcome t * Flags :=
  validate_model
    (pure Build_t
     <*> field "token" ret raw
     <*> field "lending_accumulator" hex_to_decimal raw
     <*> field "debt_accumulator" hex_to_decimal raw).
End DataAccumulatorsSyncEvent.

Module LiquidationEventData.
(** The amount fields are annotated [str]; their validator runs after
    the [str] check and what it returns, a [Decimal], is what the field
    holds. *)
Record t := {
  liquidator : str;
  user : str;
  debt_token : str;
  debt_raw_amount : Decimal;
  debt_face_amount : Decimal;
  collateral_token : str;
  collateral_amount : Decimal
}.

Definition validate_valid_addresses `{CanonicalWidth}
    (field_name : string) (value : str) : M str :=
  if negb (startswith value (lit "0x")) then
    raise (ValueError (Text (lit "Invalid address provided for " ++ lit field_name)))
  else ret (add_leading_zeros value).

Definition validate_valid_numbers `{UnicodeData}
    (field_name : string) (value : str) : M Decimal :=
  try_except_ValueError
    (do n <- int_base16 value; ret (Decimal_of_int n))
    (raise (ValueError (Text (lit field_name ++ lit " field is not a valid hexadecimal number")))).

Definition address_fields : list string :=
  ["liquidator"; "user"; "debt_token"; "collateral_token"].

Definition amount_fields : list string :=
  ["debt_raw_amount"; "debt_face_amount"; "collateral_amount"].

(** The fields in the order of their declaration. *)
Definition field_names : list string :=
  ["liquidator"; "user"; "debt_token"; "debt_raw_amount"; "debt_face_amount";
   "collateral_token"; "collateral_amount"].

Definition model_validate `{UnicodeData} `{CanonicalWidth} (raw : raw_mapping)
    : Flags → outcome t * Flags :=
  validate_model
    (pure Build_t
     <*> field "liquidator" (validate_valid_addresses "liquidator") raw
     <*> field "user" (validate_valid_addresses "user") raw
     <*> field "debt_token" (validate_valid_addresses "debt_token") raw
     <*> field "debt_raw_amount" (validate_valid_numbers "debt_raw_amount") raw
     <*> field "debt_face_amount" (validate_valid_numbers "debt_face_amount") raw
     <*> field "collateral_token" (validate_valid_addresses "collateral_token") raw
     <*> field "collateral_amount" (validate_valid_numbers "collateral_amount") raw).
End LiquidationEventData.

Module WithdrawalEventData.
Record t := {
  user : str;
  amount : Decimal;
  token : str
}.

Definition validate_addresses `{CanonicalWidth} (value : str) : M str :=
  if negb (startswith value (lit "0x")) then
    raise (ValueError (Text (lit "Invalid address provided: " ++ value)))
  else ret (add_leading_zeros value).

Definition validate_amount `{UnicodeData} (value : str) : M Decimal :=
  if negb (isdigit value) then
    raise (ValueError (Text (lit "Amount field is not numeric")))
  else Decimal_of_digit_str value.

Definition address_fields : list string := ["user"; "token"].

Definition model_validate `{UnicodeData} `{CanonicalWidth} (raw : raw_mapping)
    : Flags → outcome t * Flags :=
  validate_model
    (pure Build_t
     <*> field "user" validate_addresses raw
     <*> field "amount" validate_amount raw
     <*> field "token" validate_addresses raw).
End WithdrawalEventData.

(** ** Notions the properties are stated with *)

(** The value and the line errors a field contributes when its validator
    [r] neither reads nor writes the decimal context. *)
Definition field_result {A} (name : string) (r : str → result A)
    (raw : raw_mapping) : option A * list line_error :=
  match raw !! name with
  | None =>
      (None, [{| loc := name; type := missing; msg := Text (lit "Field required") |}])
  | Some v =>
      match r v with
      | Return a => (Some a, [])
      | Raise (ValueError m) =>
          (None, [{| loc := name; type := value_error; msg := m |}])
      | Raise (DecimalException _) => (None, [])
      end
  end.

(** A field of a [LiquidationEventData] input violates its rule: it is
    absent, an address without the [0x] prefix, or an amount [int(_, 16)]
    rejects. *)
Definition violates `{UnicodeData} (raw : raw_mapping) (name : string) : bool :=
  match raw !! name with
  | None => true
  | Some v =>
      if bool_decide (name ∈ LiquidationEventData.amount_fields)
      then bool_decide (int16 v = None)
      else negb (startswith v (lit "0x"))
  end.

(** A plain base-16 digit: one of [0-9], [a-f], [A-F]. *)
Definition is_hex_digit (ch : Z) : bool :=
  ((48 <=? ch) && (ch <=? 57)) || ((97 <=? ch) && (ch <=? 102))
  || ((65 <=? ch) && (ch <=? 70)).

(** The number a string of plain base-16 digits writes. *)
Definition hex_value (s : str) : Z :=
  foldl (λ acc ch, acc * 16 + _PyLong_DigitValue ch) 0 s.

(** Setting the flags of a list of signals, one after the other. *)
Definition set_flags (sigs : list signal) (fl : Flags) : Flags :=
  foldl (λ fl sig, set_flag sig fl) fl sigs.

(** A computation whose result does not depend on the flags it starts
    from and whose only effect is to set flags. *)
Definition writes_only {A} (m : Flags → A * Flags) : Prop :=
  ∃ a sigs, ∀ fl, m fl = (a, set_flags sigs fl).


(** The line errors a field contributes, for a validator that leaves the
    context alone. *)
Definition field_errors {A} (name : string) (val : str → M A)
    (raw : raw_mapping) : list line_error :=
  (field_result name (λ v, (val v no_flags).1) raw).2.

(** A validation step that leaves the flags alone, reports the line errors
    [errs], and has a value exactly when it reports none. *)
Definition collects {A} (v : fields A) (fl : Flags) (errs : list line_error) : Prop :=
  ∃ o, v fl = (inr (o, errs), fl) ∧ (o = None ↔ errs ≠ []).

(** The line errors of a [LiquidationEventData] input, field by field in
    the order of declaration. *)
Definition liquidation_field_errors `{UnicodeData} `{CanonicalWidth}
    (raw : raw_mapping) (name : string) : list line_error :=
  if bool_decide (name ∈ LiquidationEventData.amount_fields)
  then field_errors name (LiquidationEventData.validate_valid_numbers name) raw
  else field_errors name (LiquidationEventData.validate_valid_addresses name) raw.

Definition liquidation_errors `{UnicodeData} `{CanonicalWidth}
    (raw : raw_mapping) : list line_error :=
  flat_map (liquidation_field_errors raw) LiquidationEventData.field_names.

(** The amount of a [WithdrawalEventData] input, if it passes
    [str.isdigit], is made of decimal digits, so that [Decimal(value)]
    accepts it. *)
Definition amount_converts `{UnicodeData} (raw : raw_mapping) : Prop :=
  ∀ a, raw !! "amount" = Some a → isdigit a = true → is_Some (decimal_digits 0 a).

(** The line errors of a [WithdrawalEventData] input whose amount
    converts. *)
Definition withdrawal_errors `{UnicodeData} `{CanonicalWidth}
    (raw : raw_mapping) : list line_error :=
  field_errors "user" WithdrawalEventData.validate_addresses raw
  ++ field_errors "amount" WithdrawalEventData.validate_amount raw
  ++ field_errors "token" WithdrawalEventData.validate_addresses raw.

(** ** Notions of the further properties *)

(** The line error for a field the input does not have. *)
Definition field_required (name : string) : line_error :=
  {| loc := name; type := missing; msg := Text (lit "Field required") |}.

(** The signs [int()] reads in front of a literal, each with its factor:
    none, [+] and [-]. *)
Definition int_signs : list (str * Z) := [([], 1); (lit "+", 1); (lit "-", -1)].

(** The prefixes of a literal in base 16: none, [0x] and [0X]. *)
Definition hex_prefixes : list str := [[]; lit "0x"; lit "0X"].

(** The characters below U+0080 a base-16 literal can hold: the plain
    digits, white space, the signs, the [x] and [X] of the prefix and the
    underscore. *)
Definition int16_alphabet (ch : Z) : bool :=
  is_hex_digit ch || Py_ISSPACE ch
  || (ch =? 43) || (ch =? 45) || (ch =? 120) || (ch =? 88) || (ch =? 95).

(** The digits of a literal: plain base-16 digits, with single underscores
    between them. [after_digit] tells whether the character in front is a
    digit, after which an underscore or the end may come. *)
Fixpoint digits_with_underscores (after_digit : bool) (s : str) : bool :=
  match s with
  | [] => after_digit
  | ch :: s' =>
      if ch =? 95 then after_digit && digits_with_underscores false s'
      else is_hex_digit ch && digits_with_underscores true s'
  end.

(** The prefixes of a literal in base 16, with the underscore that may
    follow them. *)
Definition hex_prefixes_with_underscore : list str :=
  [[]; lit "0x"; lit "0X"; lit "0x_"; lit "0X_"].

(** The string [v] is a literal of the integer [n] in base 16: white
    space, a sign, a prefix, digits, white space. *)
Definition hex_literal (v : str) (n : Z) : Prop :=
  ∃ ws1 sg k px body ws2,
    v = ws1 ++ sg ++ px ++ body ++ ws2
    ∧ forallb Py_ISSPACE ws1 = true ∧ forallb Py_ISSPACE ws2 = true
    ∧ (sg, k) ∈ int_signs ∧ px ∈ hex_prefixes_with_underscore
    ∧ digits_with_underscores false body = true
    ∧ n = k * hex_value (List.filter (λ ch, negb (ch =? 95)) body).

(** The fields of the three models, in the order of declaration (those of
    [LiquidationEventData] are [LiquidationEventData.field_names]). *)
Definition accumulators_field_names : list string :=
  ["token"; "lending_accumulator"; "debt_accumulator"].

Definition withdrawal_field_names : list string := ["user"; "amount"; "token"].

(** The fields [hex_to_decimal] validates. *)
Definition accumulator_fields : list string :=
  ["lending_accumulator"; "debt_accumulator"].

(** The accumulators of an input divide without overflow: an integer
    [int(_, 16)] reads from them has at most 1000026 decimal digits. *)
Definition quotient_in_range `{UnicodeData} (raw : raw_mapping) : Prop :=
  ∀ name v n, name ∈ accumulator_fields → raw !! name = Some v →
              int16 v = Some n → ndigits (Z.abs n) <= 1000026.

(** The line errors of the fields of a [DataAccumulatorsSyncEvent]: the
    token can only be absent; an accumulator can be absent, or a string
    [int(_, 16)] rejects, reported with the text of [int()] itself. *)
Definition token_errors (raw : raw_mapping) : list line_error :=
  match raw !! "token" with
  | None => [field_required "token"]
  | Some _ => []
  end.

Definition accumulator_errors `{UnicodeData} (raw : raw_mapping) (name : string)
    : list line_error :=
  match raw !! name with
  | None => [field_required name]
  | Some v =>
      match int16 v with
      | Some _ => []
      | None => [{| loc := name; type := value_error;
                    msg := InvalidLiteralForInt 16 v |}]
      end
  end.

(** The amount of a [WithdrawalEventData] input passes [str.isdigit] and
    is rejected by [Decimal()]. *)
Definition amount_escapes `{UnicodeData} (raw : raw_mapping) : bool :=
  match raw !! "amount" with
  | Some a => isdigit a && bool_decide (decimal_digits 0 a = None)
  | None => false
  end.

(** The line errors of the fields of a [WithdrawalEventData]. *)
Definition withdrawal_address_errors (raw : raw_mapping) (name : string)
    : list line_error :=
  match raw !! name with
  | None => [field_required name]
  | Some v =>
      if startswith v (lit "0x") then []
      else [{| loc := name; type := value_error;
               msg := Text (lit "Invalid address provided: " ++ v) |}]
  end.

Definition withdrawal_amount_errors `{UnicodeData} (raw : raw_mapping)
    : list line_error :=
  match raw !! "amount" with
  | None => [field_required "amount"]
  | Some a =>
      if isdigit a then []
      else [{| loc := "amount"; type := value_error;
               msg := Text (lit "Amount field is not numeric") |}]
  end.

(** Rounding to the precision of the context, as arithmetic has it, with
    which the quotient of an accumulator is compared. *)

(** [c] rounded half-even to a multiple of [10^k], in units of [10^k]:
    [c // 10^k], or one more when the digits dropped are above the half,
    or at the half with an odd digit before them. *)
Definition round_half_even (c k : Z) : Z :=
  let q := c / 10 ^ k in
  let r := c mod 10 ^ k in
  let half := 5 * 10 ^ (k - 1) in
  if negb ((r =? half) && Z.even q) && (half <=? r) then q + 1 else q.

(** The decimal of 28 digits that writes [R * 10^k * 10^-27], for
    [10^27 <= R <= 10^28]. *)
Definition of_units (sign : bool) (R k : Z) : Decimal :=
  if R =? 10 ^ 28 then {| d_sign := sign; d_int := 10 ^ 27; d_exp := k + 1 - 27 |}
  else {| d_sign := sign; d_int := R; d_exp := k - 27 |}.

(** The least coefficient of [k + 28] digits that rounds, half-even at
    its 28th digit, to [10^(k+28)]: half a unit of the 28th digit below
    that power. *)
Definition carry_bound (k : Z) : Z := 10 ^ (k + 28) - 5 * 10 ^ (k - 1).

(** The least integer whose quotient by [10^27] is, rounded to the 28
    digits of the default context, above the largest number of the
    context, [9.99...9E+999999]: [10^1000027 - 5 * 10^999998]. *)
Definition overflow_bound : Z := 10 ^ 1000027 - 5 * 10 ^ 999998.

(** [n / 10^27] to the precision of the context, in units of [10^-27]:
    [n] itself up to 28 digits, [n] rounded half-even at its 28th digit
    beyond. *)
Definition quotient_units (n : Z) : Z :=
  let c := Z.abs n in
  let k := ndigits c - 28 in
  Z.sgn n * (if c <? 10 ^ 28 then c else round_half_even c k * 10 ^ k).

(** ** web_app/telegram/utils.py

    [TelegramNotifications] keeps the chat identifiers to notify in an
    [asyncio.Queue], a class attribute shared by the producers
    ([send_notification]) and the consumer ([__call__]). The bot
    ([bot.send_message], of aiogram) is outside the sources: of a call to
    it only the arguments, and whether it returns or raises, are kept. *)

Module TelegramNotifications.

(** [asyncio.Queue]: the bound [_maxsize], the deque [_queue] of the items
    and the counter [_unfinished_tasks]. The futures of waiting getters and
    putters are left out: no coroutine of the module waits on the queue,
    [Queue.get] being never awaited and the queue being never full. *)
Record Queue := { _maxsize : Z; _queue : list Z; _unfinished_tasks : Z }.

(** [Queue(maxsize)]; [Queue()] is [Queue(0)]. *)
Definition Queue_init (maxsize : Z) : Queue :=
  {| _maxsize := maxsize; _queue := []; _unfinished_tasks := 0 |}.

Definition qsize (q : Queue) : Z := Z.of_nat (length (_queue q)).

(** [Queue.full()]: a queue with [maxsize <= 0] is never full. *)
Definition full (q : Queue) : bool :=
  if _maxsize q <=? 0 then false else _maxsize q <=? qsize q.

(** [Queue.put_nowait(item)] on a queue that is not full. *)
Definition put_nowait (item : Z) (q : Queue) : Queue :=
  {| _maxsize := _maxsize q;
     _queue := _queue q ++ [item];
     _unfinished_tasks := _unfinished_tasks q + 1 |}.

(** [await Queue.put(item)]: while the queue is full the coroutine waits
    for a getter ([None]: it is suspended); otherwise the item is put at
    once, without a switch to another task. *)
Definition put (item : Z) (q : Queue) : option Queue :=
  if full q then None else Some (put_nowait item q).

(** A value passed for [chat_id]: an identifier, or the coroutine object
    that a call of the coroutine function [Queue.get] returns. Calling a
    coroutine function runs none of its body; the body runs when the
    object is awaited. *)
Inductive object :=
  | int (n : Z)
  | coroutine_Queue_get.

(** The truth value of an object, as [while] tests it: an [int] is true
    when it is not zero; a coroutine object, which has neither [__bool__]
    nor [__len__], is true. *)
Definition truth (o : object) : bool :=
  match o with
  | int n => negb (n =? 0)
  | coroutine_Queue_get => true
  end.

(** The state: the class attribute [__queue_to_send], the calls of
    [bot.send_message] so far with their [chat_id] and [text], and whether
    the coroutine [__call__] is still in its loop. *)
Record state := {
  __queue_to_send : Queue;
  sent : list (object * str);
  running : bool
}.

(** The class has been created and [__call__] been started. *)
Definition initial : state :=
  {| __queue_to_send := Queue_init 0; sent := []; running := true |}.

(** [await cls.__queue_to_send.put(telegram_id)] *)
Definition send_notification (telegram_id : Z) (st : state) : option state :=
  q ← put telegram_id (__queue_to_send st);
  Some {| __queue_to_send := q; sent := sent st; running := running st |}.

(** One turn of the loop of [__call__],
    [while ident := self.__queue_to_send.get():
         await bot.send_message(chat_id=ident, text="Test message")].
    [get()] is called and not awaited, so that [ident] is the coroutine
    object and the queue is not read. When the bot raises, the exception
    leaves [__call__] and the loop is over. *)
Definition loop_turn (bot_raises : bool) (st : state) : state :=
  if running st then
    let ident := coroutine_Queue_get in
    if truth ident then
      {| __queue_to_send := __queue_to_send st;
         sent := sent st ++ [(ident, lit "Test message")];
         running := negb bot_raises |}
    else
      {| __queue_to_send := __queue_to_send st; sent := sent st; running := false |}
  else st.

(** What happens, in the order the event loop runs it: an awaited call of
    [send_notification], or a turn of the loop of [__call__] with the
    answer of the bot. *)
Inductive event :=
  | notify (telegram_id : Z)
  | turn (bot_raises : bool).

Definition step (st : state) (ev : event) : option state :=
  match ev with
  | notify telegram_id => send_notification telegram_id st
  | turn bot_raises => Some (loop_turn bot_raises st)
  end.

(** The state after a sequence of events; [None] when a producer is left
    waiting. *)
Definition run (evs : list event) : option state :=
  foldl (λ ost ev, st ← ost; step st ev) (Some initial) evs.

(** The identifiers handed to [send_notification], in order. *)
Definition notified (evs : list event) : list Z :=
  omap (λ ev, match ev with notify i => Some i | turn _ => None end) evs.

End TelegramNotifications.

(** * Properties *)

(** ** Decimal arithmetic *)

Lemma ndigits_fuel_le (fuel : nat) (n k : Z) :
  1 <= k → n < 10 ^ k → ndigits_fuel fuel n <= k.
Proof.
  revert n k. induction fuel as [|fuel IH]; intros n k Hk Hn; simpl; [lia|].
  destruct (Z.ltb_spec n 10) as [|Hge]; [lia|].
  assert (2 <= k) as Hk2.
  { destruct (Z.eq_dec k 1) as [->|]; [|lia]. change (10 ^ 1) with 10 in Hn. lia. }
  specialize (IH (n / 10) (k - 1)).
  assert (n / 10 < 10 ^ (k - 1)); [|lia].
  apply Z.div_lt_upper_bound; [lia|].
  rewrite <- Z.pow_succ_r by lia. replace (Z.succ (k - 1)) with k by lia. done.
Qed.

Lemma ndigits_le (n k : Z) : 1 <= k → n < 10 ^ k → ndigits n <= k.
Proof. apply ndigits_fuel_le. Qed.

Lemma ndigits_fuel_pos (fuel : nat) (n : Z) : 1 <= ndigits_fuel fuel n.
Proof.
  revert n. induction fuel as [|fuel IH]; intros n; simpl; [lia|].
  destruct (n <? 10); [lia|]. specialize (IH (n / 10)). lia.
Qed.

Lemma ndigits_pos (n : Z) : 1 <= ndigits n.
Proof. apply ndigits_fuel_pos. Qed.

(** An exact quotient that carries [k] extra zeros is brought back to its
    ideal exponent. *)
Lemma to_ideal_exp_zeros (k : nat) (c e : Z) :
  to_ideal_exp k (c * 10 ^ Z.of_nat k) e = (c, e + Z.of_nat k).
Proof.
  revert e. induction k as [|k IH]; intros e.
  - simpl. f_equal; lia.
  - rewrite Nat2Z.inj_succ, Z.pow_succ_r by lia. simpl.
    replace (c * (10 * 10 ^ Z.of_nat k)) with (c * 10 ^ Z.of_nat k * 10) by lia.
    rewrite Z.mod_mul, Z.div_mul by lia. simpl.
    rewrite IH. f_equal. lia.
Qed.

(** A coefficient that fits the precision, with an exponent in range, is
    left alone by [_fix], and no flag is set. *)
Lemma _fix_fits (d : Decimal) (fl : Flags) :
  0 <= d_int d → d_int d < 10 ^ prec → Etiny + prec <= d_exp d <= Etop →
  _fix d fl = (Return d, fl).
Proof.
  intros Hnn Hlt He. unfold _fix.
  destruct (Z.eqb_spec (d_int d) 0) as [Hz|Hnz].
  - replace (Z.min (Z.max (d_exp d) Etiny) Emax) with (d_exp d)
      by (unfold Etiny, Etop in *; cbn [prec Emax Emin DefaultContext] in *; lia).
    rewrite Z.eqb_refl. done.
  - pose proof (ndigits_pos (d_int d)) as Hp.
    pose proof (ndigits_le (d_int d) 28 ltac:(lia) Hlt) as Hl.
    unfold Etiny, Etop in *; cbn [prec Emax Emin DefaultContext] in *.
    destruct (Z.ltb_spec (999999 - 28 + 1) (ndigits (d_int d) + d_exp d - 28)); [lia|].
    destruct (Z.ltb_spec (ndigits (d_int d) + d_exp d - 28) (-999999 - 28 + 1)); [lia|].
    destruct (Z.ltb_spec (d_exp d) (ndigits (d_int d) + d_exp d - 28)); [lia|].
    done.
Qed.

(** [Decimal(n) / Decimal("1e27")] for an integer of at most 28 digits:
    the quotient is exact, and the context is left as it was. *)
Lemma truediv_1e27_exact (n : Z) (fl : Flags) :
  Z.abs n < 10 ^ 28 →
  Decimal_truediv (Decimal_of_int n) Decimal_1e27 fl =
    (Return {| d_sign := n <? 0; d_int := Z.abs n; d_exp := -27 |}, fl).
Proof.
  intros Hn. unfold Decimal_truediv, Decimal_of_int, Decimal_1e27; simpl.
  rewrite xorb_false_r.
  destruct (Z.eqb_spec (Z.abs n) 0) as [Hz|Hnz].
  - rewrite _fix_fits; simpl; unfold Etiny, Etop; cbn [prec Emax Emin DefaultContext]; try lia.
    by rewrite Hz.
  - pose proof (ndigits_pos (Z.abs n)) as Hp.
    pose proof (ndigits_le (Z.abs n) 28 ltac:(lia) Hn) as Hl.
    change (ndigits 1) with 1. cbn [prec DefaultContext].
    set (shift := 1 - ndigits (Z.abs n) + 28 + 1).
    assert (2 <= shift) as Hs by (unfold shift; lia).
    destruct (Z.leb_spec 0 shift); [|lia].
    rewrite Z.div_1_r, Z.mod_1_r. simpl.
    replace (0 - 27 - (0 - 27 - shift)) with shift by lia.
    replace (10 ^ shift) with (10 ^ Z.of_nat (Z.to_nat shift))
      by (rewrite Z2Nat.id; lia).
    rewrite to_ideal_exp_zeros, Z2Nat.id by lia.
    replace (0 - 27 - shift + shift) with (-27) by lia.
    apply _fix_fits; simpl; unfold Etiny, Etop; cbn [prec Emax Emin DefaultContext]; lia.
Qed.

Lemma Decimal_value_scaled (n : Z) :
  (Decimal_value {| d_sign := n <? 0; d_int := Z.abs n; d_exp := -27 |}
   == inject_Z n / inject_Z (10 ^ 27))%Q.
Proof.
  unfold Decimal_value; simpl.
  replace (if n <? 0 then - Z.abs n else Z.abs n) with n; [reflexivity|].
  destruct (Z.ltb_spec n 0); lia.
Qed.

(** ** Rounding to the precision of the context *)

(** [ndigits] has fuel enough: it is the number of decimal digits. *)
Lemma ndigits_fuel_spec (fuel : nat) (n : Z) :
  0 < n → n < 2 ^ (Z.of_nat fuel + 1) →
  10 ^ (ndigits_fuel fuel n - 1) <= n < 10 ^ ndigits_fuel fuel n.
Proof.
  revert n. induction fuel as [|fuel IH]; intros n Hpos Hlt.
  - simpl in *. change (10 ^ (1 - 1)) with 1. change (10 ^ 1) with 10. lia.
  - simpl ndigits_fuel. destruct (Z.ltb_spec n 10) as [|Hge].
    + change (10 ^ (1 - 1)) with 1. change (10 ^ 1) with 10. lia.
    + assert (0 < n / 10) as Hq by (apply Z.div_str_pos; lia).
      assert (n / 10 < 2 ^ (Z.of_nat fuel + 1)) as Hq2.
      { apply Z.div_lt_upper_bound; [lia|].
        rewrite Nat2Z.inj_succ in Hlt.
        replace (Z.succ (Z.of_nat fuel) + 1) with (Z.succ (Z.of_nat fuel + 1)) in Hlt by lia.
        rewrite Z.pow_succ_r in Hlt by lia. lia. }
      destruct (IH (n / 10) Hq Hq2) as [Hlo Hhi].
      pose proof (ndigits_fuel_pos fuel (n / 10)) as Hp.
      replace (1 + ndigits_fuel fuel (n / 10) - 1)
        with (Z.succ (ndigits_fuel fuel (n / 10) - 1)) by lia.
      replace (1 + ndigits_fuel fuel (n / 10))
        with (Z.succ (ndigits_fuel fuel (n / 10))) by lia.
      rewrite !Z.pow_succ_r by lia.
      pose proof (Z.div_mod n 10 ltac:(lia)) as Hdm.
      pose proof (Z.mod_pos_bound n 10 ltac:(lia)) as Hmb.
      lia.
Qed.

Lemma ndigits_spec (n : Z) :
  0 < n → 10 ^ (ndigits n - 1) <= n < 10 ^ ndigits n.
Proof.
  intros Hpos. apply ndigits_fuel_spec; [done|].
  rewrite Z2Nat.id by apply Z.log2_nonneg.
  replace (Z.log2 n + 1) with (Z.succ (Z.log2 n)) by lia.
  by apply Z.log2_spec.
Qed.

(** The number of digits is fixed by the powers of ten around a number. *)
Lemma ndigits_unique (n k : Z) :
  1 <= k → 10 ^ (k - 1) <= n < 10 ^ k → ndigits n = k.
Proof.
  intros Hk [Hlo Hhi].
  assert (0 < n) as Hpos.
  { pose proof (Z.pow_pos_nonneg 10 (k - 1) ltac:(lia) ltac:(lia)). lia. }
  destruct (ndigits_spec n Hpos) as [Hlo' Hhi'].
  pose proof (ndigits_pos n) as Hp.
  destruct (Z.lt_trichotomy (ndigits n) k) as [Hlt|[Heq|Hgt]]; [|done|].
  - assert (10 ^ ndigits n <= 10 ^ (k - 1)) by (apply Z.pow_le_mono_r; lia). lia.
  - assert (10 ^ k <= 10 ^ (ndigits n - 1)) by (apply Z.pow_le_mono_r; lia). lia.
Qed.

Lemma pow10_pos (k : Z) : 0 <= k → 0 < 10 ^ k.
Proof. intros. apply Z.pow_pos_nonneg; lia. Qed.

(** [_fix] on a coefficient of more than 28 digits whose 28 leading
    digits are in the exponent range: the coefficient is rounded half-even
    to 28 digits, a carry to [10^28] being written [10^27] with the next
    exponent; when that exponent is out of range, the result overflows. *)
Lemma _fix_rounds_carry (d : Decimal) (fl : Flags) :
  let c := d_int d in
  let k := ndigits c - 28 in
  let q := c / 10 ^ k in
  let r := c mod 10 ^ k in
  let up := negb ((r =? 5 * 10 ^ (k - 1)) && Z.even q) && (5 * 10 ^ (k - 1) <=? r) in
  let R := if up then q + 1 else q in
  10 ^ 28 <= c →
  Etiny <= d_exp d + k → d_exp d + k <= Etop →
  _fix d fl =
    if (R =? 10 ^ 28) && (Etop <? d_exp d + k + 1) then
      (Raise (DecimalException Overflow),
       set_flag Overflow (set_flag Rounded (set_flag Inexact fl)))
    else
    (Return (if R =? 10 ^ 28
             then {| d_sign := d_sign d; d_int := 10 ^ 27; d_exp := d_exp d + k + 1 |}
             else {| d_sign := d_sign d; d_int := R; d_exp := d_exp d + k |}),
     set_flag Rounded (if up || negb (r =? 0) then set_flag Inexact fl else fl)).
Proof.
  intros c k q r up R Hc Hlo Hhi.
  assert (d_int d = c) as Ec by done.
  assert (ndigits c - 28 = k) as Ek by done.
  assert (c / 10 ^ k = q) as Eq by done.
  assert (c mod 10 ^ k = r) as Er by done.
  assert (negb ((r =? 5 * 10 ^ (k - 1)) && Z.even q) && (5 * 10 ^ (k - 1) <=? r) = up)
    as Eup by done.
  assert ((if up then q + 1 else q) = R) as ER by done.
  clearbody c k q r up R.
  revert Eup; intros Eup'.
  assert (0 < c) as Hpos by (pose proof (pow10_pos 28); lia).
  destruct (ndigits_spec c Hpos) as [HL1 HL2].
  assert (29 <= ndigits c) as HL.
  { destruct (Z.le_gt_cases 29 (ndigits c)) as [|Hlt]; [done|].
    assert (10 ^ ndigits c <= 10 ^ 28) by (apply Z.pow_le_mono_r; lia). lia. }
  assert (1 <= k) as Hk by lia.
  pose proof (pow10_pos k ltac:(lia)) as Hpk.
  assert (10 ^ ndigits c = 10 ^ 28 * 10 ^ k) as Hsplit.
  { rewrite <- Z.pow_add_r by lia. f_equal. lia. }
  assert (10 ^ (ndigits c - 1) = 10 ^ 27 * 10 ^ k) as Hsplit'.
  { rewrite <- Z.pow_add_r by lia. f_equal. lia. }
  assert (10 ^ 27 <= q < 10 ^ 28) as Hq.
  { rewrite <- Eq. split.
    - apply Z.div_le_lower_bound; lia.
    - apply Z.div_lt_upper_bound; lia. }
  assert (0 <= r < 10 ^ k) as Hr by (rewrite <- Er; apply Z.mod_pos_bound; lia).
  assert (10 ^ 27 <= R <= 10 ^ 28) as HR by (rewrite <- ER; destruct up; cbv iota; lia).
  assert (∀ b : bool,
            (0 <? (if (r =? 5 * 10 ^ (k - 1)) && Z.even q then -1
                   else if 5 * 10 ^ (k - 1) <=? r then 1
                   else if r =? 0 then 0 else -1)) = b ↔ up = b) as Hup.
  { intros b. rewrite <- Eup'. clear Eup'.
    destruct ((r =? 5 * 10 ^ (k - 1)) && Z.even q); simpl; [done|].
    destruct (5 * 10 ^ (k - 1) <=? r); simpl; [done|].
    by destruct (r =? 0). }
  assert (∀ b : bool,
            negb ((if (r =? 5 * 10 ^ (k - 1)) && Z.even q then -1
                   else if 5 * 10 ^ (k - 1) <=? r then 1
                   else if r =? 0 then 0 else -1) =? 0) = b
            ↔ up || negb (r =? 0) = b) as Hch.
  { intros b. rewrite <- Eup'. clear Eup'.
    assert (0 < 5 * 10 ^ (k - 1)) by (pose proof (pow10_pos (k - 1) ltac:(lia)); lia).
    destruct (Z.eqb_spec r (5 * 10 ^ (k - 1))) as [Hh|Hh]; simpl.
    - destruct (Z.even q); simpl.
      + destruct (Z.eqb_spec r 0); [lia|done].
      + destruct (Z.leb_spec (5 * 10 ^ (k - 1)) r); [done|lia].
    - destruct (Z.leb_spec (5 * 10 ^ (k - 1)) r); simpl; [done|].
      by destruct (Z.eqb_spec r 0). }
  clear Eup'.
  unfold _fix. rewrite Ec.
  destruct (Z.eqb_spec c 0); [lia|].
  unfold Etiny, Etop in *; cbn [prec Emax Emin DefaultContext] in *.
  replace (ndigits c + d_exp d - 28) with (d_exp d + k) by lia.
  destruct (Z.ltb_spec (999999 - 28 + 1) (d_exp d + k)); [lia|].
  destruct (Z.ltb_spec (d_exp d + k) (-999999 - 28 + 1)); [lia|].
  destruct (Z.ltb_spec (d_exp d) (d_exp d + k)); [|lia].
  replace (ndigits c + d_exp d - (d_exp d + k)) with 28 by lia.
  change (28 <? 0) with false. cbv iota beta.
  unfold _round_half_even. rewrite Ek, Eq, Er.
  set (changed := if (r =? 5 * 10 ^ (k - 1)) && Z.even q then -1
                  else if 5 * 10 ^ (k - 1) <=? r then 1
                  else if r =? 0 then 0 else -1) in *.
  pose proof (proj2 (Hup up) eq_refl) as Hgt.
  pose proof (proj2 (Hch _) eq_refl) as Hne.
  clear Hup Hch. rewrite Hgt, Hne, <- ER. clear Hgt Hne changed.
  rewrite andb_false_r. destruct up; cbv iota; cbn [orb].
  - (* rounded away from zero, with or without a carry *)
    destruct (Z.eqb_spec (q + 1) (10 ^ 28)) as [Hcarry|Hcarry].
    + rewrite Hcarry. change (ndigits (10 ^ 28)) with 29.
      change (28 <? 29) with true. cbv iota.
      change (10 ^ 28 / 10) with (10 ^ 27). cbn [d_int].
      destruct (Z.ltb_spec (999999 - 28 + 1) (d_exp d + k + 1)); [reflexivity|].
      change (10 ^ 27 =? 0) with false. reflexivity.
    + pose proof (ndigits_le (q + 1) 28 ltac:(lia) ltac:(lia)).
      destruct (Z.ltb_spec 28 (ndigits (q + 1))); [lia|]. cbn [d_int].
      destruct (Z.ltb_spec (999999 - 28 + 1) (d_exp d + k)); [lia|].
      destruct (Z.eqb_spec (q + 1) 0); [lia|]. reflexivity.
  - (* truncated *)
    destruct (Z.eqb_spec q (10 ^ 28)); [lia|]. cbn [d_int].
    destruct (Z.ltb_spec (999999 - 28 + 1) (d_exp d + k)); [lia|].
    destruct (Z.eqb_spec q 0); [lia|].
    destruct (r =? 0); reflexivity.
Qed.

(** The same when also the exponent after a carry is in range. *)
Lemma _fix_rounds (d : Decimal) (fl : Flags) :
  let c := d_int d in
  let k := ndigits c - 28 in
  let q := c / 10 ^ k in
  let r := c mod 10 ^ k in
  let up := negb ((r =? 5 * 10 ^ (k - 1)) && Z.even q) && (5 * 10 ^ (k - 1) <=? r) in
  let R := if up then q + 1 else q in
  10 ^ 28 <= c →
  Etiny <= d_exp d + k → d_exp d + k + 1 <= Etop →
  _fix d fl =
    (Return (if R =? 10 ^ 28
             then {| d_sign := d_sign d; d_int := 10 ^ 27; d_exp := d_exp d + k + 1 |}
             else {| d_sign := d_sign d; d_int := R; d_exp := d_exp d + k |}),
     set_flag Rounded (if up || negb (r =? 0) then set_flag Inexact fl else fl)).
Proof.
  cbv zeta. intros Hc Hlo Hhi.
  pose proof (_fix_rounds_carry d fl) as Hfix. cbv zeta in Hfix.
  rewrite Hfix by (try done; lia). clear Hfix.
  destruct (Z.ltb_spec Etop (d_exp d + (ndigits (d_int d) - 28) + 1)) as [Hlt|_];
    [lia|].
  by rewrite andb_false_r.
Qed.

(** Half-even rounding of [q * K + r], of which the next digit to the right
    (of weight [P], [rem] of it, with the sticky unit [sticky] of
    [__truediv__] added to the coefficient) is known: the rounded number
    is within half a unit [K * P] of the number rounded. *)
Lemma half_even_accurate (q r K m P rem sticky : Z) (up : bool) :
  K = 10 * m → 0 < m → 0 <= r < K → 0 < P → 0 <= rem < P →
  (rem = 0 → sticky = 0) →
  (rem ≠ 0 → sticky = if (q * K + r - sticky) mod 5 =? 0 then 1 else 0) →
  up = negb ((r =? 5 * m) && Z.even q) && (5 * m <=? r) →
  2 * Z.abs ((if up then q + 1 else q) * K * P - ((q * K + r - sticky) * P + rem))
  <= K * P.
Proof.
  intros HK Hm Hr HP Hrem Hs0 Hs1 Hup.
  assert (sticky = 0 ∨ sticky = 1) as Hst.
  { destruct (Z.eq_dec rem 0) as [H0|H0]; [left; auto|].
    rewrite (Hs1 H0). destruct (_ =? 0); auto. }
  assert (rem ≠ 0 → r ≠ 0 ∧ r ≠ 5 * m) as Hsticky.
  { intros H0. specialize (Hs1 H0).
    assert ((q * K + r - sticky) mod 5 = (r - sticky) mod 5) as Hmod.
    { replace (q * K + r - sticky) with (r - sticky + (q * (2 * m)) * 5) by lia.
      apply Z_mod_plus_full. }
    rewrite Hmod in Hs1.
    destruct (Z.eqb_spec ((r - sticky) mod 5) 0) as [Hz|Hz]; subst sticky.
    - split; intros ->.
      + replace (0 - 1) with (4 + (-1) * 5) in Hz by lia.
        rewrite Z_mod_plus_full in Hz. done.
      + replace (5 * m - 1) with (4 + (m - 1) * 5) in Hz by lia.
        rewrite Z_mod_plus_full in Hz. done.
    - split; intros ->.
      + by rewrite Z.sub_0_r in Hz.
      + replace (5 * m - 0) with (0 + m * 5) in Hz by lia.
        rewrite Z_mod_plus_full in Hz. done. }
  assert (up = true → 5 * m <= r) as Hup1.
  { intros ->. symmetry in Hup. apply andb_true_iff in Hup as [_ Hle]. lia. }
  assert (up = false → r <= 5 * m) as Hup0.
  { intros ->. symmetry in Hup. apply andb_false_iff in Hup as [Hn|Hn].
    - apply negb_false_iff, andb_true_iff in Hn as [Hn _]. lia.
    - lia. }
  clear Hup Hs1.
  destruct (Z.eq_dec rem 0) as [H0|H0].
  - rewrite (Hs0 H0), H0. destruct up.
    + specialize (Hup1 eq_refl).
      replace ((q + 1) * K * P - ((q * K + r - 0) * P + 0)) with ((K - r) * P) by lia.
      rewrite Z.abs_eq by nia. nia.
    + specialize (Hup0 eq_refl).
      replace (q * K * P - ((q * K + r - 0) * P + 0)) with (- (r * P)) by lia.
      rewrite Z.abs_opp, Z.abs_eq by nia. nia.
  - destruct (Hsticky H0) as [Hr0 Hrh]. destruct up.
    + specialize (Hup1 eq_refl).
      replace ((q + 1) * K * P - ((q * K + r - sticky) * P + rem))
        with ((K - r + sticky) * P - rem) by lia.
      assert (1 <= K - r + sticky <= 5 * m) as Hx by lia.
      assert (P <= (K - r + sticky) * P <= 5 * m * P) as Hxp by nia.
      rewrite Z.abs_eq by lia. nia.
    + specialize (Hup0 eq_refl).
      replace (q * K * P - ((q * K + r - sticky) * P + rem))
        with (- ((r - sticky) * P + rem)) by lia.
      assert (0 <= r - sticky <= 5 * m - 1) as Hx by lia.
      assert (0 <= (r - sticky) * P <= (5 * m - 1) * P) as Hxp by nia.
      rewrite Z.abs_opp, Z.abs_eq by lia. nia.
Qed.

Lemma flag_set_flag (sig : signal) (fl : Flags) : flag sig (set_flag sig fl) = true.
Proof. by destruct fl, sig. Qed.

(** [_fix] on the coefficient [__truediv__] hands over: [T] is the exact
    quotient in units of [10^-27], of which the coefficient holds all but
    the last [s] digits, with the sticky unit. The result has 28 digits
    and is within half a unit in the last place of [T]. *)
Lemma _fix_accurate (d : Decimal) (fl : Flags) (s rem sticky T : Z) :
  10 ^ 28 <= d_int d → d_exp d = s - 27 → 0 <= s →
  ndigits (d_int d) + s <= 1000026 →
  0 <= rem < 10 ^ s →
  T = (d_int d - sticky) * 10 ^ s + rem →
  (rem = 0 → sticky = 0) →
  (rem ≠ 0 → sticky = if (d_int d - sticky) mod 5 =? 0 then 1 else 0) →
  ∃ d' fl',
    _fix d fl = (Return d', fl')
    ∧ d_sign d' = d_sign d
    ∧ 10 ^ 27 <= d_int d' < 10 ^ 28
    ∧ -27 < d_exp d'
    ∧ 2 * Z.abs (d_int d' * 10 ^ (d_exp d' + 27) - T) <= 10 ^ (d_exp d' + 27)
    ∧ flag Rounded fl' = true.
Proof.
  intros Hc He Hs HL Hrem HT Hs0 Hs1.
  assert (0 < d_int d) as Hpos by (pose proof (pow10_pos 28); lia).
  destruct (ndigits_spec _ Hpos) as [HL1 HL2].
  assert (29 <= ndigits (d_int d)) as HL29.
  { destruct (Z.le_gt_cases 29 (ndigits (d_int d))) as [|Hlt]; [done|].
    assert (10 ^ ndigits (d_int d) <= 10 ^ 28) by (apply Z.pow_le_mono_r; lia). lia. }
  pose proof (_fix_rounds d fl) as Hfix. cbv zeta in Hfix.
  remember (d_int d) as c eqn:Ec.
  remember (ndigits c - 28) as k eqn:Ek.
  remember (c / 10 ^ k) as q eqn:Eq.
  remember (c mod 10 ^ k) as r eqn:Er.
  remember (negb ((r =? 5 * 10 ^ (k - 1)) && Z.even q) && (5 * 10 ^ (k - 1) <=? r))
    as up eqn:Eup.
  assert (1 <= k) as Hk by lia.
  rewrite Hfix by (unfold Etiny, Etop; cbn [prec Emax Emin DefaultContext]; lia). clear Hfix.
  pose proof (pow10_pos k ltac:(lia)) as HK.
  pose proof (pow10_pos (k - 1) ltac:(lia)) as Hm.
  pose proof (pow10_pos s Hs) as HP.
  assert (10 ^ k = 10 * 10 ^ (k - 1)) as HKm.
  { rewrite <- Z.pow_succ_r by lia. f_equal. lia. }
  assert (c = q * 10 ^ k + r) as Hdm.
  { rewrite Eq, Er. pose proof (Z.div_mod c (10 ^ k) ltac:(lia)). lia. }
  assert (0 <= r < 10 ^ k) as Hr by (rewrite Er; apply Z.mod_pos_bound; lia).
  assert (10 ^ ndigits c = 10 ^ 28 * 10 ^ k) as Hsplit.
  { rewrite <- Z.pow_add_r by lia. f_equal. lia. }
  assert (10 ^ (ndigits c - 1) = 10 ^ 27 * 10 ^ k) as Hsplit'.
  { rewrite <- Z.pow_add_r by lia. f_equal. lia. }
  assert (10 ^ 27 <= q < 10 ^ 28) as Hq.
  { rewrite Eq. split.
    - apply Z.div_le_lower_bound; lia.
    - apply Z.div_lt_upper_bound; lia. }
  pose proof (half_even_accurate q r (10 ^ k) (10 ^ (k - 1)) (10 ^ s) rem sticky up
                HKm Hm Hr HP Hrem Hs0) as Hacc.
  rewrite <- Hdm in Hacc. specialize (Hacc Hs1 Eup). rewrite <- HT in Hacc.
  clear Eup Hs1 Hs0.
  set (R := if up then q + 1 else q) in *.
  assert (10 ^ 27 <= R <= 10 ^ 28) as HR by (unfold R; destruct up; lia).
  eexists _, _. split; [reflexivity|].
  destruct (Z.eqb_spec R (10 ^ 28)) as [Hcarry|Hcarry]; cbn [d_sign d_int d_exp].
  - split; [done|]. split; [lia|]. split; [lia|]. split; [|apply flag_set_flag].
    replace (d_exp d + k + 1 + 27) with (Z.succ (k + s)) by lia.
    rewrite Z.pow_succ_r, Z.pow_add_r by lia.
    replace (10 ^ 27 * (10 * (10 ^ k * 10 ^ s))) with (R * 10 ^ k * 10 ^ s)
      by (rewrite Hcarry; lia).
    nia.
  - split; [done|]. split; [lia|]. split; [lia|]. split; [|apply flag_set_flag].
    replace (d_exp d + k + 27) with (k + s) by lia.
    rewrite Z.pow_add_r by lia.
    replace (R * (10 ^ k * 10 ^ s)) with (R * 10 ^ k * 10 ^ s) by lia.
    done.
Qed.

(** [Decimal(n) / Decimal("1e27")] for an integer of more than 28 digits
    (and at most 1000026, which keeps the quotient in range): the
    quotient is rounded to 28 significant digits, to within half a unit in
    the last place, and [Rounded] is set. *)
Lemma truediv_1e27_rounded (n : Z) (fl : Flags) :
  10 ^ 28 <= Z.abs n → ndigits (Z.abs n) <= 1000026 →
  ∃ d fl',
    Decimal_truediv (Decimal_of_int n) Decimal_1e27 fl = (Return d, fl')
    ∧ d_sign d = (n <? 0)
    ∧ 10 ^ 27 <= d_int d < 10 ^ 28
    ∧ -27 < d_exp d
    ∧ 2 * Z.abs (d_int d * 10 ^ (d_exp d + 27) - Z.abs n) <= 10 ^ (d_exp d + 27)
    ∧ flag Rounded fl' = true.
Proof.
  intros Hc HL. remember (Z.abs n) as c eqn:Ec.
  assert (0 < c) as Hpos by (pose proof (pow10_pos 28); lia).
  destruct (ndigits_spec c Hpos) as [HL1 HL2].
  assert (29 <= ndigits c) as HL29.
  { destruct (Z.le_gt_cases 29 (ndigits c)) as [|Hlt]; [done|].
    assert (10 ^ ndigits c <= 10 ^ 28) by (apply Z.pow_le_mono_r; lia). lia. }
  unfold Decimal_truediv.
  cbn [d_int d_exp d_sign Decimal_of_int Decimal_1e27]. rewrite <- Ec.
  rewrite xorb_false_r.
  change (1 =? 0) with false. cbv iota.
  destruct (Z.eqb_spec c 0); [lia|].
  change (ndigits 1) with 1. cbn [prec DefaultContext].
  destruct (Z.leb_spec 0 (1 - ndigits c + 28 + 1)) as [Hshift|Hshift].
  - (* at most 30 digits: the division by 1 is exact *)
    rewrite Z.div_1_r, Z.mod_1_r. cbn [negb Z.eqb].
    replace (0 - 27 - (0 - 27 - (1 - ndigits c + 28 + 1)))
      with (1 - ndigits c + 28 + 1) by lia.
    replace (10 ^ (1 - ndigits c + 28 + 1))
      with (10 ^ Z.of_nat (Z.to_nat (1 - ndigits c + 28 + 1)))
      by (rewrite Z2Nat.id; lia).
    rewrite to_ideal_exp_zeros, Z2Nat.id by lia.
    replace (0 - 27 - (1 - ndigits c + 28 + 1) + (1 - ndigits c + 28 + 1))
      with (-27) by lia.
    destruct (_fix_accurate {| d_sign := n <? 0; d_int := c; d_exp := -27 |}
                fl 0 0 0 c) as (d & fl' & Hfix & Hsign & Hrest);
      cbn [d_int d_exp]; try done; try lia.
    exists d, fl'. by rewrite Hfix.
  - (* more than 30 digits: 30 of them are kept for the rounding *)
    remember (- (1 - ndigits c + 28 + 1)) as s eqn:Es.
    assert (1 <= s) as Hs by lia.
    pose proof (pow10_pos s ltac:(lia)) as HP.
    rewrite Z.mul_1_l.
    remember (c / 10 ^ s) as c0 eqn:Ec0.
    remember (c mod 10 ^ s) as rem eqn:Erem.
    assert (c = c0 * 10 ^ s + rem) as Hdm.
    { rewrite Ec0, Erem. pose proof (Z.div_mod c (10 ^ s) ltac:(lia)). lia. }
    assert (0 <= rem < 10 ^ s) as Hrem by (rewrite Erem; apply Z.mod_pos_bound; lia).
    assert (10 ^ ndigits c = 10 ^ 30 * 10 ^ s) as Hsplit.
    { rewrite <- Z.pow_add_r by lia. f_equal. lia. }
    assert (10 ^ (ndigits c - 1) = 10 ^ 29 * 10 ^ s) as Hsplit'.
    { rewrite <- Z.pow_add_r by lia. f_equal. lia. }
    assert (10 ^ 29 <= c0 < 10 ^ 30) as Hc0.
    { rewrite Ec0. split.
      - apply Z.div_le_lower_bound; lia.
      - apply Z.div_lt_upper_bound; lia. }
    clear Ec0 Erem HL1 HL2 Hsplit Hsplit'.
    replace (0 - 27 - (1 - ndigits c + 28 + 1)) with (s - 27) by lia.
    destruct (Z.eqb_spec rem 0) as [Hz|Hnz]; cbn [negb].
    + replace (Z.to_nat (0 - 27 - (s - 27))) with 0%nat by lia.
      cbn [to_ideal_exp].
      destruct (_fix_accurate {| d_sign := n <? 0; d_int := c0; d_exp := s - 27 |}
                  fl s rem 0 c) as (d & fl' & Hfix & Hsign & Hrest);
        cbn [d_int d_exp]; try done; try lia.
      { rewrite (ndigits_unique c0 30 ltac:(lia) Hc0). clear - HL Es. lia. }
      exists d, fl'. by rewrite Hfix.
    + set (sticky := if c0 mod 5 =? 0 then 1 else 0).
      replace (if c0 mod 5 =? 0 then c0 + 1 else c0) with (c0 + sticky)
        by (unfold sticky; destruct (c0 mod 5 =? 0); lia).
      assert (10 ^ 29 <= c0 + sticky < 10 ^ 30) as Hc1.
      { unfold sticky. clear - Hc0.
        destruct (Z.eqb_spec (c0 mod 5) 0) as [Hm|Hm]; [|lia].
        assert (c0 ≠ 10 ^ 30 - 1) by (intros ->; vm_compute in Hm; discriminate Hm).
        lia. }
      destruct (_fix_accurate
                  {| d_sign := n <? 0; d_int := c0 + sticky; d_exp := s - 27 |}
                  fl s rem sticky c) as (d & fl' & Hfix & Hsign & Hrest);
        cbn [d_int d_exp]; try done; try lia.
      { rewrite (ndigits_unique (c0 + sticky) 30 ltac:(lia) Hc1). clear - HL Es. lia. }
      { intros _. by replace (c0 + sticky - sticky) with c0 by lia. }
      exists d, fl'. by rewrite Hfix.
Qed.

(** ** The quotient by [10^27] in closed form *)

Lemma digits_over_28 (c : Z) :
  10 ^ 28 <= c →
  1 <= ndigits c - 28
  ∧ 10 ^ 27 <= c / 10 ^ (ndigits c - 28) < 10 ^ 28
  ∧ 10 ^ 27 * 10 ^ (ndigits c - 28) = 10 ^ (ndigits c - 1)
  ∧ 10 ^ 28 * 10 ^ (ndigits c - 28) = 10 ^ ndigits c.
Proof.
  intros Hc.
  assert (0 < c) as Hpos by (pose proof (pow10_pos 28); lia).
  destruct (ndigits_spec c Hpos) as [HL1 HL2].
  assert (29 <= ndigits c) as HL.
  { destruct (Z.le_gt_cases 29 (ndigits c)) as [|Hlt]; [done|].
    assert (10 ^ ndigits c <= 10 ^ 28) by (apply Z.pow_le_mono_r; lia). lia. }
  remember (ndigits c - 28) as k eqn:Ek.
  pose proof (pow10_pos k ltac:(lia)) as Hpk.
  assert (10 ^ 28 * 10 ^ k = 10 ^ ndigits c) as Hsplit.
  { rewrite <- Z.pow_add_r by lia. f_equal. lia. }
  assert (10 ^ 27 * 10 ^ k = 10 ^ (ndigits c - 1)) as Hsplit'.
  { rewrite <- Z.pow_add_r by lia. f_equal. lia. }
  split; [lia|]. split; [|done]. split.
  - apply Z.div_le_lower_bound; lia.
  - apply Z.div_lt_upper_bound; lia.
Qed.

(** Rounding in two steps, as [__truediv__] and [_fix] do it, is rounding
    in one: the 30 digits [c0] of the quotient, with one added when the
    rest [rem] of the division is not zero and [c0] is a multiple of 5,
    round at their last two digits as [c0 * P + rem] rounds at its last
    [100 * P]. *)
Lemma two_step_rounding (c0 P rem : Z) :
  0 <= c0 → 0 < P → 0 <= rem < P →
  let sticky := if negb (rem =? 0) && (c0 mod 5 =? 0) then 1 else 0 in
  let c := c0 * P + rem in
  (c0 + sticky) / 100 = c / (100 * P)
  ∧ ((c0 + sticky) mod 100 = 0 ↔ c mod (100 * P) = 0)
  ∧ ((c0 + sticky) mod 100 = 50 ↔ c mod (100 * P) = 50 * P)
  ∧ (50 <= (c0 + sticky) mod 100 ↔ 50 * P <= c mod (100 * P)).
Proof.
  intros Hc0 HP Hrem sticky c.
  pose proof (Z.div_mod c0 100 ltac:(lia)) as Hdm.
  pose proof (Z.mod_pos_bound c0 100 ltac:(lia)) as Hr0.
  remember (c0 / 100) as q0 eqn:Eq0. remember (c0 mod 100) as r0 eqn:Er0.
  assert (c0 mod 5 = r0 mod 5) as Hm5.
  { rewrite Hdm. replace (100 * q0 + r0) with (r0 + (20 * q0) * 5) by lia.
    apply Z_mod_plus_full. }
  pose proof (Z.div_mod r0 5 ltac:(lia)) as Hdm5.
  pose proof (Z.mod_pos_bound r0 5 ltac:(lia)) as Hr5.
  assert (0 <= sticky <= 1 ∧ (sticky = 1 → rem ≠ 0 ∧ r0 mod 5 = 0)
          ∧ (sticky = 0 → rem = 0 ∨ r0 mod 5 ≠ 0)) as (Hs & Hs1 & Hs0).
  { unfold sticky. rewrite Hm5.
    destruct (Z.eqb_spec rem 0), (Z.eqb_spec (r0 mod 5) 0); cbn; lia. }
  clearbody sticky.
  assert (0 <= r0 + sticky < 100) as Hr' by lia.
  assert ((c0 + sticky) / 100 = q0 ∧ (c0 + sticky) mod 100 = r0 + sticky) as [Hq' Hm'].
  { symmetry in Hdm.
    assert (c0 + sticky = 100 * q0 + (r0 + sticky)) as E by lia.
    split; [symmetry; apply (Z.div_unique_pos _ _ q0 (r0 + sticky)); lia
           |symmetry; apply (Z.mod_unique_pos _ _ q0 (r0 + sticky)); lia]. }
  assert (0 <= r0 * P + rem < 100 * P) as Hr by nia.
  assert (c / (100 * P) = q0 ∧ c mod (100 * P) = r0 * P + rem) as [Hq Hm].
  { assert (c = (100 * P) * q0 + (r0 * P + rem)) as E by (unfold c; nia).
    split; [symmetry; apply (Z.div_unique_pos _ _ q0 (r0 * P + rem)); lia
           |symmetry; apply (Z.mod_unique_pos _ _ q0 (r0 * P + rem)); lia]. }
  rewrite Hq', Hm', Hq, Hm. split; [done|].
  remember (r0 * P) as X eqn:EX.
  assert ((r0 = 0 → X = 0) ∧ (1 <= r0 → P <= X) ∧ (r0 <= 49 → X <= 49 * P)
          ∧ (r0 = 50 → X = 50 * P) ∧ (50 <= r0 → 50 * P <= X)
          ∧ (51 <= r0 → 51 * P <= X)) as (H0 & H1 & H49 & H50 & H50' & H51).
  { subst X. repeat split; intros; nia. }
  clear EX Hq Hm Hq' Hm' Hdm Hr c Hm5 Hc0.
  destruct (Z.eq_dec sticky 0) as [E0|E1].
  - destruct (Hs0 E0) as [Hz|Hz]; subst sticky; rewrite Z.add_0_r.
    + subst rem. rewrite Z.add_0_r.
      destruct (Z.eq_dec r0 0); [|destruct (Z.le_gt_cases r0 49);
        [|destruct (Z.eq_dec r0 50)]]; repeat split; intros; lia.
    + destruct (Z.eq_dec r0 0); [|destruct (Z.le_gt_cases r0 49);
        [|destruct (Z.eq_dec r0 50)]]; repeat split; intros; lia.
  - assert (sticky = 1) as E by lia. destruct (Hs1 E) as [Hz Hz5]. subst sticky.
    destruct (Z.eq_dec r0 0); [|destruct (Z.le_gt_cases r0 49);
      [|destruct (Z.eq_dec r0 50)]]; repeat split; intros; lia.
Qed.

Lemma round_half_even_two_steps (c0 s rem : Z) :
  0 <= c0 → 0 <= s → 0 <= rem < 10 ^ s →
  let sticky := if negb (rem =? 0) && (c0 mod 5 =? 0) then 1 else 0 in
  round_half_even (c0 + sticky) 2 = round_half_even (c0 * 10 ^ s + rem) (s + 2)
  ∧ ((c0 + sticky) mod 10 ^ 2 =? 0) = ((c0 * 10 ^ s + rem) mod 10 ^ (s + 2) =? 0).
Proof.
  intros Hc0 Hs Hrem sticky.
  pose proof (pow10_pos s Hs) as HP.
  destruct (two_step_rounding c0 (10 ^ s) rem Hc0 HP Hrem) as (Hq & Hz & Hh & Hu).
  fold sticky in Hq, Hz, Hh, Hu. clearbody sticky.
  unfold round_half_even.
  replace (10 ^ (s + 2)) with (100 * 10 ^ s)
    by (rewrite Z.pow_add_r by lia; change (10 ^ 2) with 100; lia).
  replace (s + 2 - 1) with (s + 1) by lia.
  replace (5 * 10 ^ (s + 1)) with (50 * 10 ^ s)
    by (rewrite Z.pow_add_r by lia; change (10 ^ 1) with 10; lia).
  change (10 ^ 2) with 100. change (5 * 10 ^ (2 - 1)) with 50.
  rewrite Hq.
  remember ((c0 + sticky) mod 100) as r' eqn:Er'.
  remember ((c0 * 10 ^ s + rem) mod (100 * 10 ^ s)) as r eqn:Er.
  remember (10 ^ s) as P eqn:EP.
  clear Er' Er Hq EP.
  assert ((r' =? 50) = (r =? 50 * P)) as ->.
  { destruct (Z.eqb_spec r' 50), (Z.eqb_spec r (50 * P)); tauto. }
  assert ((50 <=? r') = (50 * P <=? r)) as ->.
  { destruct (Z.leb_spec 50 r'), (Z.leb_spec (50 * P) r); lia. }
  split; [done|].
  destruct (Z.eqb_spec r' 0), (Z.eqb_spec r 0); tauto.
Qed.

(** Half-even rounding gives the nearest multiple, and the even one of two
    that are as near. *)
Lemma round_half_even_nearest (c k : Z) :
  0 <= c → 1 <= k →
  let R := round_half_even c k in
  c / 10 ^ k <= R <= c / 10 ^ k + 1
  ∧ 2 * Z.abs (R * 10 ^ k - c) <= 10 ^ k
  ∧ (2 * Z.abs (R * 10 ^ k - c) = 10 ^ k → Z.even R = true)
  ∧ (R * 10 ^ k = c ↔ c mod 10 ^ k = 0).
Proof.
  intros Hc Hk R. unfold round_half_even in R.
  pose proof (pow10_pos k ltac:(lia)) as HK.
  pose proof (pow10_pos (k - 1) ltac:(lia)) as Hm.
  assert (10 ^ k = 10 * 10 ^ (k - 1)) as HKm.
  { rewrite <- Z.pow_succ_r by lia. f_equal. lia. }
  pose proof (Z.div_mod c (10 ^ k) ltac:(lia)) as Hdm.
  pose proof (Z.mod_pos_bound c (10 ^ k) ltac:(lia)) as Hr.
  remember (c / 10 ^ k) as q eqn:Eq. remember (c mod 10 ^ k) as r eqn:Er.
  remember (10 ^ k) as K eqn:EK. remember (10 ^ (k - 1)) as m eqn:Em.
  clear Eq Er EK Em. subst K.
  assert (R * (10 * m) - c = (R - q) * (10 * m) - r) as HE by lia.
  rewrite HE. clear HE.
  subst R.
  destruct (Z.eqb_spec r (5 * m)) as [Hh|Hh]; cbn [andb negb].
  - destruct (Z.even q) eqn:He; cbn [andb negb].
    + replace (q - q) with 0 by lia. cbn [Z.mul]. rewrite Z.sub_0_l, Z.abs_opp, Z.abs_eq by lia.
      repeat split; try lia. by intros _.
    + destruct (Z.leb_spec (5 * m) r); [|lia].
      replace (q + 1 - q) with 1 by lia. rewrite Z.mul_1_l, Z.abs_eq by lia.
      repeat split; try lia.
      intros _. rewrite Z.even_add, He. done.
  - destruct (Z.leb_spec (5 * m) r).
    + replace (q + 1 - q) with 1 by lia. rewrite Z.mul_1_l, Z.abs_eq by lia.
      repeat split; lia.
    + replace (q - q) with 0 by lia. cbn [Z.mul]. rewrite Z.sub_0_l, Z.abs_opp, Z.abs_eq by lia.
      repeat split; lia.
Qed.

(** The value of [of_units], in units of [10^-27]. *)
Lemma of_units_value (sign : bool) (R k : Z) :
  0 <= k →
  let d := of_units sign R k in
  d_sign d = sign ∧ -27 <= d_exp d ∧ d_int d * 10 ^ (d_exp d + 27) = R * 10 ^ k
  ∧ (10 ^ 27 <= R <= 10 ^ 28 → 10 ^ 27 <= d_int d < 10 ^ 28).
Proof.
  intros Hk d. unfold of_units in d. subst d.
  destruct (Z.eqb_spec R (10 ^ 28)) as [->|Hne]; cbn [d_sign d_int d_exp].
  - replace (k + 1 - 27 + 27) with (Z.succ k) by lia. rewrite Z.pow_succ_r by lia.
    repeat split; lia.
  - replace (k - 27 + 27) with k by lia. repeat split; lia.
Qed.

(** [_fix] on a coefficient of more than 28 digits, in terms of
    [round_half_even]: half-even rounding at the 28th digit, [Rounded]
    set, and [Inexact] when a digit dropped is not zero; or an overflow,
    when the rounding carries out of the exponent range. *)
Lemma _fix_half_even_carry (d : Decimal) (fl : Flags) (k : Z) :
  k = ndigits (d_int d) - 28 →
  10 ^ 28 <= d_int d → Etiny <= d_exp d + k → d_exp d + k <= Etop →
  _fix d fl =
    if (round_half_even (d_int d) k =? 10 ^ 28) && (Etop <? d_exp d + k + 1) then
      (Raise (DecimalException Overflow),
       set_flag Overflow (set_flag Rounded (set_flag Inexact fl)))
    else
      (Return (of_units (d_sign d) (round_half_even (d_int d) k) (d_exp d + k + 27)),
       set_flag Rounded (if d_int d mod 10 ^ k =? 0 then fl else set_flag Inexact fl)).
Proof.
  intros -> Hc Hlo Hhi.
  pose proof (_fix_rounds_carry d fl) as Hfix. cbv zeta in Hfix.
  rewrite Hfix by done. clear Hfix.
  unfold of_units, round_half_even.
  remember (ndigits (d_int d) - 28) as k eqn:Ek.
  match goal with |- (if ?b then _ else _) = _ => destruct b end; [reflexivity|].
  assert (0 < d_int d) as Hpos by (pose proof (pow10_pos 28); lia).
  assert (1 <= k) as Hk.
  { destruct (ndigits_spec _ Hpos) as [_ HL2].
    destruct (Z.le_gt_cases 29 (ndigits (d_int d))) as [|Hlt]; [lia|].
    assert (10 ^ ndigits (d_int d) <= 10 ^ 28) by (apply Z.pow_le_mono_r; lia). lia. }
  pose proof (pow10_pos (k - 1) ltac:(lia)) as Hm.
  replace (d_exp d + k + 27 + 1 - 27) with (d_exp d + k + 1) by lia.
  replace (d_exp d + k + 27 - 27) with (d_exp d + k) by lia.
  f_equal. f_equal.
  remember (d_int d mod 10 ^ k) as r eqn:Er.
  destruct (Z.eqb_spec r 0) as [Hz|Hnz]; cbn [negb]; [|by rewrite orb_true_r].
  destruct (Z.leb_spec (5 * 10 ^ (k - 1)) r); [lia|]. by rewrite andb_false_r.
Qed.

(** [Decimal(n) / Decimal("1e27")] for an integer of 29 to 1000027
    digits, in closed form: [n] rounded half-even at its 28th digit,
    unless an integer of 1000027 digits is rounded to [10^1000027]. *)
Lemma truediv_1e27_carry (n : Z) (fl : Flags) (k : Z) :
  k = ndigits (Z.abs n) - 28 →
  10 ^ 28 <= Z.abs n → ndigits (Z.abs n) <= 1000027 →
  Decimal_truediv (Decimal_of_int n) Decimal_1e27 fl =
    if (round_half_even (Z.abs n) k =? 10 ^ 28) && (999998 <? k) then
      (Raise (DecimalException Overflow),
       set_flag Overflow (set_flag Rounded (set_flag Inexact fl)))
    else
      (Return (of_units (n <? 0) (round_half_even (Z.abs n) k) k),
       set_flag Rounded (if Z.abs n mod 10 ^ k =? 0 then fl else set_flag Inexact fl)).
Proof.
  intros Ek Hc HL. remember (Z.abs n) as c eqn:Ec.
  assert (0 < c) as Hpos by (pose proof (pow10_pos 28); lia).
  destruct (ndigits_spec c Hpos) as [HL1 HL2].
  assert (29 <= ndigits c) as HL29.
  { destruct (Z.le_gt_cases 29 (ndigits c)) as [|Hlt]; [done|].
    assert (10 ^ ndigits c <= 10 ^ 28) by (apply Z.pow_le_mono_r; lia). lia. }
  assert (∀ d k',
            k' = ndigits (d_int d) - 28 → 10 ^ 28 <= d_int d →
            d_exp d + k' + 27 = k →
            d_sign d = (n <? 0) →
            round_half_even (d_int d) k' = round_half_even c k →
            (d_int d mod 10 ^ k' =? 0) = (c mod 10 ^ k =? 0) →
            _fix d fl =
              if (round_half_even c k =? 10 ^ 28) && (999998 <? k) then
                (Raise (DecimalException Overflow),
                 set_flag Overflow (set_flag Rounded (set_flag Inexact fl)))
              else
                (Return (of_units (n <? 0) (round_half_even c k) k),
                 set_flag Rounded
                   (if c mod 10 ^ k =? 0 then fl else set_flag Inexact fl))) as Hfix.
  { intros d k' Ek' Hd He Hs Hround Hzero.
    rewrite (_fix_half_even_carry d fl k' Ek' Hd);
      [|unfold Etiny; cbn [prec Emax Emin DefaultContext]; lia
       |unfold Etop; cbn [prec Emax Emin DefaultContext]; lia].
    rewrite Hround, Hzero, Hs.
    replace (d_exp d + k' + 27) with k by lia.
    unfold Etop; cbn [prec Emax Emin DefaultContext].
    replace (999999 - 28 + 1 <? d_exp d + k' + 1) with (999998 <? k); [done|].
    destruct (Z.ltb_spec 999998 k), (Z.ltb_spec (999999 - 28 + 1) (d_exp d + k' + 1));
      try done; lia. }
  unfold Decimal_truediv.
  cbn [d_int d_exp d_sign Decimal_of_int Decimal_1e27]. rewrite <- Ec.
  rewrite xorb_false_r.
  change (1 =? 0) with false. cbv iota.
  destruct (Z.eqb_spec c 0); [lia|].
  change (ndigits 1) with 1. cbn [prec DefaultContext].
  destruct (Z.leb_spec 0 (1 - ndigits c + 28 + 1)) as [Hshift|Hshift].
  - rewrite Z.div_1_r, Z.mod_1_r. cbn [negb Z.eqb].
    replace (0 - 27 - (0 - 27 - (1 - ndigits c + 28 + 1)))
      with (1 - ndigits c + 28 + 1) by lia.
    replace (10 ^ (1 - ndigits c + 28 + 1))
      with (10 ^ Z.of_nat (Z.to_nat (1 - ndigits c + 28 + 1)))
      by (rewrite Z2Nat.id; lia).
    rewrite to_ideal_exp_zeros, Z2Nat.id by lia.
    replace (0 - 27 - (1 - ndigits c + 28 + 1) + (1 - ndigits c + 28 + 1))
      with (-27) by lia.
    apply (Hfix _ k); cbn [d_int d_exp d_sign]; try done; lia.
  - remember (- (1 - ndigits c + 28 + 1)) as s eqn:Es.
    assert (1 <= s) as Hs by lia.
    pose proof (pow10_pos s ltac:(lia)) as HP.
    rewrite Z.mul_1_l.
    assert (k = s + 2) as Eks by lia.
    remember (c / 10 ^ s) as c0 eqn:Ec0.
    remember (c mod 10 ^ s) as rem eqn:Erem.
    assert (c = c0 * 10 ^ s + rem) as Hdm.
    { rewrite Ec0, Erem. pose proof (Z.div_mod c (10 ^ s) ltac:(lia)). lia. }
    assert (0 <= rem < 10 ^ s) as Hrem by (rewrite Erem; apply Z.mod_pos_bound; lia).
    assert (10 ^ ndigits c = 10 ^ 30 * 10 ^ s) as Hsplit.
    { rewrite <- Z.pow_add_r by lia. f_equal. lia. }
    assert (10 ^ (ndigits c - 1) = 10 ^ 29 * 10 ^ s) as Hsplit'.
    { rewrite <- Z.pow_add_r by lia. f_equal. lia. }
    assert (10 ^ 29 <= c0 < 10 ^ 30) as Hc0.
    { rewrite Ec0. split.
      - apply Z.div_le_lower_bound; lia.
      - apply Z.div_lt_upper_bound; lia. }
    clear Ec0 Erem HL1 HL2 Hsplit Hsplit'.
    replace (0 - 27 - (1 - ndigits c + 28 + 1)) with (s - 27) by lia.
    destruct (round_half_even_two_steps c0 s rem ltac:(lia) ltac:(lia) Hrem)
      as [Hround Hzero].
    rewrite <- Hdm, <- Eks in Hround, Hzero.
    set (sticky := if negb (rem =? 0) && (c0 mod 5 =? 0) then 1 else 0) in *.
    assert (10 ^ 29 <= c0 + sticky < 10 ^ 30) as Hc1.
    { unfold sticky. clear - Hc0.
      destruct (negb (rem =? 0)); cbn [andb]; [|lia].
      destruct (Z.eqb_spec (c0 mod 5) 0) as [Hm|Hm]; [|lia].
      assert (c0 ≠ 10 ^ 30 - 1) by (intros ->; vm_compute in Hm; discriminate Hm).
      lia. }
    pose proof (ndigits_unique (c0 + sticky) 30 ltac:(lia) Hc1) as HL30.
    pose proof (Hfix {| d_sign := n <? 0; d_int := c0 + sticky; d_exp := s - 27 |} 2)
      as Hfix'.
    cbn [d_int d_exp d_sign] in Hfix'.
    specialize (Hfix' ltac:(lia) ltac:(lia) ltac:(lia) eq_refl Hround Hzero).
    rewrite <- Hfix'. clear Hfix' Hfix.
    destruct (Z.eqb_spec rem 0) as [Hz|Hnz]; cbn [negb].
    + replace (Z.to_nat (0 - 27 - (s - 27))) with 0%nat by lia.
      cbn [to_ideal_exp]. unfold sticky.
      destruct (Z.eqb_spec rem 0); [|done]. cbn [negb andb]. by rewrite Z.add_0_r.
    + unfold sticky.
      destruct (Z.eqb_spec rem 0); [done|]. cbn [negb andb].
      destruct (c0 mod 5 =? 0); [done|]. by rewrite Z.add_0_r.
Qed.

Lemma overflow_bound_carry : overflow_bound = carry_bound 999999.
Proof. unfold overflow_bound, carry_bound. reflexivity. Qed.

Opaque overflow_bound.


Lemma carry_bound_between (k : Z) :
  1 <= k → 10 ^ (k + 27) < carry_bound k < 10 ^ (k + 28).
Proof.
  intros Hk. unfold carry_bound.
  pose proof (pow10_pos (k - 1) ltac:(lia)) as Hm.
  replace (k + 27) with (28 + (k - 1)) by lia.
  replace (k + 28) with (29 + (k - 1)) by lia.
  rewrite !Z.pow_add_r by lia. lia.
Qed.

(** A coefficient of [k + 28] digits rounds to [10^28] units exactly from
    [carry_bound k] on. *)
Lemma round_half_even_carry (c k : Z) :
  1 <= k → 10 ^ (k + 27) <= c < 10 ^ (k + 28) →
  round_half_even c k = 10 ^ 28 ↔ carry_bound k <= c.
Proof.
  intros Hk. unfold carry_bound, round_half_even.
  pose proof (pow10_pos (k - 1) ltac:(lia)) as Hm.
  replace (k + 27) with (28 + (k - 1)) by lia.
  replace (k + 28) with (29 + (k - 1)) by lia.
  replace (10 ^ k) with (10 * 10 ^ (k - 1))
    by (rewrite <- Z.pow_succ_r by lia; f_equal; lia).
  rewrite !Z.pow_add_r by lia.
  remember (10 ^ (k - 1)) as m eqn:Em. clear Em. intros Hc.
  pose proof (Z.div_mod c (10 * m) ltac:(lia)) as Hdm.
  pose proof (Z.mod_pos_bound c (10 * m) ltac:(lia)) as Hr.
  remember (c / (10 * m)) as q eqn:Eq. remember (c mod (10 * m)) as r eqn:Er.
  clear Eq Er.
  remember (q * m) as X eqn:EX.
  assert (c = 10 * X + r) as Hc' by lia. clear Hdm.
  assert ((q <= 10 ^ 28 - 2 → X <= (10 ^ 28 - 2) * m)
          ∧ (10 ^ 28 <= q → 10 ^ 28 * m <= X)
          ∧ (q = 10 ^ 28 - 1 → X = (10 ^ 28 - 1) * m)
          ∧ (q <= 10 ^ 27 - 1 → X <= (10 ^ 27 - 1) * m)) as (H1 & H2 & H3 & H4).
  { subst X. repeat split; intros; nia. }
  clear EX.
  assert (10 ^ 27 <= q < 10 ^ 28) as Hq.
  { split.
    - destruct (Z.le_gt_cases (10 ^ 27) q) as [|Hlt]; [done|]. specialize (H4 ltac:(lia)). lia.
    - destruct (Z.le_gt_cases (10 ^ 28) q) as [Hge|]; [|done]. specialize (H2 Hge). lia. }
  destruct (Z.eq_dec q (10 ^ 28 - 1)) as [->|Hne].
  - specialize (H3 eq_refl). change (Z.even (10 ^ 28 - 1)) with false.
    rewrite andb_false_r. cbn [negb andb].
    destruct (Z.leb_spec (5 * m) r); split; intros; lia.
  - specialize (H1 ltac:(lia)).
    destruct (negb ((r =? 5 * m) && Z.even q) && (5 * m <=? r)); split; intros; lia.
Qed.

Lemma below_overflow_bound (c : Z) :
  0 < c → ndigits c <= 1000026 → c < overflow_bound.
Proof.
  intros Hpos HL.
  assert (ndigits c <= 999999 + 27) as HL' by lia.
  assert (1 <= 999999) as Hk by lia.
  destruct (ndigits_spec c Hpos) as [_ Hhi].
  rewrite overflow_bound_carry.
  eapply Z.lt_trans; [|exact (proj1 (carry_bound_between 999999 Hk))].
  eapply Z.lt_le_trans; [exact Hhi|].
  apply Z.pow_le_mono_r; [reflexivity|exact HL'].
Qed.

Lemma above_overflow_bound (c : Z) :
  0 < c → 1000028 <= ndigits c → overflow_bound <= c.
Proof.
  intros Hpos HL.
  assert (999999 + 28 <= ndigits c - 1) as HL' by lia.
  assert (1 <= 999999) as Hk by lia.
  destruct (ndigits_spec c Hpos) as [Hlo _].
  rewrite overflow_bound_carry.
  apply Z.lt_le_incl.
  eapply Z.lt_le_trans; [exact (proj2 (carry_bound_between 999999 Hk))|].
  eapply Z.le_trans; [|exact Hlo].
  apply Z.pow_le_mono_r; [reflexivity|exact HL'].
Qed.

Lemma overflow_bound_large : 10 ^ 28 < overflow_bound.
Proof.
  assert (1 <= 999999) as Hk by lia.
  assert (28 <= 999999 + 27) as Hle by lia.
  rewrite overflow_bound_carry.
  eapply Z.le_lt_trans; [|exact (proj1 (carry_bound_between 999999 Hk))].
  apply Z.pow_le_mono_r; [reflexivity|exact Hle].
Qed.

(** [Decimal(n) / Decimal("1e27")] for an integer of 1000028 digits or
    more: the quotient is above the largest number of the context, and
    the trapped [Overflow] is raised. *)
Lemma truediv_1e27_overflow (n : Z) (fl : Flags) :
  1000028 <= ndigits (Z.abs n) →
  Decimal_truediv (Decimal_of_int n) Decimal_1e27 fl
  = (Raise (DecimalException Overflow),
     set_flag Overflow (set_flag Rounded (set_flag Inexact fl))).
Proof.
  intros HL. remember (Z.abs n) as c eqn:Ec.
  assert (0 < c) as Hpos.
  { destruct (Z.eq_dec c 0) as [Hz|]; [|lia].
    rewrite Hz in HL. vm_compute in HL. by destruct HL. }
  destruct (ndigits_spec c Hpos) as [HL1 HL2].
  unfold Decimal_truediv.
  cbn [d_int d_exp d_sign Decimal_of_int Decimal_1e27]. rewrite <- Ec.
  rewrite xorb_false_r.
  change (1 =? 0) with false. cbv iota.
  destruct (Z.eqb_spec c 0); [lia|].
  change (ndigits 1) with 1. cbn [prec DefaultContext].
  destruct (Z.leb_spec 0 (1 - ndigits c + 28 + 1)) as [Hshift|Hshift]; [lia|].
  remember (- (1 - ndigits c + 28 + 1)) as s eqn:Es.
  assert (1 <= s) as Hs by lia.
  pose proof (pow10_pos s ltac:(lia)) as HP.
  rewrite Z.mul_1_l.
  remember (c / 10 ^ s) as c0 eqn:Ec0.
  remember (c mod 10 ^ s) as rem eqn:Erem.
  assert (10 ^ ndigits c = 10 ^ 30 * 10 ^ s) as Hsplit.
  { rewrite <- Z.pow_add_r by lia. f_equal. lia. }
  assert (10 ^ (ndigits c - 1) = 10 ^ 29 * 10 ^ s) as Hsplit'.
  { rewrite <- Z.pow_add_r by lia. f_equal. lia. }
  assert (10 ^ 29 <= c0 < 10 ^ 30) as Hc0.
  { rewrite Ec0. split.
    - apply Z.div_le_lower_bound; lia.
    - apply Z.div_lt_upper_bound; lia. }
  clear Ec0 Erem HL1 HL2 Hsplit Hsplit'.
  replace (0 - 27 - (1 - ndigits c + 28 + 1)) with (s - 27) by lia.
  assert (∀ c1, 10 ^ 29 <= c1 < 10 ^ 30 →
            _fix {| d_sign := n <? 0; d_int := c1; d_exp := s - 27 |} fl
            = (Raise (DecimalException Overflow),
               set_flag Overflow (set_flag Rounded (set_flag Inexact fl)))) as Hfix.
  { intros c1 Hc1. unfold _fix. cbn [d_int d_exp d_sign].
    destruct (Z.eqb_spec c1 0) as [Hz|_].
    { exfalso. clear - Hc1 Hz. rewrite Hz in Hc1. vm_compute in Hc1.
      destruct Hc1 as [Hc1 _]. by apply Hc1. }
    rewrite (ndigits_unique c1 30 ltac:(lia) Hc1).
    unfold Etop; cbn [prec Emax DefaultContext].
    destruct (Z.ltb_spec (999999 - 28 + 1) (30 + (s - 27) - 28)) as [_|Hle];
      [done|]. clear - HL Es Hle. lia. }
  destruct (Z.eqb_spec rem 0) as [Hz|Hnz]; cbn [negb].
  - replace (Z.to_nat (0 - 27 - (s - 27))) with 0%nat by lia.
    cbn [to_ideal_exp]. by apply Hfix.
  - apply Hfix. clear - Hc0.
    destruct (Z.eqb_spec (c0 mod 5) 0) as [Hm|Hm]; [|lia].
    assert (c0 ≠ 10 ^ 30 - 1) by (intros ->; vm_compute in Hm; discriminate Hm).
    lia.
Qed.

(** Up to 1000026 digits no carry leaves the exponent range: the
    quotient is [n] rounded half-even at its 28th digit. *)
Lemma truediv_1e27_half_even (n : Z) (fl : Flags) (k : Z) :
  k = ndigits (Z.abs n) - 28 →
  10 ^ 28 <= Z.abs n → ndigits (Z.abs n) <= 1000026 →
  Decimal_truediv (Decimal_of_int n) Decimal_1e27 fl =
    (Return (of_units (n <? 0) (round_half_even (Z.abs n) k) k),
     set_flag Rounded (if Z.abs n mod 10 ^ k =? 0 then fl else set_flag Inexact fl)).
Proof.
  intros Ek Hc HL.
  rewrite (truediv_1e27_carry n fl k Ek Hc) by lia.
  destruct (Z.ltb_spec 999998 k); [lia|]. by rewrite andb_false_r.
Qed.

(** Below [overflow_bound] the quotient is [n] rounded half-even at its
    28th digit. *)
Lemma truediv_1e27_below_bound (n : Z) (fl : Flags) (k : Z) :
  k = ndigits (Z.abs n) - 28 →
  10 ^ 28 <= Z.abs n → Z.abs n < overflow_bound →
  Decimal_truediv (Decimal_of_int n) Decimal_1e27 fl =
    (Return (of_units (n <? 0) (round_half_even (Z.abs n) k) k),
     set_flag Rounded (if Z.abs n mod 10 ^ k =? 0 then fl else set_flag Inexact fl)).
Proof.
  intros Ek Hc Hlt.
  assert (0 < Z.abs n) as Hpos by (pose proof (pow10_pos 28); lia).
  assert (ndigits (Z.abs n) <= 1000027) as HL.
  { destruct (Z.le_gt_cases (ndigits (Z.abs n)) 1000027) as [|Hgt]; [done|].
    pose proof (above_overflow_bound _ Hpos ltac:(lia)). lia. }
  rewrite (truediv_1e27_carry n fl k Ek Hc HL).
  destruct (Z.ltb_spec 999998 k) as [Hk|]; [|by rewrite andb_false_r].
  assert (overflow_bound = carry_bound k) as Eb.
  { assert (k = 999999) as E by lia. rewrite E. exact overflow_bound_carry. }
  destruct (ndigits_spec _ Hpos) as [Hlo Hhi].
  replace (ndigits (Z.abs n) - 1) with (k + 27) in Hlo by lia.
  replace (ndigits (Z.abs n)) with (k + 28) in Hhi by lia.
  pose proof (round_half_even_carry (Z.abs n) k ltac:(lia) (conj Hlo Hhi)) as Hcarry.
  rewrite <- Eb in Hcarry.
  destruct (Z.eqb_spec (round_half_even (Z.abs n) k) (10 ^ 28)) as [E|_]; [|done].
  apply Hcarry in E. lia.
Qed.

(** From [overflow_bound] on the quotient overflows. *)
Lemma truediv_1e27_above_bound (n : Z) (fl : Flags) :
  overflow_bound <= Z.abs n →
  Decimal_truediv (Decimal_of_int n) Decimal_1e27 fl
  = (Raise (DecimalException Overflow),
     set_flag Overflow (set_flag Rounded (set_flag Inexact fl))).
Proof.
  intros Hge. pose proof overflow_bound_large as Hlarge.
  assert (10 ^ 28 <= Z.abs n) as Hc by lia.
  assert (0 < Z.abs n) as Hpos by (pose proof (pow10_pos 28); lia).
  destruct (Z.le_gt_cases 1000028 (ndigits (Z.abs n))) as [HL|HL];
    [by apply truediv_1e27_overflow|].
  assert (1000027 <= ndigits (Z.abs n)) as HL'.
  { destruct (Z.le_gt_cases 1000027 (ndigits (Z.abs n))) as [|Hlt]; [done|].
    pose proof (below_overflow_bound _ Hpos ltac:(lia)). lia. }
  remember (ndigits (Z.abs n) - 28) as k eqn:Ek.
  rewrite (truediv_1e27_carry n fl k Ek Hc) by lia.
  assert (overflow_bound = carry_bound k) as Eb.
  { assert (k = 999999) as E by lia. rewrite E. exact overflow_bound_carry. }
  destruct (ndigits_spec _ Hpos) as [Hlo Hhi].
  replace (ndigits (Z.abs n) - 1) with (k + 27) in Hlo by lia.
  replace (ndigits (Z.abs n)) with (k + 28) in Hhi by lia.
  pose proof (round_half_even_carry (Z.abs n) k ltac:(lia) (conj Hlo Hhi)) as Hcarry.
  rewrite <- Eb in Hcarry.
  rewrite (proj2 Hcarry Hge), Z.eqb_refl.
  destruct (Z.ltb_spec 999998 k); [done|lia].
Qed.

(** Below [overflow_bound] an integer of more than 28 digits gives a
    quotient of 28 digits, within half a unit in the last place. *)
Lemma truediv_1e27_rounded_below (n : Z) (fl : Flags) :
  10 ^ 28 <= Z.abs n → Z.abs n < overflow_bound →
  ∃ d fl',
    Decimal_truediv (Decimal_of_int n) Decimal_1e27 fl = (Return d, fl')
    ∧ d_sign d = (n <? 0)
    ∧ 10 ^ 27 <= d_int d < 10 ^ 28
    ∧ -27 < d_exp d
    ∧ 2 * Z.abs (d_int d * 10 ^ (d_exp d + 27) - Z.abs n) <= 10 ^ (d_exp d + 27)
    ∧ flag Rounded fl' = true.
Proof.
  intros Hc Hlt.
  destruct (digits_over_28 _ Hc) as (Hk & Hq & _).
  remember (ndigits (Z.abs n) - 28) as k eqn:Ek.
  rewrite (truediv_1e27_below_bound n fl k Ek Hc Hlt).
  destruct (round_half_even_nearest (Z.abs n) k ltac:(lia) Hk) as (HR & Hnear & _).
  remember (round_half_even (Z.abs n) k) as R eqn:ER.
  destruct (of_units_value (n <? 0) R k ltac:(lia)) as (Hs & He & Hv & Hd).
  eexists _, _. split; [reflexivity|]. split; [done|]. split; [apply Hd; lia|].
  pose proof (pow10_pos k ltac:(lia)) as HK.
  split; [|split; [|apply flag_set_flag]].
  - unfold of_units. destruct (R =? 10 ^ 28); cbn [d_exp]; lia.
  - rewrite Hv. eapply Z.le_trans; [exact Hnear|].
    apply Z.pow_le_mono_r; [lia|].
    unfold of_units. destruct (R =? 10 ^ 28); cbn [d_exp]; lia.
Qed.

(** ** The parser of [int(value, 16)] *)

Lemma digit_value_nonneg (ch : Z) : 0 <= _PyLong_DigitValue ch.
Proof.
  unfold _PyLong_DigitValue.
  repeat match goal with
         | |- context [if ?b then _ else _] => destruct b eqn:?
         end; lia.
Qed.

Lemma skip_spaces_elem (s : str) (ch : Z) :
  ch ∈ s → Py_ISSPACE ch = false → ch ∈ skip_spaces s.
Proof.
  intros Hin Hsp. induction s as [|c s IH]; [done|]. simpl.
  destruct (Py_ISSPACE c) eqn:Hc; [|done].
  apply IH. apply elem_of_cons in Hin as [->|]; [congruence|done].
Qed.

Lemma skip_spaces_nil (s : str) (ch : Z) :
  skip_spaces s = [] → ch ∈ s → Py_ISSPACE ch = true.
Proof.
  induction s as [|c s IH]; intros Hs Hin; [by apply elem_of_nil in Hin|].
  simpl in Hs. destruct (Py_ISSPACE c) eqn:Hc; [|done].
  apply elem_of_cons in Hin as [->|]; [done|by apply IH].
Qed.

Lemma skip_spaces_subset (s : str) (ch : Z) : ch ∈ skip_spaces s → ch ∈ s.
Proof.
  induction s as [|c s IH]; [done|]. simpl.
  destruct (Py_ISSPACE c); [|done]. intros. apply elem_of_cons. right. by apply IH.
Qed.

(** The scan yields a non-negative number and stops in front of the first
    character that is neither a digit nor an underscore. *)
Lemma long_from_binary_base_scan (prev acc : Z) (p : str) (z : Z) (rest : str) :
  long_from_binary_base 16 prev acc p = Some (z, rest) → 0 <= acc →
  0 <= z ∧ ∀ ch, ch ∈ p → ch ≠ 95 → 16 <= _PyLong_DigitValue ch → ch ∈ rest.
Proof.
  revert prev acc. induction p as [|c p IH]; intros prev acc Hs Hacc; simpl in Hs.
  - destruct (prev =? 95); [done|]. injection Hs as <- <-. split; [done|].
    intros ch Hin. by apply elem_of_nil in Hin.
  - destruct (Z.eqb_spec c 95) as [->|Hc].
    + destruct (prev =? 95); [done|].
      destruct (IH _ _ Hs Hacc) as [Hz Hin]. split; [done|].
      intros ch Hch Hne Hd. apply elem_of_cons in Hch as [->|Hch]; [done|by apply Hin].
    + destruct (Z.ltb_spec (_PyLong_DigitValue c) 16) as [Hd|Hd].
      * pose proof (digit_value_nonneg c).
        destruct (IH _ _ Hs ltac:(lia)) as [Hz Hin]. split; [done|].
        intros ch Hch Hne Hd'. apply elem_of_cons in Hch as [->|Hch]; [lia|by apply Hin].
      * destruct (prev =? 95); [done|]. injection Hs as <- <-. done.
Qed.

Lemma parse_sign_cases (s : str) (sign : Z) (s' : str) :
  parse_sign s = (sign, s') →
  (sign = 1 ∧ s = s') ∨ (sign = 1 ∧ s = 43 :: s') ∨ (sign = -1 ∧ s = 45 :: s').
Proof.
  unfold parse_sign. destruct s as [|ch s0]; [intros [= <- <-]; by left|].
  destruct (Z.eqb_spec ch 43) as [->|]; [intros [= <- <-]; right; by left|].
  destruct (Z.eqb_spec ch 45) as [->|]; intros [= <- <-]; [right; by right|by left].
Qed.

Lemma skip_prefix16_elem (s : str) (ch : Z) :
  ch ∈ s → ch ≠ 48 → ch ≠ 120 → ch ≠ 88 → ch ≠ 95 → ch ∈ skip_prefix16 s.
Proof.
  intros Hin H0 Hx HX Hu. unfold skip_prefix16.
  destruct s as [|c0 [|c1 s']]; [done..|].
  destruct (Z.eqb_spec c0 48) as [->|]; [|done]. simpl.
  destruct ((c1 =? 120) || (c1 =? 88)) eqn:Hc1; [|done].
  apply orb_true_iff in Hc1.
  rewrite !elem_of_cons in Hin. destruct Hin as [?|[->|Hin]]; [done|lia|].
  destruct s' as [|c2 s'']; [done|].
  destruct (Z.eqb_spec c2 95) as [->|]; [|done].
  apply elem_of_cons in Hin as [?|?]; done.
Qed.

(** What an accepted buffer looks like: a character that is neither white
    space, nor a sign, a digit, an underscore or the [x] of the prefix can
    only be the minus sign in front, and then the number is not positive;
    and a negative number has a minus sign. *)
Lemma PyLong_FromString16_sign (t : str) (n : Z) :
  PyLong_FromString16 t = Some n →
  (n < 0 → 45 ∈ t) ∧
  (∀ ch, ch ∈ t → Py_ISSPACE ch = false → ch ≠ 43 → ch ≠ 95 → ch ≠ 120 →
         ch ≠ 88 → 16 <= _PyLong_DigitValue ch → ch = 45 ∧ n <= 0).
Proof.
  unfold PyLong_FromString16.
  destruct (parse_sign (skip_spaces t)) as [sign s2] eqn:Hsign.
  destruct (bool_decide (head (skip_prefix16 s2) = Some 95)); [done|].
  destruct (long_from_binary_base 16 0 0 (skip_prefix16 s2)) as [[z rest]|] eqn:Hscan;
    [|done].
  destruct (length rest =? length (skip_prefix16 s2))%nat; [done|].
  destruct (skip_spaces rest) eqn:Hrest; [|done]. intros [= <-].
  destruct (long_from_binary_base_scan _ _ _ _ _ Hscan ltac:(lia)) as [Hz Hstray].
  assert (∀ ch, ch ∈ s2 → Py_ISSPACE ch = false → ch ≠ 95 → ch ≠ 120 →
                ch ≠ 88 → 16 <= _PyLong_DigitValue ch → False) as Hs2.
  { intros ch Hin Hsp Hu Hx HX Hd.
    assert (ch ≠ 48) by (intros ->; vm_compute in Hd; done).
    pose proof (skip_prefix16_elem _ _ Hin ltac:(done) Hx HX Hu) as Hin3.
    pose proof (Hstray _ Hin3 Hu Hd) as Hin4.
    pose proof (skip_spaces_nil _ _ Hrest Hin4). congruence. }
  destruct (parse_sign_cases _ _ _ Hsign) as [[-> Hs]|[[-> Hs]|[-> Hs]]].
  - split; [lia|]. intros ch Hin Hsp Hp Hu Hx HX Hd. exfalso.
    apply (Hs2 ch); try done. rewrite <- Hs. by apply skip_spaces_elem.
  - split; [lia|]. intros ch Hin Hsp Hp Hu Hx HX Hd. exfalso.
    pose proof (skip_spaces_elem _ _ Hin Hsp) as Hin1. rewrite Hs in Hin1.
    apply elem_of_cons in Hin1 as [?|Hin1]; [done|]. by apply (Hs2 ch).
  - split.
    + intros _. apply skip_spaces_subset. rewrite Hs. apply elem_of_cons. by left.
    + intros ch Hin Hsp Hp Hu Hx HX Hd.
      pose proof (skip_spaces_elem _ _ Hin Hsp) as Hin1. rewrite Hs in Hin1.
      apply elem_of_cons in Hin1 as [->|Hin1]; [split; lia|].
      exfalso. by apply (Hs2 ch).
Qed.

Lemma todecimal_range `{UnicodeData} (ch d : Z) :
  Py_UNICODE_TODECIMAL ch = Some d → 0 <= d <= 9.
Proof.
  unfold Py_UNICODE_TODECIMAL, is_ascii_digit.
  destruct (ch <? 256); [|apply ucd_todecimal_range].
  destruct (Z.leb_spec 48 ch), (Z.leb_spec ch 57); simpl; intros [= <-]; lia.
Qed.

Lemma transform_to_ascii_minus `{UnicodeData} (s : str) :
  45 ∈ transform_to_ascii s → 45 ∈ s.
Proof.
  induction s as [|ch s IH]; [done|]. simpl. rewrite elem_of_cons.
  destruct (ch <? 127).
  { rewrite elem_of_cons. tauto. }
  destruct (Py_UNICODE_ISSPACE ch).
  { rewrite elem_of_cons. intros [?|?]; [done|tauto]. }
  destruct (Py_UNICODE_TODECIMAL ch) as [d|] eqn:Hd.
  - apply todecimal_range in Hd. rewrite elem_of_cons. intros [?|?]; [lia|tauto].
  - rewrite elem_of_cons. intros [?|Hn]; [done|by apply elem_of_nil in Hn].
Qed.

Lemma transform_to_ascii_keeps `{UnicodeData} (s : str) (ch : Z) :
  ch ∈ s → ch < 127 → ch ∈ transform_to_ascii s ∨ 63 ∈ transform_to_ascii s.
Proof.
  intros Hin Hch. induction s as [|c s IH]; [by apply elem_of_nil in Hin|].
  simpl. apply elem_of_cons in Hin.
  destruct (Z.ltb_spec c 127).
  { rewrite !elem_of_cons. destruct Hin as [->|Hin]; [tauto|]. destruct (IH Hin); tauto. }
  destruct Hin as [->|Hin]; [lia|].
  destruct (Py_UNICODE_ISSPACE c).
  { rewrite !elem_of_cons. destruct (IH Hin); tauto. }
  destruct (Py_UNICODE_TODECIMAL c).
  - rewrite !elem_of_cons. destruct (IH Hin); tauto.
  - right. apply elem_of_cons. by left.
Qed.

(** A negative [int(h, 16)] comes from a string with a minus sign. *)
Lemma int16_negative_has_minus `{UnicodeData} (h : str) (n : Z) :
  int16 h = Some n → n < 0 → 45 ∈ h.
Proof.
  unfold int16, _PyUnicode_TransformDecimalAndSpaceToASCII. intros Hp Hn.
  apply PyLong_FromString16_sign in Hp as [Hm _]. specialize (Hm Hn).
  destruct (forallb _ h); [done|by apply transform_to_ascii_minus].
Qed.

(** An accepted string with a minus sign is not a positive number. *)
Lemma int16_minus_nonpos `{UnicodeData} (h : str) (n : Z) :
  int16 h = Some n → 45 ∈ h → n <= 0.
Proof.
  unfold int16, _PyUnicode_TransformDecimalAndSpaceToASCII. intros Hp Hin.
  apply PyLong_FromString16_sign in Hp as [_ Hs].
  assert (45 ∈ (if forallb (λ ch, ch <? 128) h then h else transform_to_ascii h)
          ∨ 63 ∈ (if forallb (λ ch, ch <? 128) h then h else transform_to_ascii h))
    as [Hc|Hc].
  { destruct (forallb _ h); [by left|]. apply transform_to_ascii_keeps; [done|lia]. }
  - by destruct (Hs 45 Hc) as [_ ?].
  - by destruct (Hs 63 Hc) as [? _].
Qed.

Lemma is_hex_digit_facts (ch : Z) :
  is_hex_digit ch = true →
  _PyLong_DigitValue ch < 16 ∧ ch ≠ 95 ∧ ch < 128 ∧ Py_ISSPACE ch = false
  ∧ ch ≠ 43 ∧ ch ≠ 45 ∧ ch ≠ 120 ∧ ch ≠ 88.
Proof.
  unfold is_hex_digit. rewrite !orb_true_iff, !andb_true_iff, !Z.leb_le.
  intros Hr. unfold _PyLong_DigitValue, Py_ISSPACE.
  repeat match goal with
         | |- context [Z.leb ?a ?b] => destruct (Z.leb_spec a b); simpl; try lia
         | |- context [Z.eqb ?a ?b] => destruct (Z.eqb_spec a b); simpl; try lia
         end;
    repeat split; (done || lia).
Qed.

Lemma long_from_binary_base_hex (prev acc : Z) (s : str) :
  forallb is_hex_digit s = true → prev ≠ 95 →
  long_from_binary_base 16 prev acc s
  = Some (foldl (λ acc ch, acc * 16 + _PyLong_DigitValue ch) acc s, []).
Proof.
  revert prev acc. induction s as [|c s IH]; intros prev acc Hs Hprev; simpl.
  - by destruct (Z.eqb_spec prev 95).
  - simpl in Hs. apply andb_true_iff in Hs as [Hc Hs].
    apply is_hex_digit_facts in Hc as (Hd & Hu & _).
    destruct (Z.eqb_spec c 95); [done|].
    destruct (Z.ltb_spec (_PyLong_DigitValue c) 16); [|lia].
    by apply IH.
Qed.

(** A non-empty string of plain base-16 digits is accepted, with the value
    it writes. *)
Lemma int16_plain_hex `{UnicodeData} (h : str) :
  h ≠ [] → forallb is_hex_digit h = true → int16 h = Some (hex_value h).
Proof.
  intros Hne Hh. unfold int16, _PyUnicode_TransformDecimalAndSpaceToASCII.
  assert (forallb (λ ch, ch <? 128) h = true) as ->.
  { apply forallb_forall. intros ch Hin.
    rewrite forallb_forall in Hh. apply Hh, is_hex_digit_facts in Hin. lia. }
  destruct h as [|c h]; [done|].
  pose proof Hh as Hh'. simpl in Hh'. apply andb_true_iff in Hh' as [Hc Hrest].
  pose proof (is_hex_digit_facts c Hc) as (Hd & Hu & _ & Hsp & Hp & Hm & Hx & HX).
  unfold PyLong_FromString16. simpl skip_spaces. rewrite Hsp.
  unfold parse_sign.
  destruct (Z.eqb_spec c 43); [done|]. destruct (Z.eqb_spec c 45); [done|].
  assert (skip_prefix16 (c :: h) = c :: h) as ->.
  { unfold skip_prefix16. destruct h as [|c1 h']; [done|].
    simpl in Hrest. apply andb_true_iff in Hrest as [Hc1 _].
    apply is_hex_digit_facts in Hc1 as (_ & _ & _ & _ & _ & _ & Hx1 & HX1).
    destruct (Z.eqb_spec c1 120); [done|]. destruct (Z.eqb_spec c1 88); [done|].
    by rewrite andb_false_r. }
  rewrite bool_decide_eq_false_2 by (simpl; congruence).
  rewrite (long_from_binary_base_hex 0 0 (c :: h) Hh) by done.
  simpl. f_equal. unfold hex_value. simpl. lia.
Qed.

(** ** Computations that only set flags *)

Lemma set_flags_app (s1 s2 : list signal) (fl : Flags) :
  set_flags (s1 ++ s2) fl = set_flags s2 (set_flags s1 fl).
Proof. apply foldl_app. Qed.



Lemma writes_only_ret {A} (a : A) : writes_only (ret a).
Proof. by exists (Return a), []. Qed.

Lemma writes_only_raise {A} (e : exn) : writes_only (@raise A e).
Proof. by exists (Raise e), []. Qed.

Lemma writes_only_raise_error (sig : signal) : writes_only (_raise_error sig).
Proof.
  unfold _raise_error. destruct (traps sig).
  - by exists (Raise (DecimalException sig)), [sig].
  - by exists (Return ()), [sig].
Qed.

Lemma writes_only_bind {A B} (m : M A) (k : A → M B) :
  writes_only m → (∀ a, writes_only (k a)) → writes_only (bind m k).
Proof.
  intros (r & s1 & Hm) Hk. destruct r as [a|e].
  - destruct (Hk a) as (r2 & s2 & Hka). exists r2, (s1 ++ s2). intros fl.
    unfold bind. by rewrite Hm, Hka, set_flags_app.
  - exists (Raise e), s1. intros fl. unfold bind. by rewrite Hm.
Qed.


Ltac writes_only_step :=
  first
    [ apply writes_only_ret
    | apply writes_only_raise
    | apply writes_only_raise_error
    | apply writes_only_bind; [|intros ?]
    | match goal with
      | |- writes_only (if ?b then _ else _) => destruct b
      | |- writes_only (match ?x with _ => _ end) => destruct x
      end ].

Lemma writes_only_fix `{Context} (d : Decimal) : writes_only (_fix d).
Proof. unfold _fix. repeat writes_only_step. Qed.

Lemma writes_only_truediv `{Context} (self other : Decimal) :
  writes_only (Decimal_truediv self other).
Proof.
  unfold Decimal_truediv.
  destruct (d_int other =? 0); [repeat writes_only_step|].
  match goal with |- writes_only (let '(_, _) := ?p in _) => destruct p end.
  apply writes_only_fix.
Qed.





(** ** Fields whose validators leave the context alone *)

Lemma collects_pure {A} (a : A) (fl : Flags) : collects (pure a) fl [].
Proof. exists (Some a). split; [done|]. split; done. Qed.

Lemma collects_ap {A B} (f : fields (A → B)) (x : fields A) fl errs1 errs2 :
  collects f fl errs1 → collects x fl errs2 → collects (ap f x) fl (errs1 ++ errs2).
Proof.
  intros (og & Hf & Hog) (ox & Hx & Hox). unfold collects, ap. rewrite Hf, Hx.
  eexists. split; [done|].
  revert Hog Hox. destruct og, ox, errs1, errs2; simpl; intuition congruence.
Qed.

Lemma collects_field {A} (name : string) (val : str → M A) (raw : raw_mapping) fl :
  (∀ v, raw !! name = Some v →
        val v fl = ((val v no_flags).1, fl) ∧
        ∀ sig, (val v no_flags).1 ≠ Raise (DecimalException sig)) →
  collects (field name val raw) fl (field_errors name val raw).
Proof.
  intros Hv. unfold collects, field, field_errors, field_result.
  destruct (raw !! name) as [v|];
    [|cbn [snd]; eexists; split; [done|]; clear; intuition congruence].
  destruct (Hv v eq_refl) as [-> Hne]. clear Hv.
  destruct ((val v no_flags).1) as [a|[m|sig]]; simpl.
  - eexists; split; [done|]; clear; intuition congruence.
  - eexists; split; [done|]; clear; intuition congruence.
  - by destruct (Hne sig).
Qed.

Lemma validate_model_collects {A} (v : fields A) fl errs :
  collects v fl errs →
  ∃ o, validate_model v fl = (o, fl) ∧
       match o with
       | Constructed _ => errs = []
       | ValidationError errs' => errs' = errs ∧ errs ≠ []
       | Propagated _ => False
       end.
Proof.
  intros (o & Hv & Ho). unfold validate_model. rewrite Hv.
  revert Ho.
  destruct o as [a|], errs as [|err errs]; eexists; (split; [done|]);
    intuition congruence.
Qed.

(** ** The validators of [serializers.py] *)

Lemma writes_only_int_base16 `{UnicodeData} (v : str) : writes_only (int_base16 v).
Proof. unfold int_base16. repeat writes_only_step. Qed.

Lemma writes_only_hex_to_decimal `{UnicodeData} `{Context} (v : str) :
  writes_only (DataAccumulatorsSyncEvent.hex_to_decimal v).
Proof.
  unfold DataAccumulatorsSyncEvent.hex_to_decimal.
  apply writes_only_bind; [apply writes_only_int_base16|intros n].
  apply writes_only_truediv.
Qed.









(** The validators of [LiquidationEventData] neither read nor write the
    context, and raise nothing but [ValueError]. *)
Lemma validate_valid_addresses_pure `{CanonicalWidth} (name : string) (v : str) (fl : Flags) :
  LiquidationEventData.validate_valid_addresses name v fl =
    ((LiquidationEventData.validate_valid_addresses name v no_flags).1, fl)
  ∧ ∀ sig, (LiquidationEventData.validate_valid_addresses name v no_flags).1
           ≠ Raise (DecimalException sig).
Proof.
  unfold LiquidationEventData.validate_valid_addresses.
  destruct (startswith v (lit "0x")); simpl; split; done.
Qed.

Lemma validate_valid_numbers_pure `{UnicodeData} (name : string) (v : str) (fl : Flags) :
  LiquidationEventData.validate_valid_numbers name v fl =
    ((LiquidationEventData.validate_valid_numbers name v no_flags).1, fl)
  ∧ ∀ sig, (LiquidationEventData.validate_valid_numbers name v no_flags).1
           ≠ Raise (DecimalException sig).
Proof.
  unfold LiquidationEventData.validate_valid_numbers, try_except_ValueError,
    bind, int_base16.
  destruct (int16 v); simpl; split; done.
Qed.

Lemma validate_addresses_pure `{CanonicalWidth} (v : str) (fl : Flags) :
  WithdrawalEventData.validate_addresses v fl =
    ((WithdrawalEventData.validate_addresses v no_flags).1, fl)
  ∧ ∀ sig, (WithdrawalEventData.validate_addresses v no_flags).1
           ≠ Raise (DecimalException sig).
Proof.
  unfold WithdrawalEventData.validate_addresses.
  destruct (startswith v (lit "0x")); simpl; split; done.
Qed.

Lemma liquidation_collects `{UnicodeData} `{CanonicalWidth} (raw : raw_mapping) (fl : Flags) :
  collects
    (pure LiquidationEventData.Build_t
     <*> field "liquidator" (LiquidationEventData.validate_valid_addresses "liquidator") raw
     <*> field "user" (LiquidationEventData.validate_valid_addresses "user") raw
     <*> field "debt_token" (LiquidationEventData.validate_valid_addresses "debt_token") raw
     <*> field "debt_raw_amount" (LiquidationEventData.validate_valid_numbers "debt_raw_amount") raw
     <*> field "debt_face_amount" (LiquidationEventData.validate_valid_numbers "debt_face_amount") raw
     <*> field "collateral_token" (LiquidationEventData.validate_valid_addresses "collateral_token") raw
     <*> field "collateral_amount" (LiquidationEventData.validate_valid_numbers "collateral_amount") raw)
    fl (liquidation_errors raw).
Proof.
  replace (liquidation_errors raw) with
    ([] ++ liquidation_field_errors raw "liquidator"
        ++ liquidation_field_errors raw "user"
        ++ liquidation_field_errors raw "debt_token"
        ++ liquidation_field_errors raw "debt_raw_amount"
        ++ liquidation_field_errors raw "debt_face_amount"
        ++ liquidation_field_errors raw "collateral_token"
        ++ liquidation_field_errors raw "collateral_amount")
    by (unfold liquidation_errors, LiquidationEventData.field_names;
        cbn [flat_map app]; by rewrite app_nil_r).
  rewrite !app_assoc.
  repeat apply collects_ap; try apply collects_pure;
    apply collects_field; intros v _;
    first [apply validate_valid_addresses_pure | apply validate_valid_numbers_pure].
Qed.

(** Construction of a [LiquidationEventData] leaves the context alone; it
    fails exactly when some field reports a line error, and then with all
    of them. *)
Lemma liquidation_model_validate `{UnicodeData} `{CanonicalWidth}
    (raw : raw_mapping) (fl : Flags) :
  ∃ o, LiquidationEventData.model_validate raw fl = (o, fl) ∧
       match o with
       | Constructed _ => liquidation_errors raw = []
       | ValidationError errs => errs = liquidation_errors raw ∧ errs ≠ []
       | Propagated _ => False
       end.
Proof.
  destruct (validate_model_collects _ _ _ (liquidation_collects raw fl))
    as (o & Ho & Hm).
  exists o. split; [exact Ho|]. destruct o; intuition congruence.
Qed.

(** ** Accumulators *)

Lemma hex_to_decimal_int `{UnicodeData} `{Context} (h : str) (n : Z) (fl : Flags) :
  int16 h = Some n →
  DataAccumulatorsSyncEvent.hex_to_decimal h fl
  = Decimal_truediv (Decimal_of_int n) Decimal_1e27 fl.
Proof.
  intros Hh. unfold DataAccumulatorsSyncEvent.hex_to_decimal, bind, int_base16.
  by rewrite Hh.
Qed.

Lemma hex_to_decimal_exact `{UnicodeData} (h : str) (n : Z) (fl : Flags) :
  int16 h = Some n → Z.abs n < 10 ^ 28 →
  DataAccumulatorsSyncEvent.hex_to_decimal h fl =
    (Return {| d_sign := n <? 0; d_int := Z.abs n; d_exp := -27 |}, fl).
Proof.
  intros Hh Hn. unfold DataAccumulatorsSyncEvent.hex_to_decimal, bind, int_base16.
  rewrite Hh. simpl. by apply truediv_1e27_exact.
Qed.

Lemma hex_to_decimal_rounded `{UnicodeData} (h : str) (n : Z) (fl : Flags) :
  int16 h = Some n → 10 ^ 28 <= Z.abs n → ndigits (Z.abs n) <= 1000026 →
  ∃ d fl',
    DataAccumulatorsSyncEvent.hex_to_decimal h fl = (Return d, fl')
    ∧ d_sign d = (n <? 0)
    ∧ 10 ^ 27 <= d_int d < 10 ^ 28
    ∧ -27 < d_exp d
    ∧ 2 * Z.abs (d_int d * 10 ^ (d_exp d + 27) - Z.abs n) <= 10 ^ (d_exp d + 27)
    ∧ flag Rounded fl' = true.
Proof.
  intros Hh Hn HL. unfold DataAccumulatorsSyncEvent.hex_to_decimal, bind, int_base16.
  rewrite Hh. simpl. by apply truediv_1e27_rounded.
Qed.

Lemma hex_to_decimal_rounded_below `{UnicodeData} (h : str) (n : Z) (fl : Flags) :
  int16 h = Some n → 10 ^ 28 <= Z.abs n → Z.abs n < overflow_bound →
  ∃ d fl',
    DataAccumulatorsSyncEvent.hex_to_decimal h fl = (Return d, fl')
    ∧ d_sign d = (n <? 0)
    ∧ 10 ^ 27 <= d_int d < 10 ^ 28
    ∧ -27 < d_exp d
    ∧ 2 * Z.abs (d_int d * 10 ^ (d_exp d + 27) - Z.abs n) <= 10 ^ (d_exp d + 27)
    ∧ flag Rounded fl' = true.
Proof.
  intros Hh Hn Hlt. rewrite (hex_to_decimal_int h n fl Hh).
  by apply truediv_1e27_rounded_below.
Qed.

Lemma hex_to_decimal_overflow `{UnicodeData} (h : str) (n : Z) (fl : Flags) :
  int16 h = Some n → overflow_bound <= Z.abs n →
  DataAccumulatorsSyncEvent.hex_to_decimal h fl
  = (Raise (DecimalException Overflow),
     set_flag Overflow (set_flag Rounded (set_flag Inexact fl))).
Proof.
  intros Hh Hn. rewrite (hex_to_decimal_int h n fl Hh).
  by apply truediv_1e27_above_bound.
Qed.

(** The bound in terms of the number of digits. *)
Lemma overflow_bound_digits (n : Z) :
  (ndigits (Z.abs n) <= 1000026 → Z.abs n < overflow_bound)
  ∧ (1000028 <= ndigits (Z.abs n) → overflow_bound <= Z.abs n).
Proof.
  pose proof overflow_bound_large as Hlarge.
  pose proof (pow10_pos 28 ltac:(lia)) as H28.
  destruct (Z.eq_dec (Z.abs n) 0) as [Hz|Hnz].
  - rewrite Hz. split; [lia|]. intros HL. vm_compute in HL. by destruct HL.
  - split; intros HL.
    + apply below_overflow_bound; [lia|exact HL].
    + apply above_overflow_bound; [lia|exact HL].
Qed.

(** C1, as amended. Let [h] be a string that [int(h, 16)] accepts, with a
    value [n]. In the default decimal context, an accumulator field
    ([lending_accumulator] or [debt_accumulator]) validated from [h] is
    this:
    - when [n] has at most 28 digits, the precision of the context, the
      decimal with sign, coefficient and exponent [(n < 0, |n|, -27)]: its
      value is the rational [n / 10^27] exactly, and the context flags
      are untouched;
    - when [n] has more digits and [|n| < 10^1000027 - 5 * 10^999998],
      the quotient rounded to 28 significant digits: a coefficient of 28
      digits with an exponent above -27, within half a unit in the last
      place of [n / 10^27], and the flag [Rounded] is set;
    - from [|n| = 10^1000027 - 5 * 10^999998] on, no value: the rounded
      quotient is above the largest number of the context, the validator
      raises [decimal.Overflow] (the flags [Inexact], [Rounded] and
      [Overflow] are set), and the field lets the exception through.
    Every integer of at most 1000026 digits is below that bound, every
    integer of 1000028 digits or more is not. *)
Theorem C1_accumulator_quotient_to_28_digits `{UnicodeData}
    (name : string) (raw : raw_mapping) (h : str) (n : Z) (fl : Flags) :
  raw !! name = Some h → int16 h = Some n →
  (Z.abs n < overflow_bound →
   ∃ d fl',
     DataAccumulatorsSyncEvent.hex_to_decimal h fl = (Return d, fl')
     ∧ field name DataAccumulatorsSyncEvent.hex_to_decimal raw fl
       = (inr (Some d, []), fl')
     ∧ (Z.abs n < 10 ^ 28 →
        d = {| d_sign := n <? 0; d_int := Z.abs n; d_exp := -27 |}
        ∧ fl' = fl
        ∧ Qeq (Decimal_value d) (inject_Z n / inject_Z (10 ^ 27)))
     ∧ (10 ^ 28 <= Z.abs n →
        d_sign d = (n <? 0)
        ∧ 10 ^ 27 <= d_int d < 10 ^ 28
        ∧ -27 < d_exp d
        ∧ 2 * Z.abs (d_int d * 10 ^ (d_exp d + 27) - Z.abs n) <= 10 ^ (d_exp d + 27)
        ∧ flag Rounded fl' = true))
  ∧ (overflow_bound <= Z.abs n →
     DataAccumulatorsSyncEvent.hex_to_decimal h fl
     = (Raise (DecimalException Overflow),
        set_flag Overflow (set_flag Rounded (set_flag Inexact fl)))
     ∧ field name DataAccumulatorsSyncEvent.hex_to_decimal raw fl
       = (inl (DecimalException Overflow),
          set_flag Overflow (set_flag Rounded (set_flag Inexact fl))))
  ∧ (ndigits (Z.abs n) <= 1000026 → Z.abs n < overflow_bound)
  ∧ (1000028 <= ndigits (Z.abs n) → overflow_bound <= Z.abs n).
Proof.
  intros Hraw Hh. split; [|split; [|apply overflow_bound_digits]].
  - intros Hlt. destruct (Z.lt_ge_cases (Z.abs n) (10 ^ 28)) as [Hn|Hn].
    + pose proof (hex_to_decimal_exact h n fl Hh Hn) as Hd.
      eexists _, _. split; [exact Hd|]. split.
      { unfold field. by rewrite Hraw, Hd. }
      split; [|lia]. intros _. split; [reflexivity|]. split; [reflexivity|].
      apply Decimal_value_scaled.
    + destruct (hex_to_decimal_rounded_below h n fl Hh Hn Hlt) as (d & fl' & Hd & Hrest).
      exists d, fl'. split; [exact Hd|]. split.
      { unfold field. by rewrite Hraw, Hd. }
      split; [lia|]. intros _. exact Hrest.
  - intros Hge. pose proof (hex_to_decimal_overflow h n fl Hh Hge) as Hd.
    split; [exact Hd|]. unfold field. by rewrite Hraw, Hd.
Qed.

(** C1 at [h = "de0b6b3a7640000"], that is [10^18], the accumulator 1e-9. *)
Lemma C1_accumulator_quotient_witness :
  let h := lit "de0b6b3a7640000" in
  let n := 10 ^ 18 in
  let raw : raw_mapping := {[ "lending_accumulator" := h ]} in
  let hex_to_decimal := @DataAccumulatorsSyncEvent.hex_to_decimal ucd_latin1 DefaultContext in
  raw !! "lending_accumulator" = Some h
  ∧ @int16 ucd_latin1 h = Some n
  ∧ (Z.abs n < overflow_bound →
     ∃ d fl',
       hex_to_decimal h no_flags = (Return d, fl')
       ∧ field "lending_accumulator" hex_to_decimal raw no_flags
         = (inr (Some d, []), fl')
       ∧ (Z.abs n < 10 ^ 28 →
          d = {| d_sign := n <? 0; d_int := Z.abs n; d_exp := -27 |}
          ∧ fl' = no_flags
          ∧ Qeq (Decimal_value d) (inject_Z n / inject_Z (10 ^ 27)))
       ∧ (10 ^ 28 <= Z.abs n →
          d_sign d = (n <? 0)
          ∧ 10 ^ 27 <= d_int d < 10 ^ 28
          ∧ -27 < d_exp d
          ∧ 2 * Z.abs (d_int d * 10 ^ (d_exp d + 27) - Z.abs n)
            <= 10 ^ (d_exp d + 27)
          ∧ flag Rounded fl' = true))
  ∧ (overflow_bound <= Z.abs n →
     hex_to_decimal h no_flags
     = (Raise (DecimalException Overflow),
        set_flag Overflow (set_flag Rounded (set_flag Inexact no_flags)))
     ∧ field "lending_accumulator" hex_to_decimal raw no_flags
       = (inl (DecimalException Overflow),
          set_flag Overflow (set_flag Rounded (set_flag Inexact no_flags))))
  ∧ (ndigits (Z.abs n) <= 1000026 → Z.abs n < overflow_bound)
  ∧ (1000028 <= ndigits (Z.abs n) → overflow_bound <= Z.abs n).
Proof.
  intros h n raw hex_to_decimal.
  split; [reflexivity|]. split; [reflexivity|].
  apply (@C1_accumulator_quotient_to_28_digits ucd_latin1
           "lending_accumulator" raw h n no_flags); reflexivity.
Defined.

(** The claim of C1 for integers of any size fails: [10^28 + 1] has 29
    digits, and the quotient is rounded to the 28 digits of the context,
    to the decimal 10 (coefficient [10^27], exponent -26). *)
Lemma C1_counterexample_29_digits :
  @int16 ucd_latin1 (lit "204fce5e3e25026110000001") = Some (10 ^ 28 + 1)
  ∧ @DataAccumulatorsSyncEvent.hex_to_decimal ucd_latin1 DefaultContext
      (lit "204fce5e3e25026110000001") no_flags
    = (Return {| d_sign := false; d_int := 10 ^ 27; d_exp := -26 |},
       set_flag Rounded (set_flag Inexact no_flags))
  ∧ ¬ Qeq (Decimal_value {| d_sign := false; d_int := 10 ^ 27; d_exp := -26 |})
        (inject_Z (10 ^ 28 + 1) / inject_Z (10 ^ 27)).
Proof.
  split; [by vm_compute|]. split; [by vm_compute|].
  intros Heq. vm_compute in Heq. discriminate Heq.
Qed.

(** ** Amounts of [LiquidationEventData]: the parsed integer *)

Lemma validate_valid_numbers_accepts `{UnicodeData} (name : string) (h : str) (n : Z) (fl : Flags) :
  int16 h = Some n →
  LiquidationEventData.validate_valid_numbers name h fl = (Return (Decimal_of_int n), fl).
Proof.
  intros Hh. unfold LiquidationEventData.validate_valid_numbers,
    try_except_ValueError, bind, int_base16. by rewrite Hh.
Qed.

Lemma validate_valid_numbers_rejects `{UnicodeData} (name : string) (h : str) (fl : Flags) :
  int16 h = None →
  LiquidationEventData.validate_valid_numbers name h fl
  = (Raise (ValueError (Text (lit name ++ lit " field is not a valid hexadecimal number"))), fl).
Proof.
  intros Hh. unfold LiquidationEventData.validate_valid_numbers,
    try_except_ValueError, bind, int_base16. by rewrite Hh.
Qed.

Lemma Decimal_of_int_value (n : Z) : Qeq (Decimal_value (Decimal_of_int n)) (inject_Z n).
Proof.
  unfold Decimal_value, Decimal_of_int; simpl.
  replace (if n <? 0 then - Z.abs n else Z.abs n) with n
    by (destruct (Z.ltb_spec n 0); lia).
  change (inject_Z (10 ^ 0)) with 1%Q. ring.
Qed.

(** C4, as amended. For every string [h] that [int(h, 16)] accepts, with
    value [n], an amount field validated from [h] is the decimal of [n]:
    exponent 0, value [n]. It is not negative unless [h] has a minus
    sign. *)
Theorem C4_amount_is_the_parsed_integer `{UnicodeData}
    (name : string) (h : str) (n : Z) (fl : Flags) :
  int16 h = Some n →
  LiquidationEventData.validate_valid_numbers name h fl = (Return (Decimal_of_int n), fl)
  ∧ d_exp (Decimal_of_int n) = 0
  ∧ Qeq (Decimal_value (Decimal_of_int n)) (inject_Z n)
  ∧ (45 ∉ h → 0 <= n ∧ d_sign (Decimal_of_int n) = false).
Proof.
  intros Hh. split; [by apply validate_valid_numbers_accepts|].
  split; [done|]. split; [apply Decimal_of_int_value|].
  intros Hm. assert (0 <= n) as Hn.
  { destruct (Z.lt_ge_cases n 0) as [Hneg|]; [|done].
    destruct Hm. by apply (int16_negative_has_minus h n). }
  split; [done|]. simpl. by apply Z.ltb_ge.
Qed.

(** C4 at [h = "ff"]. *)
Lemma C4_amount_witness :
  @int16 ucd_latin1 (lit "ff") = Some 255
  ∧ @LiquidationEventData.validate_valid_numbers ucd_latin1 "debt_raw_amount"
      (lit "ff") no_flags = (Return (Decimal_of_int 255), no_flags)
  ∧ d_exp (Decimal_of_int 255) = 0
  ∧ Qeq (Decimal_value (Decimal_of_int 255)) (inject_Z 255)
  ∧ (45 ∉ lit "ff" → 0 <= 255 ∧ d_sign (Decimal_of_int 255) = false).
Proof.
  split; [reflexivity|].
  apply (@C4_amount_is_the_parsed_integer ucd_latin1 "debt_raw_amount"
           (lit "ff") 255 no_flags).
  reflexivity.
Defined.

(** The claim of C4 that an accepted amount is non-negative fails:
    [int("-ff", 16)] is -255, and the record is built with it. *)
Lemma C4_counterexample_negative_amount :
  let raw : raw_mapping :=
    {[ "liquidator" := lit "0x1"; "user" := lit "0x2"; "debt_token" := lit "0x3";
       "debt_raw_amount" := lit "-ff"; "debt_face_amount" := lit "10";
       "collateral_token" := lit "0x4"; "collateral_amount" := lit "20" ]} in
  @int16 ucd_latin1 (lit "-ff") = Some (-255)
  ∧ @LiquidationEventData.validate_valid_numbers ucd_latin1 "debt_raw_amount"
      (lit "-ff") no_flags
    = (Return {| d_sign := true; d_int := 255; d_exp := 0 |}, no_flags)
  ∧ Qlt (Decimal_value {| d_sign := true; d_int := 255; d_exp := 0 |}) 0
  ∧ ∃ r, @LiquidationEventData.model_validate ucd_latin1 starknet_width raw no_flags
         = (Constructed r, no_flags)
       ∧ LiquidationEventData.debt_raw_amount r
         = {| d_sign := true; d_int := 255; d_exp := 0 |}.
Proof.
  intros raw. split; [by vm_compute|]. split; [by vm_compute|].
  split; [by vm_compute|].
  eexists. split; [vm_compute; reflexivity|reflexivity].
Qed.

(** ** Line errors of [LiquidationEventData] *)

Lemma startswith_app (s t : str) : startswith (s ++ t) s = true.
Proof. induction s as [|c s IH]; [done|]. simpl. by rewrite Z.eqb_refl. Qed.

Lemma startswith_refl (s : str) : startswith s s = true.
Proof. induction s as [|c s IH]; [done|]. simpl. by rewrite Z.eqb_refl. Qed.

Lemma contains_app_r (s t : str) : contains (s ++ t) t = true.
Proof.
  induction s as [|c s IH]; simpl.
  - destruct t as [|c t]; simpl; [done|]. by rewrite Z.eqb_refl, startswith_refl.
  - rewrite IH. apply orb_true_r.
Qed.

Lemma contains_app_l (s t : str) : contains (s ++ t) s = true.
Proof. destruct s; simpl; [by destruct t|]. by rewrite Z.eqb_refl, startswith_app. Qed.

Lemma elem_of_flat_map {A B} (f : A → list B) (l : list A) (x : A) (y : B) :
  x ∈ l → y ∈ f x → y ∈ flat_map f l.
Proof.
  rewrite !list_elem_of_In. intros Hx Hy. apply in_flat_map. eauto.
Qed.

Lemma amount_fields_declared (name : string) :
  name ∈ LiquidationEventData.amount_fields → name ∈ LiquidationEventData.field_names.
Proof.
  unfold LiquidationEventData.amount_fields, LiquidationEventData.field_names.
  rewrite !elem_of_cons. tauto.
Qed.

Lemma address_fields_declared (name : string) :
  name ∈ LiquidationEventData.address_fields → name ∈ LiquidationEventData.field_names.
Proof.
  unfold LiquidationEventData.address_fields, LiquidationEventData.field_names.
  rewrite !elem_of_cons. tauto.
Qed.

Lemma address_fields_not_amount (name : string) :
  name ∈ LiquidationEventData.address_fields → name ∉ LiquidationEventData.amount_fields.
Proof.
  unfold LiquidationEventData.address_fields, LiquidationEventData.amount_fields.
  rewrite !elem_of_cons. intros [->|[->|[->|[->|H]]]];
    [..|by apply elem_of_nil in H];
    intros [?|[?|[?|H]]]; try done; by apply elem_of_nil in H.
Qed.

(** No line error of a [LiquidationEventData] carries the text of the
    [ValueError] of [int()]. *)
Lemma liquidation_errors_text `{UnicodeData} `{CanonicalWidth}
    (raw : raw_mapping) (e : line_error) :
  e ∈ liquidation_errors raw → ∃ t, msg e = Text t.
Proof.
  unfold liquidation_errors. rewrite list_elem_of_In, in_flat_map.
  intros (name & _ & Hin). apply list_elem_of_In in Hin. revert Hin.
  unfold liquidation_field_errors, field_errors, field_result.
  destruct (raw !! name) as [v|].
  - destruct (bool_decide _).
    + destruct (validate_valid_numbers_pure name v no_flags) as [_ Hne].
      unfold LiquidationEventData.validate_valid_numbers, try_except_ValueError,
        bind, int_base16 in *.
      destruct (int16 v); simpl; rewrite ?elem_of_nil, ?list_elem_of_singleton;
        [done|]. intros ->. eauto.
    + unfold LiquidationEventData.validate_valid_addresses.
      destruct (startswith v (lit "0x")); simpl;
        rewrite ?elem_of_nil, ?list_elem_of_singleton; [done|]. intros ->. eauto.
  - destruct (bool_decide _); simpl; rewrite list_elem_of_singleton; intros ->; eauto.
Qed.

(** C6. When [int(v, 16)] rejects the string [v] given for an amount field
    of a [LiquidationEventData], construction fails with a validation
    error that has a line error located at that field, of type
    [value_error], whose text is the field's name followed by
    [" field is not a valid hexadecimal number"]; the [ValueError] of
    [int()] itself is neither raised nor among the line errors. *)
Theorem C6_rejected_amount_is_a_validation_error `{UnicodeData} `{CanonicalWidth}
    (raw : raw_mapping) (name : string) (v : str) (fl : Flags) :
  name ∈ LiquidationEventData.amount_fields →
  raw !! name = Some v →
  int16 v = None →
  ∃ errs,
    LiquidationEventData.model_validate raw fl = (ValidationError errs, fl)
    ∧ {| loc := name; type := value_error;
         msg := Text (lit name ++ lit " field is not a valid hexadecimal number") |}
      ∈ errs
    ∧ contains (lit name ++ lit " field is not a valid hexadecimal number") (lit name)
      = true
    ∧ ∀ e, e ∈ errs → ∃ t, msg e = Text t.
Proof.
  intros Hname Hraw Hv.
  assert ({| loc := name; type := value_error;
             msg := Text (lit name ++ lit " field is not a valid hexadecimal number") |}
          ∈ liquidation_errors raw) as Hin.
  { apply (elem_of_flat_map _ _ name); [by apply amount_fields_declared|].
    unfold liquidation_field_errors. rewrite bool_decide_eq_true_2 by done.
    unfold field_errors, field_result. rewrite Hraw.
    rewrite (validate_valid_numbers_rejects name v no_flags Hv). simpl.
    by apply list_elem_of_singleton. }
  destruct (liquidation_model_validate raw fl) as (o & Ho & Hm).
  destruct o as [r|errs|e]; [|destruct Hm as [-> _]|done].
  - rewrite Hm in Hin. by apply elem_of_nil in Hin.
  - exists (liquidation_errors raw). split; [done|]. split; [done|].
    split; [apply contains_app_l|]. apply liquidation_errors_text.
Qed.

(** C6 at [debt_raw_amount = "zz"]. *)
Lemma C6_rejected_amount_witness :
  let raw : raw_mapping := {[ "debt_raw_amount" := lit "zz" ]} in
  "debt_raw_amount" ∈ LiquidationEventData.amount_fields
  ∧ raw !! "debt_raw_amount" = Some (lit "zz")
  ∧ @int16 ucd_latin1 (lit "zz") = None
  ∧ ∃ errs,
      @LiquidationEventData.model_validate ucd_latin1 starknet_width raw no_flags
      = (ValidationError errs, no_flags)
      ∧ {| loc := "debt_raw_amount"; type := value_error;
           msg := Text (lit "debt_raw_amount"
                        ++ lit " field is not a valid hexadecimal number") |}
        ∈ errs
      ∧ contains (lit "debt_raw_amount" ++ lit " field is not a valid hexadecimal number")
          (lit "debt_raw_amount") = true
      ∧ ∀ e, e ∈ errs → ∃ t, msg e = Text t.
Proof.
  intros raw.
  assert ("debt_raw_amount" ∈ LiquidationEventData.amount_fields) as Hname
    by (apply elem_of_cons; by left).
  split; [exact Hname|]. split; [reflexivity|]. split; [reflexivity|].
  apply (@C6_rejected_amount_is_a_validation_error ucd_latin1 starknet_width
           raw "debt_raw_amount" (lit "zz") no_flags Hname);
    reflexivity.
Defined.

Lemma liquidation_field_errors_loc `{UnicodeData} `{CanonicalWidth}
    (raw : raw_mapping) (name : string) :
  loc <$> liquidation_field_errors raw name
  = if violates raw name then [name] else [].
Proof.
  unfold liquidation_field_errors, violates, field_errors, field_result.
  destruct (raw !! name) as [v|]; [|by destruct (bool_decide _)].
  destruct (bool_decide _).
  - unfold LiquidationEventData.validate_valid_numbers, try_except_ValueError,
      bind, int_base16.
    by destruct (int16 v).
  - unfold LiquidationEventData.validate_valid_addresses.
    by destruct (startswith v (lit "0x")).
Qed.

Lemma liquidation_errors_loc `{UnicodeData} `{CanonicalWidth} (raw : raw_mapping) :
  loc <$> liquidation_errors raw
  = List.filter (violates raw) LiquidationEventData.field_names.
Proof.
  unfold liquidation_errors.
  induction LiquidationEventData.field_names as [|name names IH]; [done|].
  simpl. rewrite fmap_app, IH, liquidation_field_errors_loc.
  by destruct (violates raw name).
Qed.

(** C2, as amended. Construction of a [LiquidationEventData] validates
    every field, whatever the outcome of the fields before it. It succeeds
    when no field violates its rule; otherwise it fails with one line
    error for each violating field, in the order of declaration, so that
    the first line error names the first failing field and the others
    name the further ones. The context is left as it was. *)
Theorem C2_one_line_error_per_failing_field `{UnicodeData} `{CanonicalWidth}
    (raw : raw_mapping) (fl : Flags) :
  ∃ o, LiquidationEventData.model_validate raw fl = (o, fl) ∧
       match o with
       | Constructed _ =>
           List.filter (violates raw) LiquidationEventData.field_names = []
       | ValidationError errs =>
           errs ≠ [] ∧
           loc <$> errs = List.filter (violates raw) LiquidationEventData.field_names
       | Propagated _ => False
       end.
Proof.
  destruct (liquidation_model_validate raw fl) as (o & Ho & Hm).
  exists o. split; [done|]. rewrite <- liquidation_errors_loc.
  destruct o as [r|errs|e]; [by rewrite Hm| |done].
  by destruct Hm as [-> ?].
Qed.

(** The claim of C2 fails: with two fields without the [0x] prefix, the
    validation error has two line errors, one for each. *)
Lemma C2_counterexample_two_line_errors :
  let raw : raw_mapping :=
    {[ "liquidator" := lit "abc"; "user" := lit "def"; "debt_token" := lit "0x3";
       "debt_raw_amount" := lit "1"; "debt_face_amount" := lit "2";
       "collateral_token" := lit "0x4"; "collateral_amount" := lit "3" ]} in
  @LiquidationEventData.model_validate ucd_latin1 starknet_width raw no_flags
  = (ValidationError
       [ {| loc := "liquidator"; type := value_error;
            msg := Text (lit "Invalid address provided for liquidator") |};
         {| loc := "user"; type := value_error;
            msg := Text (lit "Invalid address provided for user") |} ],
     no_flags).
Proof. by vm_compute. Qed.

(** ** Line errors of [WithdrawalEventData] *)

Lemma validate_amount_not_digits `{UnicodeData} (v : str) (fl : Flags) :
  isdigit v = false →
  WithdrawalEventData.validate_amount v fl
  = (Raise (ValueError (Text (lit "Amount field is not numeric"))), fl).
Proof. intros Hd. unfold WithdrawalEventData.validate_amount. by rewrite Hd. Qed.

Lemma validate_amount_converts `{UnicodeData} (v : str) (n : Z) (fl : Flags) :
  isdigit v = true → decimal_digits 0 v = Some n →
  WithdrawalEventData.validate_amount v fl
  = (Return {| d_sign := false; d_int := n; d_exp := 0 |}, fl).
Proof.
  intros Hd Hn. unfold WithdrawalEventData.validate_amount, Decimal_of_digit_str.
  by rewrite Hd, Hn.
Qed.

Lemma validate_amount_escapes `{UnicodeData} (v : str) (fl : Flags) :
  isdigit v = true → decimal_digits 0 v = None →
  WithdrawalEventData.validate_amount v fl
  = (Raise (DecimalException InvalidOperation), set_flag InvalidOperation fl).
Proof.
  intros Hd Hn. unfold WithdrawalEventData.validate_amount, Decimal_of_digit_str.
  by rewrite Hd, Hn.
Qed.

Lemma withdrawal_collects `{UnicodeData} `{CanonicalWidth} (raw : raw_mapping) (fl : Flags) :
  amount_converts raw →
  collects
    (pure WithdrawalEventData.Build_t
     <*> field "user" WithdrawalEventData.validate_addresses raw
     <*> field "amount" WithdrawalEventData.validate_amount raw
     <*> field "token" WithdrawalEventData.validate_addresses raw)
    fl (withdrawal_errors raw).
Proof.
  intros Hok. unfold withdrawal_errors.
  rewrite <- (app_nil_l (field_errors "user" _ raw ++ _)), !app_assoc.
  repeat apply collects_ap; try apply collects_pure; apply collects_field.
  - intros v _. apply validate_addresses_pure.
  - intros v Hv. destruct (isdigit v) eqn:Hd.
    + destruct (Hok v Hv Hd) as [n Hn].
      by rewrite !(validate_amount_converts v n) by done.
    + by rewrite !(validate_amount_not_digits v) by done.
  - intros v _. apply validate_addresses_pure.
Qed.

(** Let an address field hold a string [v] that does not start with
    [0x]. Construction of a [LiquidationEventData] then fails with a
    validation error that has a line error located at the field, whose
    text ["Invalid address provided for <field>"] names the field.
    Construction of a [WithdrawalEventData], provided the amount does not
    make [Decimal()] raise, fails with a validation error that has a line
    error located at the field, whose text
    ["Invalid address provided: <v>"] quotes the string. *)
Lemma missing_prefix_is_a_line_error `{UnicodeData} `{CanonicalWidth}
    (raw : raw_mapping) (name : string) (v : str) (fl : Flags) :
  raw !! name = Some v →
  startswith v (lit "0x") = false →
  (name ∈ LiquidationEventData.address_fields →
   ∃ errs,
     LiquidationEventData.model_validate raw fl = (ValidationError errs, fl)
     ∧ {| loc := name; type := value_error;
          msg := Text (lit "Invalid address provided for " ++ lit name) |} ∈ errs
     ∧ contains (lit "Invalid address provided for " ++ lit name) (lit name) = true)
  ∧ (name ∈ WithdrawalEventData.address_fields →
     amount_converts raw →
     ∃ errs,
       WithdrawalEventData.model_validate raw fl = (ValidationError errs, fl)
       ∧ {| loc := name; type := value_error;
            msg := Text (lit "Invalid address provided: " ++ v) |} ∈ errs).
Proof.
  intros Hraw Hv. split.
  - intros Hname.
    assert ({| loc := name; type := value_error;
               msg := Text (lit "Invalid address provided for " ++ lit name) |}
            ∈ liquidation_errors raw) as Hin.
    { apply (elem_of_flat_map _ _ name); [by apply address_fields_declared|].
      unfold liquidation_field_errors.
      rewrite bool_decide_eq_false_2 by (by apply address_fields_not_amount).
      unfold field_errors, field_result. rewrite Hraw.
      unfold LiquidationEventData.validate_valid_addresses. rewrite Hv. simpl.
      by apply list_elem_of_singleton. }
    destruct (liquidation_model_validate raw fl) as (o & Ho & Hm).
    destruct o as [r|errs|e]; [|destruct Hm as [-> _]|done].
    + rewrite Hm in Hin. by apply elem_of_nil in Hin.
    + exists (liquidation_errors raw). split; [done|]. split; [done|].
      apply contains_app_r.
  - intros Hname Hok.
    assert ({| loc := name; type := value_error;
               msg := Text (lit "Invalid address provided: " ++ v) |}
            ∈ withdrawal_errors raw) as Hin.
    { unfold withdrawal_errors, WithdrawalEventData.address_fields in *.
      rewrite !elem_of_app.
      apply elem_of_cons in Hname as [->|Hname];
        [left|right; right; apply list_elem_of_singleton in Hname as ->];
        unfold field_errors, field_result; rewrite Hraw;
        unfold WithdrawalEventData.validate_addresses; rewrite Hv; simpl;
        by apply list_elem_of_singleton. }
    destruct (validate_model_collects _ _ _ (withdrawal_collects raw fl Hok))
      as (o & Ho & Hm).
    destruct o as [r|errs|e]; [|destruct Hm as [-> _]|done].
    + rewrite Hm in Hin. by apply elem_of_nil in Hin.
    + by exists (withdrawal_errors raw).
Qed.

(** An amount that passes [str.isdigit] and that [Decimal()] rejects ends
    the construction of a [WithdrawalEventData], whatever the other
    fields hold: the line error of [user], if there is one, is lost. *)
Lemma withdrawal_amount_escapes `{UnicodeData} `{CanonicalWidth}
    (raw : raw_mapping) (a : str) (fl : Flags) :
  raw !! "amount" = Some a → isdigit a = true → decimal_digits 0 a = None →
  WithdrawalEventData.model_validate raw fl
  = (Propagated (DecimalException InvalidOperation), set_flag InvalidOperation fl).
Proof.
  intros Hraw Hd Hn.
  unfold WithdrawalEventData.model_validate, validate_model.
  assert (∃ p, (pure WithdrawalEventData.Build_t
                <*> field "user" WithdrawalEventData.validate_addresses raw) fl
               = (inr p, fl)) as [[og errs] Hp].
  { destruct (collects_ap _ _ fl _ _ (collects_pure WithdrawalEventData.Build_t fl)
                (collects_field "user" WithdrawalEventData.validate_addresses raw fl
                   (λ v _, validate_addresses_pure v fl))) as (o & Ho & _).
    eauto. }
  unfold ap at 1. unfold ap at 1. rewrite Hp.
  unfold field at 1. rewrite Hraw.
  by rewrite (validate_amount_escapes a fl Hd Hn).
Qed.

(** C3, evaluated on the code. Let an address field hold a string [v]
    that does not start with [0x]. Construction of a
    [LiquidationEventData] fails with a validation error that has a line
    error located at the field, whose text names the field. Construction
    of a [WithdrawalEventData] fails in the same way, the text quoting the
    string and the location giving the field, as long as the amount does
    not make [Decimal()] raise. So it is with [liquidator = "abc"] in a
    [LiquidationEventData] whose other fields are valid, and with
    [user = "abc"] and [amount = "1"] in a [WithdrawalEventData]: the
    validation error has the line error of the address and no other.
    With the superscript two for the amount, which [str.isdigit] lets
    through, construction ends with the [InvalidOperation] of [Decimal()]
    instead, and no error about the address is reported. *)
Theorem C3_missing_prefix_evaluated `{UnicodeData} `{CanonicalWidth} (fl : Flags) :
  (∀ raw name v,
     raw !! name = Some v → startswith v (lit "0x") = false →
     name ∈ LiquidationEventData.address_fields →
     ∃ errs,
       LiquidationEventData.model_validate raw fl = (ValidationError errs, fl)
       ∧ {| loc := name; type := value_error;
            msg := Text (lit "Invalid address provided for " ++ lit name) |} ∈ errs
       ∧ contains (lit "Invalid address provided for " ++ lit name) (lit name) = true)
  ∧ (∀ raw name v,
       raw !! name = Some v → startswith v (lit "0x") = false →
       name ∈ WithdrawalEventData.address_fields →
       amount_converts raw →
       ∃ errs,
         WithdrawalEventData.model_validate raw fl = (ValidationError errs, fl)
         ∧ {| loc := name; type := value_error;
              msg := Text (lit "Invalid address provided: " ++ v) |} ∈ errs)
  ∧ LiquidationEventData.model_validate
      {[ "liquidator" := lit "abc"; "user" := lit "0x1";
         "debt_token" := lit "0x2"; "debt_raw_amount" := lit "ff";
         "debt_face_amount" := lit "ff"; "collateral_token" := lit "0x3";
         "collateral_amount" := lit "ff" ]} fl
    = (ValidationError
         [ {| loc := "liquidator"; type := value_error;
              msg := Text (lit "Invalid address provided for liquidator") |} ], fl)
  ∧ WithdrawalEventData.model_validate
      {[ "user" := lit "abc"; "amount" := lit "1"; "token" := lit "0x1" ]} fl
    = (ValidationError
         [ {| loc := "user"; type := value_error;
              msg := Text (lit "Invalid address provided: abc") |} ], fl)
  ∧ startswith (lit "abc") (lit "0x") = false
  ∧ isdigit [178] = true
  ∧ (∀ raw, raw !! "amount" = Some [178] →
       WithdrawalEventData.model_validate raw fl
       = (Propagated (DecimalException InvalidOperation),
          set_flag InvalidOperation fl))
  ∧ WithdrawalEventData.model_validate
      {[ "user" := lit "abc"; "amount" := [178]; "token" := lit "0x1" ]} fl
    = (Propagated (DecimalException InvalidOperation), set_flag InvalidOperation fl).
Proof.
  split.
  { intros raw name v Hraw Hv Hname.
    by apply (proj1 (missing_prefix_is_a_line_error raw name v fl Hraw Hv)). }
  split.
  { intros raw name v Hraw Hv Hname Hok.
    by apply (proj2 (missing_prefix_is_a_line_error raw name v fl Hraw Hv)). }
  split; [reflexivity|].
  split; [reflexivity|]. split; [reflexivity|]. split; [reflexivity|].
  split.
  { intros raw Hraw. by apply (withdrawal_amount_escapes raw [178] fl). }
  by apply (withdrawal_amount_escapes _ [178] fl).
Qed.

(** ** Amounts of [LiquidationEventData] *)

Lemma field_accepts {A} (name : string) (val : str → M A) (raw : raw_mapping)
    (fl : Flags) (v : str) (a : A) :
  raw !! name = Some v → val v fl = (Return a, fl) →
  field name val raw fl = (inr (Some a, []), fl).
Proof. intros Hraw Hval. unfold field. by rewrite Hraw, Hval. Qed.

Lemma ap_accepts {A B} (f : fields (A → B)) (x : fields A) (fl : Flags) (g : A → B) (a : A) :
  f fl = (inr (Some g, []), fl) → x fl = (inr (Some a, []), fl) →
  ap f x fl = (inr (Some (g a), []), fl).
Proof. intros Hf Hx. unfold ap. by rewrite Hf, Hx. Qed.

Lemma validate_valid_addresses_accepts `{CanonicalWidth} (name : string) (v : str) (fl : Flags) :
  startswith v (lit "0x") = true →
  LiquidationEventData.validate_valid_addresses name v fl
  = (Return (add_leading_zeros v), fl).
Proof. intros Hv. unfold LiquidationEventData.validate_valid_addresses. by rewrite Hv. Qed.

Lemma liquidation_constructed `{UnicodeData} `{CanonicalWidth}
    (raw : raw_mapping) (fl : Flags) (l u dt ct hr hf hc : str) (nr nf nc : Z) :
  raw !! "liquidator" = Some l → raw !! "user" = Some u →
  raw !! "debt_token" = Some dt → raw !! "collateral_token" = Some ct →
  raw !! "debt_raw_amount" = Some hr → raw !! "debt_face_amount" = Some hf →
  raw !! "collateral_amount" = Some hc →
  startswith l (lit "0x") = true → startswith u (lit "0x") = true →
  startswith dt (lit "0x") = true → startswith ct (lit "0x") = true →
  int16 hr = Some nr → int16 hf = Some nf → int16 hc = Some nc →
  LiquidationEventData.model_validate raw fl
  = (Constructed
       {| LiquidationEventData.liquidator := add_leading_zeros l;
          LiquidationEventData.user := add_leading_zeros u;
          LiquidationEventData.debt_token := add_leading_zeros dt;
          LiquidationEventData.debt_raw_amount := Decimal_of_int nr;
          LiquidationEventData.debt_face_amount := Decimal_of_int nf;
          LiquidationEventData.collateral_token := add_leading_zeros ct;
          LiquidationEventData.collateral_amount := Decimal_of_int nc |}, fl).
Proof.
  intros Hl Hu Hdt Hct Hhr Hhf Hhc Sl Su Sdt Sct Nr Nf Nc.
  unfold LiquidationEventData.model_validate, validate_model.
  erewrite ap_accepts; [reflexivity| |].
  2: { eapply field_accepts; [exact Hhc|by apply validate_valid_numbers_accepts]. }
  eapply ap_accepts;
    [|eapply field_accepts; [exact Hct|by apply validate_valid_addresses_accepts]].
  eapply ap_accepts;
    [|eapply field_accepts; [exact Hhf|by apply validate_valid_numbers_accepts]].
  eapply ap_accepts;
    [|eapply field_accepts; [exact Hhr|by apply validate_valid_numbers_accepts]].
  eapply ap_accepts;
    [|eapply field_accepts; [exact Hdt|by apply validate_valid_addresses_accepts]].
  eapply ap_accepts;
    [|eapply field_accepts; [exact Hu|by apply validate_valid_addresses_accepts]].
  eapply ap_accepts;
    [|eapply field_accepts; [exact Hl|by apply validate_valid_addresses_accepts]].
  reflexivity.
Qed.

Lemma minus_sign_negative `{UnicodeData} (h : str) (n : Z) :
  int16 h = Some n → 45 ∈ h → n <= 0 ∧ (n ≠ 0 → d_sign (Decimal_of_int n) = true).
Proof.
  intros Hh Hm. pose proof (int16_minus_nonpos h n Hh Hm) as Hn.
  split; [done|]. intros Hnz. simpl. apply Z.ltb_lt. lia.
Qed.

(** C10, as amended. Whatever [int(value, 16)] accepts is accepted for an
    amount of a [LiquidationEventData]: when the addresses start with
    [0x] and [int(_, 16)] accepts the three amounts, the record is
    constructed and each amount is the decimal of the integer parsed. The
    strings accepted are the non-empty strings of plain base-16 digits and
    more: strings with white space around, a sign, the [0x] or [0X]
    prefix, or single underscores between digits. An amount written with
    a minus sign is negative or zero, and negative when the integer is not
    zero. *)
Theorem C10_amounts_follow_int_base16 `{UnicodeData} `{CanonicalWidth}
    (raw : raw_mapping) (fl : Flags) (l u dt ct hr hf hc : str) (nr nf nc : Z) :
  raw !! "liquidator" = Some l → raw !! "user" = Some u →
  raw !! "debt_token" = Some dt → raw !! "collateral_token" = Some ct →
  raw !! "debt_raw_amount" = Some hr → raw !! "debt_face_amount" = Some hf →
  raw !! "collateral_amount" = Some hc →
  startswith l (lit "0x") = true → startswith u (lit "0x") = true →
  startswith dt (lit "0x") = true → startswith ct (lit "0x") = true →
  int16 hr = Some nr → int16 hf = Some nf → int16 hc = Some nc →
  LiquidationEventData.model_validate raw fl
  = (Constructed
       {| LiquidationEventData.liquidator := add_leading_zeros l;
          LiquidationEventData.user := add_leading_zeros u;
          LiquidationEventData.debt_token := add_leading_zeros dt;
          LiquidationEventData.debt_raw_amount := Decimal_of_int nr;
          LiquidationEventData.debt_face_amount := Decimal_of_int nf;
          LiquidationEventData.collateral_token := add_leading_zeros ct;
          LiquidationEventData.collateral_amount := Decimal_of_int nc |}, fl)
  ∧ (45 ∈ hr → nr <= 0 ∧ (nr ≠ 0 → d_sign (Decimal_of_int nr) = true))
  ∧ (45 ∈ hf → nf <= 0 ∧ (nf ≠ 0 → d_sign (Decimal_of_int nf) = true))
  ∧ (45 ∈ hc → nc <= 0 ∧ (nc ≠ 0 → d_sign (Decimal_of_int nc) = true))
  ∧ (∀ h, h ≠ [] → forallb is_hex_digit h = true → int16 h = Some (hex_value h))
  ∧ (int16 (lit " ff ") = Some 255 ∧ int16 (lit "+ff") = Some 255
     ∧ int16 (lit "-ff") = Some (-255) ∧ int16 (lit "0xff") = Some 255
     ∧ int16 (lit "0Xff") = Some 255 ∧ int16 (lit "f_f") = Some 255).
Proof.
  intros Hl Hu Hdt Hct Hhr Hhf Hhc Sl Su Sdt Sct Nr Nf Nc.
  split; [by apply (liquidation_constructed raw fl l u dt ct hr hf hc)|].
  split; [by apply minus_sign_negative|].
  split; [by apply minus_sign_negative|].
  split; [by apply minus_sign_negative|].
  split; [apply @int16_plain_hex|].
  repeat split; reflexivity.
Qed.

(** C10 at the amounts [" -0x_f_f "], ["+10"] and ["0X20"]. *)
Lemma C10_amounts_witness :
  let raw : raw_mapping :=
    {[ "liquidator" := lit "0x1"; "user" := lit "0x2"; "debt_token" := lit "0x3";
       "debt_raw_amount" := lit " -0x_f_f "; "debt_face_amount" := lit "+10";
       "collateral_token" := lit "0x4"; "collateral_amount" := lit "0X20" ]} in
  @int16 ucd_latin1 (lit " -0x_f_f ") = Some (-255)
  ∧ @int16 ucd_latin1 (lit "+10") = Some 16
  ∧ @int16 ucd_latin1 (lit "0X20") = Some 32
  ∧ @LiquidationEventData.model_validate ucd_latin1 starknet_width raw no_flags
    = (Constructed
         {| LiquidationEventData.liquidator := @add_leading_zeros starknet_width (lit "0x1");
            LiquidationEventData.user := @add_leading_zeros starknet_width (lit "0x2");
            LiquidationEventData.debt_token := @add_leading_zeros starknet_width (lit "0x3");
            LiquidationEventData.debt_raw_amount := Decimal_of_int (-255);
            LiquidationEventData.debt_face_amount := Decimal_of_int 16;
            LiquidationEventData.collateral_token := @add_leading_zeros starknet_width (lit "0x4");
            LiquidationEventData.collateral_amount := Decimal_of_int 32 |}, no_flags).
Proof.
  intros raw. split; [reflexivity|]. split; [reflexivity|]. split; [reflexivity|].
  apply (@C10_amounts_follow_int_base16 ucd_latin1 starknet_width raw no_flags
           (lit "0x1") (lit "0x2") (lit "0x3") (lit "0x4")
           (lit " -0x_f_f ") (lit "+10") (lit "0X20") (-255) 16 32);
    reflexivity.
Defined.

(** The claim of C10 that a minus sign makes the amount negative fails
    for zero: [int("-0", 16)] is 0, and the amount is the decimal 0, with
    sign 0. *)
Lemma C10_counterexample_minus_zero :
  45 ∈ lit "-0"
  ∧ @int16 ucd_latin1 (lit "-0") = Some 0
  ∧ @LiquidationEventData.validate_valid_numbers ucd_latin1 "debt_raw_amount"
      (lit "-0") no_flags
    = (Return {| d_sign := false; d_int := 0; d_exp := 0 |}, no_flags)
  ∧ Qeq (Decimal_value {| d_sign := false; d_int := 0; d_exp := 0 |}) 0.
Proof.
  split; [apply elem_of_cons; by left|]. split; [reflexivity|].
  split; reflexivity.
Qed.

(** ** The amount of [WithdrawalEventData] *)

(** A string with a character below U+0080 that is not one of [0-9] does
    not pass [str.isdigit]. *)
Lemma isdigit_ascii_non_digit `{UnicodeData} (v : str) (ch : Z) :
  ch ∈ v → ch < 128 → is_ascii_digit ch = false → isdigit v = false.
Proof.
  intros Hin Hch Hd. unfold isdigit. destruct v as [|c v]; [done|].
  apply not_true_is_false. intros Hall. rewrite forallb_forall in Hall.
  apply list_elem_of_In, Hall in Hin. revert Hin.
  unfold Py_UNICODE_ISDIGIT, Py_UNICODE_TODIGIT. rewrite Hd.
  destruct (Z.ltb_spec ch 256); [|lia].
  destruct (Z.eqb_spec ch 178); [lia|]. destruct (Z.eqb_spec ch 179); [lia|].
  destruct (Z.eqb_spec ch 185); [lia|]. done.
Qed.

Lemma decimal_digits_ascii `{UnicodeData} (acc : Z) (v : str) :
  forallb is_ascii_digit v = true →
  decimal_digits acc v = Some (foldl (λ acc ch, acc * 10 + (ch - 48)) acc v).
Proof.
  revert acc. induction v as [|c v IH]; intros acc Hv; [done|].
  simpl in Hv. apply andb_true_iff in Hv as [Hc Hv]. simpl.
  unfold Py_UNICODE_TODECIMAL. rewrite Hc.
  assert ((c <? 256) = true) as ->.
  { unfold is_ascii_digit in Hc. apply Z.ltb_lt. lia. }
  by apply IH.
Qed.

Lemma isdigit_ascii_digits `{UnicodeData} (v : str) :
  v ≠ [] → forallb is_ascii_digit v = true → isdigit v = true.
Proof.
  intros Hne Hv. unfold isdigit. destruct v as [|c v]; [done|].
  apply forallb_forall. intros ch Hin. rewrite forallb_forall in Hv.
  specialize (Hv ch Hin). unfold Py_UNICODE_ISDIGIT, Py_UNICODE_TODIGIT.
  rewrite Hv. assert ((ch <? 256) = true) as ->; [|done].
  unfold is_ascii_digit in Hv. apply Z.ltb_lt. lia.
Qed.

(** C5, evaluated on the code. The amount validator of
    [WithdrawalEventData] returns the decimal 123 for ["123"] and raises
    the [ValueError] ["Amount field is not numeric"] for ["12.3"], ["-5"]
    and [""], as for every string with a character below U+0080 that is
    not one of [0-9]; a non-empty string of [0-9] gives the integer it
    writes. On the superscript two, which [str.isdigit] lets through, it
    raises the [InvalidOperation] of [Decimal()] instead of the
    [ValueError]. *)
Theorem C5_validate_amount_evaluated `{UnicodeData} (fl : Flags) :
  WithdrawalEventData.validate_amount (lit "123") fl
  = (Return {| d_sign := false; d_int := 123; d_exp := 0 |}, fl)
  ∧ WithdrawalEventData.validate_amount (lit "12.3") fl
    = (Raise (ValueError (Text (lit "Amount field is not numeric"))), fl)
  ∧ WithdrawalEventData.validate_amount (lit "-5") fl
    = (Raise (ValueError (Text (lit "Amount field is not numeric"))), fl)
  ∧ WithdrawalEventData.validate_amount (lit "") fl
    = (Raise (ValueError (Text (lit "Amount field is not numeric"))), fl)
  ∧ (∀ v ch, ch ∈ v → ch < 128 → is_ascii_digit ch = false →
       WithdrawalEventData.validate_amount v fl
       = (Raise (ValueError (Text (lit "Amount field is not numeric"))), fl))
  ∧ (∀ v, v ≠ [] → forallb is_ascii_digit v = true →
       WithdrawalEventData.validate_amount v fl
       = (Return {| d_sign := false;
                    d_int := foldl (λ acc ch, acc * 10 + (ch - 48)) 0 v;
                    d_exp := 0 |}, fl))
  ∧ isdigit [178] = true
  ∧ WithdrawalEventData.validate_amount [178] fl
    = (Raise (DecimalException InvalidOperation), set_flag InvalidOperation fl).
Proof.
  split; [reflexivity|]. split; [reflexivity|]. split; [reflexivity|].
  split; [reflexivity|]. split.
  { intros v ch Hin Hch Hd. apply validate_amount_not_digits.
    by apply (isdigit_ascii_non_digit v ch). }
  split.
  { intros v Hne Hv. apply validate_amount_converts.
    - by apply isdigit_ascii_digits.
    - by apply decimal_digits_ascii. }
  split; reflexivity.
Qed.

(** C9. The string made of the superscript two (U+00B2) passes
    [str.isdigit], and [Decimal()] rejects it: the amount validator raises
    [decimal.InvalidOperation], which is no [ValueError], and construction
    of a [WithdrawalEventData] from any mapping with this amount ends with
    that exception and not with a validation error. *)
Theorem C9_digit_that_decimal_rejects `{UnicodeData} `{CanonicalWidth} :
  ∃ value,
    isdigit value = true
    ∧ (∀ fl, WithdrawalEventData.validate_amount value fl
             = (Raise (DecimalException InvalidOperation),
                set_flag InvalidOperation fl))
    ∧ (∀ m, DecimalException InvalidOperation ≠ ValueError m)
    ∧ (∀ raw fl, raw !! "amount" = Some value →
         (WithdrawalEventData.model_validate raw fl).1
         = Propagated (DecimalException InvalidOperation)).
Proof.
  exists [178]. split; [reflexivity|]. split; [reflexivity|]. split; [done|].
  intros raw fl Hraw.
  unfold WithdrawalEventData.model_validate, validate_model.
  assert (∃ p, (pure WithdrawalEventData.Build_t
                <*> field "user" WithdrawalEventData.validate_addresses raw) fl
               = (inr p, fl)) as [[og errs] Hp].
  { destruct (collects_ap _ _ fl _ _ (collects_pure WithdrawalEventData.Build_t fl)
                (collects_field "user" WithdrawalEventData.validate_addresses raw fl
                   (λ v _, validate_addresses_pure v fl))) as (o & Ho & _).
    eauto. }
  unfold ap at 1. unfold ap at 1. rewrite Hp.
  unfold field at 1. rewrite Hraw.
  by rewrite (validate_amount_escapes [178] fl eq_refl eq_refl).
Qed.

(** ** Canonical addresses *)

Lemma add_leading_zeros_prefix `{CanonicalWidth} (a : str) :
  startswith (add_leading_zeros a) (lit "0x") = true.
Proof. done. Qed.

Lemma add_leading_zeros_idempotent `{CanonicalWidth} (a : str) :
  add_leading_zeros (add_leading_zeros a) = add_leading_zeros a.
Proof.
  unfold add_leading_zeros. set (d := drop 2 a).
  set (z := replicate (canonical_width - length d)%nat (48 : Z)).
  change (drop 2 (lit "0x" ++ z ++ d)) with (z ++ d).
  assert ((canonical_width - length (z ++ d))%nat = 0%nat) as ->; [|done].
  subst z. rewrite length_app, length_replicate. lia.
Qed.

(** C7. For an address [a] that starts with [0x], either address validator
    returns a canonical address [c], the same for both, and returns [c]
    again when it is given [c]. *)
Theorem C7_canonicalization_idempotent `{CanonicalWidth}
    (name : string) (a : str) (fl : Flags) :
  startswith a (lit "0x") = true →
  ∃ c,
    LiquidationEventData.validate_valid_addresses name a fl = (Return c, fl)
    ∧ LiquidationEventData.validate_valid_addresses name c fl = (Return c, fl)
    ∧ WithdrawalEventData.validate_addresses a fl = (Return c, fl)
    ∧ WithdrawalEventData.validate_addresses c fl = (Return c, fl).
Proof.
  intros Ha. exists (add_leading_zeros a).
  unfold LiquidationEventData.validate_valid_addresses,
    WithdrawalEventData.validate_addresses.
  rewrite Ha, add_leading_zeros_prefix, add_leading_zeros_idempotent. done.
Qed.

(** C7 at [a = "0x1f"], with 64 digits. *)
Lemma C7_canonicalization_witness :
  startswith (lit "0x1f") (lit "0x") = true
  ∧ ∃ c,
      @LiquidationEventData.validate_valid_addresses starknet_width "user"
        (lit "0x1f") no_flags = (Return c, no_flags)
      ∧ @LiquidationEventData.validate_valid_addresses starknet_width "user"
          c no_flags = (Return c, no_flags)
      ∧ @WithdrawalEventData.validate_addresses starknet_width (lit "0x1f") no_flags
        = (Return c, no_flags)
      ∧ @WithdrawalEventData.validate_addresses starknet_width c no_flags
        = (Return c, no_flags).
Proof.
  split; [reflexivity|].
  apply (@C7_canonicalization_idempotent starknet_width "user" (lit "0x1f") no_flags).
  reflexivity.
Defined.

(** ** Determinism and effects *)












(** * Further properties *)

(** ** The literals of [int(value, 16)] *)

Lemma skip_spaces_app (ws s : str) :
  forallb Py_ISSPACE ws = true → skip_spaces (ws ++ s) = skip_spaces s.
Proof.
  induction ws as [|c ws IH]; [done|]. simpl.
  intros [Hc Hws]%andb_true_iff. rewrite Hc. by apply IH.
Qed.

Lemma skip_spaces_all (ws : str) :
  forallb Py_ISSPACE ws = true → skip_spaces ws = [].
Proof.
  intros Hws. rewrite <- (app_nil_r ws). by rewrite skip_spaces_app.
Qed.

Lemma space_facts (ch : Z) :
  Py_ISSPACE ch = true →
  ch < 128 ∧ ch ≠ 95 ∧ ch ≠ 120 ∧ ch ≠ 88 ∧ 16 <= _PyLong_DigitValue ch.
Proof.
  unfold Py_ISSPACE, _PyLong_DigitValue.
  rewrite orb_true_iff, andb_true_iff, Z.eqb_eq, !Z.leb_le. intros Hsp.
  repeat match goal with
         | |- context [Z.leb ?a ?b] => destruct (Z.leb_spec a b); simpl; try lia
         end.
Qed.

(** A character with a digit value below 16 is a plain base-16 digit. *)
Lemma digit_value_hex (ch : Z) : _PyLong_DigitValue ch < 16 → is_hex_digit ch = true.
Proof.
  unfold _PyLong_DigitValue, is_hex_digit.
  repeat match goal with
         | |- context [Z.leb ?a ?b] => destruct (Z.leb_spec a b); simpl; try lia
         end; done.
Qed.

Lemma digits_after_digit (b : str) :
  digits_with_underscores false b = true → digits_with_underscores true b = true.
Proof. destruct b as [|c b]; [done|]. simpl. by destruct (c =? 95). Qed.

Lemma digits_head (b : str) :
  digits_with_underscores false b = true →
  ∃ c b', b = c :: b' ∧ is_hex_digit c = true.
Proof.
  destruct b as [|c b]; [done|]. simpl. destruct (c =? 95); [done|].
  intros [Hc _]%andb_true_iff. eauto.
Qed.

(** The scan reads the digits and stops at the white space behind
    them. *)
Lemma long_from_binary_base_body (prev acc : Z) (b ws : str) :
  digits_with_underscores (negb (prev =? 95)) b = true →
  forallb Py_ISSPACE ws = true →
  long_from_binary_base 16 prev acc (b ++ ws)
  = Some (foldl (λ acc ch, acc * 16 + _PyLong_DigitValue ch) acc
            (List.filter (λ ch, negb (ch =? 95)) b), ws).
Proof.
  revert prev acc. induction b as [|c b IH]; intros prev acc Hb Hws; simpl in *.
  - apply negb_true_iff in Hb.
    destruct ws as [|w ws]; simpl; [by rewrite Hb|].
    simpl in Hws. apply andb_true_iff in Hws as [Hw _].
    apply space_facts in Hw as (_ & Hu & _ & _ & Hd).
    destruct (Z.eqb_spec w 95); [done|].
    destruct (Z.ltb_spec (_PyLong_DigitValue w) 16); [lia|]. by rewrite Hb.
  - destruct (Z.eqb_spec c 95) as [->|Hc]; simpl.
    + apply andb_true_iff in Hb as [Hp Hb]. apply negb_true_iff in Hp. rewrite Hp.
      by apply IH.
    + apply andb_true_iff in Hb as [Hd Hb].
      apply is_hex_digit_facts in Hd as (Hd & _).
      destruct (Z.ltb_spec (_PyLong_DigitValue c) 16); [|lia].
      apply IH; [|done]. by destruct (Z.eqb_spec c 95).
Qed.

Lemma prefixed_body (px b ws : str) :
  px ∈ hex_prefixes_with_underscore → digits_with_underscores false b = true →
  forallb Py_ISSPACE ws = true →
  skip_prefix16 (px ++ b ++ ws) = b ++ ws
  ∧ skip_spaces (px ++ b ++ ws) = px ++ b ++ ws
  ∧ parse_sign (px ++ b ++ ws) = (1, px ++ b ++ ws).
Proof.
  intros Hpx Hb Hws. destruct (digits_head b Hb) as (c & b' & -> & Hc).
  pose proof (is_hex_digit_facts c Hc) as (Hd & Hu & _ & Hsp & Hp & Hm & Hx & HX).
  unfold hex_prefixes_with_underscore in Hpx. rewrite !elem_of_cons in Hpx.
  destruct Hpx as [->|[->|[->|[->|[->|Hpx]]]]]; [|..|by apply elem_of_nil in Hpx];
    try (simpl; by destruct (Z.eqb_spec c 95)); try done.
  split.
  - unfold skip_prefix16. simpl.
    assert (∀ c1 s', b' ++ ws = c1 :: s' → c1 ≠ 120 ∧ c1 ≠ 88) as Hnext.
    { intros c1 s' Hs. destruct b' as [|d b']; simpl in Hs.
      - subst ws. simpl in Hws. apply andb_true_iff in Hws as [Hw _].
        apply space_facts in Hw. lia.
      - injection Hs as Hd1 _. subst d. simpl in Hb.
        destruct (Z.eqb_spec c 95); [done|].
        apply andb_true_iff in Hb as [_ Hb].
        destruct (Z.eqb_spec c1 95) as [E|_]; [lia|].
        apply andb_true_iff in Hb as [Hd1 _].
        apply is_hex_digit_facts in Hd1. lia. }
    destruct (b' ++ ws) as [|c1 s']; [done|].
    destruct (Hnext c1 s' eq_refl) as [Hx1 HX1].
    destruct (Z.eqb_spec c1 120); [done|]. destruct (Z.eqb_spec c1 88); [done|].
    by rewrite andb_false_r.
  - simpl. rewrite Hsp.
    destruct (Z.eqb_spec c 43); [done|]. by destruct (Z.eqb_spec c 45).
Qed.

Lemma PyLong_FromString16_complete (t : str) (n : Z) :
  hex_literal t n → PyLong_FromString16 t = Some n.
Proof.
  intros (ws1 & sg & k & px & b & ws2 & -> & Hws1 & Hws2 & Hsg & Hpx & Hb & ->).
  destruct (prefixed_body px b ws2 Hpx Hb Hws2) as (Hpre & Hskip & Hsign).
  unfold PyLong_FromString16. rewrite skip_spaces_app by done.
  assert (parse_sign (skip_spaces (sg ++ px ++ b ++ ws2)) = (k, px ++ b ++ ws2)) as ->.
  { unfold int_signs in Hsg. rewrite !elem_of_cons in Hsg.
    destruct Hsg as [[= -> ->]|[[= -> ->]|[[= -> ->]|Hsg]]];
      [|done..|by apply elem_of_nil in Hsg].
    simpl. by rewrite Hskip. }
  rewrite Hpre.
  destruct (digits_head b Hb) as (c & b' & -> & Hc).
  rewrite bool_decide_eq_false_2.
  2: { apply is_hex_digit_facts in Hc. simpl. intros [= ->]. lia. }
  rewrite (long_from_binary_base_body 0 0 (c :: b') ws2)
    by (try done; by apply digits_after_digit).
  destruct (Nat.eqb_spec (length ws2) (length ((c :: b') ++ ws2))) as [Hl|_].
  { rewrite length_app in Hl. simpl in Hl. lia. }
  by rewrite skip_spaces_all.
Qed.

Lemma skip_spaces_split (t : str) :
  ∃ ws, t = ws ++ skip_spaces t ∧ forallb Py_ISSPACE ws = true.
Proof.
  induction t as [|c t (ws & Ht & Hws)]; [by exists []|]. simpl.
  destruct (Py_ISSPACE c) eqn:Hc; [|by exists []].
  exists (c :: ws). simpl. rewrite Hc, Hws. split; [by f_equal|done].
Qed.

Lemma skip_spaces_blank (s : str) : skip_spaces s = [] → forallb Py_ISSPACE s = true.
Proof.
  intros Hs. apply forallb_forall. intros ch Hin.
  apply (skip_spaces_nil s); [done|by apply list_elem_of_In].
Qed.

Lemma parse_sign_split (s s' : str) (k : Z) :
  parse_sign s = (k, s') → ∃ sg, (sg, k) ∈ int_signs ∧ s = sg ++ s'.
Proof.
  intros [[-> ->]|[[-> ->]|[-> ->]]]%parse_sign_cases;
    [exists []|exists (lit "+")|exists (lit "-")];
    (split; [by repeat constructor|done]).
Qed.

Lemma skip_prefix16_split (s : str) :
  ∃ px, px ∈ hex_prefixes_with_underscore ∧ s = px ++ skip_prefix16 s.
Proof.
  unfold skip_prefix16.
  destruct s as [|c0 [|c1 s']]; [exists []; split; [by repeat constructor|done]..|].
  destruct (Z.eqb_spec c0 48) as [->|_];
    [|exists []; split; [by repeat constructor|done]].
  destruct (Z.eqb_spec c1 120) as [->|_]; simpl.
  { destruct s' as [|c2 s'']; [exists (lit "0x"); split; [by repeat constructor|done]|].
    destruct (Z.eqb_spec c2 95) as [->|_];
      [exists (lit "0x_")|exists (lit "0x")]; (split; [by repeat constructor|done]). }
  destruct (Z.eqb_spec c1 88) as [->|_]; simpl.
  { destruct s' as [|c2 s'']; [exists (lit "0X"); split; [by repeat constructor|done]|].
    destruct (Z.eqb_spec c2 95) as [->|_];
      [exists (lit "0X_")|exists (lit "0X")]; (split; [by repeat constructor|done]). }
  exists []. split; [by repeat constructor|done].
Qed.

(** What the scan has read is a run of digits with single underscores
    between them, and the number is the one the digits write. *)
Lemma long_from_binary_base_read (prev acc : Z) (p : str) (z : Z) (rest : str) :
  long_from_binary_base 16 prev acc p = Some (z, rest) →
  ∃ b, p = b ++ rest
       ∧ digits_with_underscores (negb (prev =? 95)) b = true
       ∧ z = foldl (λ acc ch, acc * 16 + _PyLong_DigitValue ch) acc
               (List.filter (λ ch, negb (ch =? 95)) b).
Proof.
  revert prev acc. induction p as [|c p IH]; intros prev acc Hs; simpl in Hs.
  - destruct (prev =? 95) eqn:Hp; [done|]. injection Hs as <- <-.
    by exists [].
  - destruct (Z.eqb_spec c 95) as [->|Hc].
    + destruct (prev =? 95) eqn:Hp; [done|].
      destruct (IH _ _ Hs) as (b & -> & Hb & ->).
      exists (95 :: b). change (negb (95 =? 95)) with false in Hb.
      simpl. by rewrite Hb.
    + destruct (Z.ltb_spec (_PyLong_DigitValue c) 16) as [Hd|Hd].
      * destruct (IH _ _ Hs) as (b & -> & Hb & ->).
        exists (c :: b). simpl.
        destruct (Z.eqb_spec c 95); [done|]. simpl in Hb.
        by rewrite (digit_value_hex c Hd), Hb.
      * destruct (prev =? 95) eqn:Hp; [done|]. injection Hs as <- <-.
        by exists [].
Qed.

Lemma PyLong_FromString16_sound (t : str) (n : Z) :
  PyLong_FromString16 t = Some n → hex_literal t n.
Proof.
  unfold PyLong_FromString16.
  destruct (skip_spaces_split t) as (ws1 & Ht & Hws1).
  destruct (parse_sign (skip_spaces t)) as [k s2] eqn:Hsign.
  apply parse_sign_split in Hsign as (sg & Hsg & Hs1).
  destruct (skip_prefix16_split s2) as (px & Hpx & Hs2).
  destruct (bool_decide (head (skip_prefix16 s2) = Some 95)) eqn:Hu; [done|].
  apply bool_decide_eq_false in Hu.
  destruct (long_from_binary_base 16 0 0 (skip_prefix16 s2)) as [[z rest]|] eqn:Hscan;
    [|done].
  apply long_from_binary_base_read in Hscan as (b & Hs3 & Hb & ->).
  destruct (Nat.eqb_spec (length rest) (length (skip_prefix16 s2))) as [|Hlen]; [done|].
  destruct (skip_spaces rest) eqn:Hrest; [|done]. intros [= <-].
  exists ws1, sg, k, px, b, rest.
  split; [by rewrite Ht at 1; rewrite Hs1, Hs2 at 1; rewrite Hs3 at 1|].
  split; [done|]. split; [by apply skip_spaces_blank|]. split; [done|]. split; [done|].
  split; [|done].
  rewrite Hs3 in Hu, Hlen. destruct b as [|c b]; [done|].
  simpl in *. destruct (Z.eqb_spec c 95) as [->|_]; [done|]. done.
Qed.

(** X1. Which strings of characters below U+0080 the hexadecimal
    validators accept. [int(_, 16)] reads such a string as [n] exactly
    when it is a literal of [n]: white space, an optional sign, an
    optional prefix [0x] or [0X] with an optional underscore behind it,
    plain base-16 digits with single underscores between them, and white
    space; [n] is the number the digits write, negated behind a minus
    sign. For a literal of [n], an amount of a [LiquidationEventData] is
    the decimal of [n] and an accumulator is [n] divided by
    [Decimal("1e27")]; for a string that is no literal, both validators
    raise a [ValueError]. *)
Theorem hex_literal_iff `{UnicodeData} (name : string) (fl : Flags) (v : str) :
  forallb (λ ch, ch <? 128) v = true →
  (∀ n, int16 v = Some n ↔ hex_literal v n)
  ∧ (∀ n, hex_literal v n →
       LiquidationEventData.validate_valid_numbers name v fl
       = (Return (Decimal_of_int n), fl)
       ∧ DataAccumulatorsSyncEvent.hex_to_decimal v fl
         = Decimal_truediv (Decimal_of_int n) Decimal_1e27 fl)
  ∧ ((∀ n, ¬ hex_literal v n) →
       LiquidationEventData.validate_valid_numbers name v fl
       = (Raise (ValueError
                   (Text (lit name ++ lit " field is not a valid hexadecimal number"))),
          fl)
       ∧ DataAccumulatorsSyncEvent.hex_to_decimal v fl
         = (Raise (ValueError (InvalidLiteralForInt 16 v)), fl)).
Proof.
  intros Hascii.
  assert (∀ n, int16 v = Some n ↔ hex_literal v n) as Hiff.
  { intros n. unfold int16, _PyUnicode_TransformDecimalAndSpaceToASCII.
    rewrite Hascii. split.
    - apply PyLong_FromString16_sound.
    - apply PyLong_FromString16_complete. }
  split; [exact Hiff|]. split.
  - intros n Hn%Hiff. split; [by apply validate_valid_numbers_accepts|].
    unfold DataAccumulatorsSyncEvent.hex_to_decimal, bind, int_base16. by rewrite Hn.
  - intros Hno. assert (int16 v = None) as Hv.
    { destruct (int16 v) as [n|] eqn:Hn; [|done]. destruct (Hno n). by apply Hiff. }
    split; [by apply validate_valid_numbers_rejects|].
    unfold DataAccumulatorsSyncEvent.hex_to_decimal, bind, int_base16. by rewrite Hv.
Qed.

(** X1 at [" -0x_1_F\n"], a literal of -31. *)
Lemma hex_literal_iff_witness :
  let v := lit " -0x_1_F" ++ [10] in
  forallb (λ ch, ch <? 128) v = true
  ∧ hex_literal v (-31)
  ∧ (∀ n, @int16 ucd_latin1 v = Some n ↔ hex_literal v n)
  ∧ (∀ n, hex_literal v n →
       @LiquidationEventData.validate_valid_numbers ucd_latin1 "debt_raw_amount" v no_flags
       = (Return (Decimal_of_int n), no_flags)
       ∧ @DataAccumulatorsSyncEvent.hex_to_decimal ucd_latin1 DefaultContext v no_flags
         = Decimal_truediv (Decimal_of_int n) Decimal_1e27 no_flags)
  ∧ ((∀ n, ¬ hex_literal v n) →
       @LiquidationEventData.validate_valid_numbers ucd_latin1 "debt_raw_amount" v no_flags
       = (Raise (ValueError
                   (Text (lit "debt_raw_amount"
                          ++ lit " field is not a valid hexadecimal number"))),
          no_flags)
       ∧ @DataAccumulatorsSyncEvent.hex_to_decimal ucd_latin1 DefaultContext v no_flags
         = (Raise (ValueError (InvalidLiteralForInt 16 v)), no_flags)).
Proof.
  intros v. split; [reflexivity|]. split.
  { exists (lit " "), (lit "-"), (-1), (lit "0x_"), (lit "1_F"), [10].
    split; [reflexivity|]. split; [reflexivity|]. split; [reflexivity|].
    split; [by repeat constructor|]. split; [by repeat constructor|].
    split; reflexivity. }
  apply (@hex_literal_iff ucd_latin1 "debt_raw_amount" no_flags v). reflexivity.
Defined.

(** ** Plain literals *)

(** A string of [k] plain digits writes a number below [16^k]. *)
Lemma hex_value_bounds (ds : str) :
  forallb is_hex_digit ds = true → 0 <= hex_value ds < 16 ^ Z.of_nat (length ds).
Proof.
  unfold hex_value. intros Hds.
  assert (∀ acc, 0 <= acc →
            0 <= foldl (λ acc ch, acc * 16 + _PyLong_DigitValue ch) acc ds
            < (acc + 1) * 16 ^ Z.of_nat (length ds)) as Hgen.
  { induction ds as [|c ds IH]; intros acc Hacc; simpl foldl.
    - simpl. lia.
    - simpl in Hds. apply andb_true_iff in Hds as [Hc Hds].
      apply is_hex_digit_facts in Hc as (Hd & _).
      pose proof (digit_value_nonneg c).
      specialize (IH Hds (acc * 16 + _PyLong_DigitValue c) ltac:(lia)).
      rewrite length_cons, Nat2Z.inj_succ, Z.pow_succ_r by lia.
      assert (0 < 16 ^ Z.of_nat (length ds)) by (apply Z.pow_pos_nonneg; lia).
      nia. }
  specialize (Hgen 0 ltac:(lia)). lia.
Qed.

(** A run of plain digits is the digits of a literal, with no underscore
    to leave out. *)
Lemma plain_digits (ds : str) :
  ds ≠ [] → forallb is_hex_digit ds = true →
  digits_with_underscores false ds = true
  ∧ List.filter (λ ch, negb (ch =? 95)) ds = ds.
Proof.
  intros Hne Hds.
  assert (digits_with_underscores true ds = true
          ∧ List.filter (λ ch, negb (ch =? 95)) ds = ds) as [Hd Hf].
  { clear Hne. induction ds as [|c ds IH]; [done|]. simpl in *.
    apply andb_true_iff in Hds as [Hc Hds]. destruct (IH Hds) as [Hd Hf].
    pose proof (is_hex_digit_facts c Hc) as (_ & Hu & _).
    destruct (Z.eqb_spec c 95); [done|]. simpl. by rewrite Hc, Hd, Hf. }
  split; [|done]. destruct ds as [|c ds]; [done|]. simpl in *.
  apply andb_true_iff in Hds as [Hc _].
  apply is_hex_digit_facts in Hc as (_ & Hu & _).
  by destruct (Z.eqb_spec c 95).
Qed.

Lemma literal_is_ascii (ws1 sg px ds ws2 : str) (k : Z) :
  forallb Py_ISSPACE ws1 = true → forallb Py_ISSPACE ws2 = true →
  (sg, k) ∈ int_signs → px ∈ hex_prefixes → forallb is_hex_digit ds = true →
  forallb (λ ch, ch <? 128) (ws1 ++ sg ++ px ++ ds ++ ws2) = true.
Proof.
  intros Hws1 Hws2 Hsg Hpx Hds. rewrite !forallb_app.
  assert (∀ ws, forallb Py_ISSPACE ws = true → forallb (λ ch, ch <? 128) ws = true) as Hsp.
  { intros ws Hws. apply forallb_forall. intros ch Hin.
    rewrite forallb_forall in Hws. apply Hws, space_facts in Hin. lia. }
  rewrite (Hsp ws1), (Hsp ws2) by done.
  assert (forallb (λ ch, ch <? 128) ds = true) as ->.
  { apply forallb_forall. intros ch Hin.
    rewrite forallb_forall in Hds. apply Hds, is_hex_digit_facts in Hin. lia. }
  unfold int_signs in Hsg. unfold hex_prefixes in Hpx.
  rewrite !elem_of_cons in Hsg. rewrite !elem_of_cons in Hpx.
  destruct Hsg as [[= -> ->]|[[= -> ->]|[[= -> ->]|Hsg]]]; [|..|by apply elem_of_nil in Hsg];
    (destruct Hpx as [->|[->|[->|Hpx]]]; [|..|by apply elem_of_nil in Hpx]); reflexivity.
Qed.

(** X2. Both hexadecimal validators read a literal made of white space,
    an optional sign, an optional prefix [0x] or [0X], one or more plain
    base-16 digits and white space again: [int(_, 16)] accepts it with the
    number the digits write, which is below [16^k] for [k] digits, negated
    behind a minus sign; an amount of a [LiquidationEventData] is the
    decimal of that integer, and an accumulator is that integer divided by
    [Decimal("1e27")]. *)
Theorem hex_literal_accepted `{UnicodeData} (name : string) (fl : Flags)
    (ws1 sg px ds ws2 : str) (k : Z) :
  forallb Py_ISSPACE ws1 = true → forallb Py_ISSPACE ws2 = true →
  (sg, k) ∈ int_signs → px ∈ hex_prefixes →
  ds ≠ [] → forallb is_hex_digit ds = true →
  0 <= hex_value ds < 16 ^ Z.of_nat (length ds)
  ∧ int16 (ws1 ++ sg ++ px ++ ds ++ ws2) = Some (k * hex_value ds)
  ∧ LiquidationEventData.validate_valid_numbers name (ws1 ++ sg ++ px ++ ds ++ ws2) fl
    = (Return (Decimal_of_int (k * hex_value ds)), fl)
  ∧ DataAccumulatorsSyncEvent.hex_to_decimal (ws1 ++ sg ++ px ++ ds ++ ws2) fl
    = Decimal_truediv (Decimal_of_int (k * hex_value ds)) Decimal_1e27 fl.
Proof.
  intros Hws1 Hws2 Hsg Hpx Hne Hds.
  destruct (plain_digits ds Hne Hds) as [Hbody Hfilter].
  assert (int16 (ws1 ++ sg ++ px ++ ds ++ ws2) = Some (k * hex_value ds)) as Hint.
  { unfold int16, _PyUnicode_TransformDecimalAndSpaceToASCII.
    rewrite (literal_is_ascii ws1 sg px ds ws2 k) by done.
    apply PyLong_FromString16_complete.
    exists ws1, sg, k, px, ds, ws2. rewrite Hfilter. repeat (split; [done|]).
    split; [|done]. unfold hex_prefixes in Hpx.
    unfold hex_prefixes_with_underscore. rewrite !elem_of_cons in Hpx.
    rewrite !elem_of_cons. tauto. }
  split; [by apply hex_value_bounds|]. split; [done|]. split.
  - by apply validate_valid_numbers_accepts.
  - unfold DataAccumulatorsSyncEvent.hex_to_decimal, bind, int_base16. by rewrite Hint.
Qed.

(** X2 at [" -0x1F\n"], which is -31. *)
Lemma hex_literal_accepted_witness :
  forallb Py_ISSPACE (lit " ") = true
  ∧ forallb Py_ISSPACE [10] = true
  ∧ (lit "-", -1) ∈ int_signs
  ∧ lit "0x" ∈ hex_prefixes
  ∧ lit "1F" ≠ []
  ∧ forallb is_hex_digit (lit "1F") = true
  ∧ 0 <= hex_value (lit "1F") < 16 ^ Z.of_nat (length (lit "1F"))
  ∧ @int16 ucd_latin1 (lit " " ++ lit "-" ++ lit "0x" ++ lit "1F" ++ [10])
    = Some (-1 * hex_value (lit "1F"))
  ∧ @LiquidationEventData.validate_valid_numbers ucd_latin1 "debt_raw_amount"
      (lit " " ++ lit "-" ++ lit "0x" ++ lit "1F" ++ [10]) no_flags
    = (Return (Decimal_of_int (-1 * hex_value (lit "1F"))), no_flags)
  ∧ @DataAccumulatorsSyncEvent.hex_to_decimal ucd_latin1 DefaultContext
      (lit " " ++ lit "-" ++ lit "0x" ++ lit "1F" ++ [10]) no_flags
    = Decimal_truediv (Decimal_of_int (-1 * hex_value (lit "1F"))) Decimal_1e27 no_flags.
Proof.
  assert ((lit "-", -1) ∈ int_signs) as Hsg by (by repeat constructor).
  assert (lit "0x" ∈ hex_prefixes) as Hpx by (by repeat constructor).
  split; [reflexivity|]. split; [reflexivity|]. split; [exact Hsg|].
  split; [exact Hpx|]. split; [done|]. split; [reflexivity|].
  apply (@hex_literal_accepted ucd_latin1 "debt_raw_amount" no_flags
           (lit " ") (lit "-") (lit "0x") (lit "1F") [10] (-1));
    [reflexivity|reflexivity|exact Hsg|exact Hpx|done|reflexivity].
Defined.

(** ** Characters that [int(value, 16)] rejects *)

Lemma outside_alphabet (ch : Z) :
  int16_alphabet ch = false →
  Py_ISSPACE ch = false ∧ ch ≠ 43 ∧ ch ≠ 45 ∧ ch ≠ 120 ∧ ch ≠ 88
  ∧ ch ≠ 95 ∧ 16 <= _PyLong_DigitValue ch.
Proof.
  unfold int16_alphabet. rewrite !orb_false_iff, !Z.eqb_neq.
  intros ((((((Hh & Hsp) & Hp) & Hm) & Hx) & HX) & Hu).
  repeat (split; [done|]).
  revert Hh. unfold is_hex_digit, _PyLong_DigitValue.
  repeat match goal with
         | |- context [Z.leb ?a ?b] => destruct (Z.leb_spec a b); simpl; try lia
         end; done.
Qed.

(** A buffer with a character outside the alphabet of a base-16 literal
    is not parsed. *)
Lemma PyLong_FromString16_stray (t : str) (ch : Z) :
  ch ∈ t → int16_alphabet ch = false → PyLong_FromString16 t = None.
Proof.
  intros Hin Hch.
  destruct (PyLong_FromString16 t) as [n|] eqn:Hp; [|done].
  apply outside_alphabet in Hch as (Hsp & Hplus & Hm & Hx & HX & Hu & Hd).
  apply PyLong_FromString16_sign in Hp as [_ Hs].
  by destruct (Hs ch Hin Hsp Hplus Hu Hx HX Hd) as [? _].
Qed.

Lemma int16_stray `{UnicodeData} (v : str) (ch : Z) :
  ch ∈ v → ch < 127 → int16_alphabet ch = false → int16 v = None.
Proof.
  intros Hin Hlt Hch. unfold int16, _PyUnicode_TransformDecimalAndSpaceToASCII.
  destruct (forallb _ v).
  - by apply (PyLong_FromString16_stray v ch).
  - destruct (transform_to_ascii_keeps v ch Hin Hlt) as [Hk|Hk].
    + by apply (PyLong_FromString16_stray _ ch).
    + by apply (PyLong_FromString16_stray _ 63).
Qed.

(** X3. A string with a character below U+007F that is neither a plain
    base-16 digit, nor white space, a sign, [x], [X] or an underscore, is
    rejected by [int(_, 16)] wherever the character stands. For an amount
    of a [LiquidationEventData] the validator raises its own [ValueError],
    which names the field; [hex_to_decimal], which catches nothing, raises
    the [ValueError] of [int()], which quotes the string. *)
Theorem stray_character_rejected `{UnicodeData} (name : string) (fl : Flags)
    (v : str) (ch : Z) :
  ch ∈ v → ch < 127 → int16_alphabet ch = false →
  int16 v = None
  ∧ LiquidationEventData.validate_valid_numbers name v fl
    = (Raise (ValueError
                (Text (lit name ++ lit " field is not a valid hexadecimal number"))), fl)
  ∧ DataAccumulatorsSyncEvent.hex_to_decimal v fl
    = (Raise (ValueError (InvalidLiteralForInt 16 v)), fl).
Proof.
  intros Hin Hlt Hch. pose proof (int16_stray v ch Hin Hlt Hch) as Hv.
  split; [done|]. split; [by apply validate_valid_numbers_rejects|].
  unfold DataAccumulatorsSyncEvent.hex_to_decimal, bind, int_base16. by rewrite Hv.
Qed.

(** X3 at ["12g4"], with the stray [g]. *)
Lemma stray_character_rejected_witness :
  103 ∈ lit "12g4"
  ∧ 103 < 127
  ∧ int16_alphabet 103 = false
  ∧ @int16 ucd_latin1 (lit "12g4") = None
  ∧ @LiquidationEventData.validate_valid_numbers ucd_latin1 "collateral_amount"
      (lit "12g4") no_flags
    = (Raise (ValueError
                (Text (lit "collateral_amount"
                       ++ lit " field is not a valid hexadecimal number"))), no_flags)
  ∧ @DataAccumulatorsSyncEvent.hex_to_decimal ucd_latin1 DefaultContext (lit "12g4") no_flags
    = (Raise (ValueError (InvalidLiteralForInt 16 (lit "12g4"))), no_flags).
Proof.
  assert (103 ∈ lit "12g4") as Hin by (by repeat constructor).
  split; [exact Hin|]. split; [lia|]. split; [reflexivity|].
  apply (@stray_character_rejected ucd_latin1 "collateral_amount" no_flags
           (lit "12g4") 103); [exact Hin|lia|reflexivity].
Defined.

(** ** Strings without a digit *)

(** A literal has a digit. *)
Lemma hex_literal_digit (t : str) (n : Z) :
  hex_literal t n → ∃ ch, ch ∈ t ∧ is_hex_digit ch = true.
Proof.
  intros (ws1 & sg & k & px & b & ws2 & -> & _ & _ & _ & _ & Hb & _).
  destruct (digits_head b Hb) as (c & b' & -> & Hc). exists c. split; [|done].
  rewrite !elem_of_app, elem_of_cons. tauto.
Qed.

(** X4. A string of characters below U+0080 none of which is a plain
    base-16 digit (the empty string, blanks, a sign or an underscore on
    its own) is rejected by [int(_, 16)]: an amount of a
    [LiquidationEventData] gets the [ValueError] of its validator, and an
    accumulator the [ValueError] of [int()]. *)
Theorem no_digit_rejected `{UnicodeData} (name : string) (fl : Flags) (v : str) :
  forallb (λ ch, ch <? 128) v = true →
  forallb (λ ch, negb (is_hex_digit ch)) v = true →
  int16 v = None
  ∧ LiquidationEventData.validate_valid_numbers name v fl
    = (Raise (ValueError
                (Text (lit name ++ lit " field is not a valid hexadecimal number"))), fl)
  ∧ DataAccumulatorsSyncEvent.hex_to_decimal v fl
    = (Raise (ValueError (InvalidLiteralForInt 16 v)), fl).
Proof.
  intros Hascii Hnone.
  assert (int16 v = None) as Hv.
  { unfold int16, _PyUnicode_TransformDecimalAndSpaceToASCII. rewrite Hascii.
    destruct (PyLong_FromString16 v) as [n|] eqn:Hp; [|done].
    apply PyLong_FromString16_sound, hex_literal_digit in Hp as (ch & Hin & Hd).
    rewrite forallb_forall in Hnone. apply list_elem_of_In, Hnone in Hin.
    by rewrite Hd in Hin. }
  split; [done|]. split; [by apply validate_valid_numbers_rejects|].
  unfold DataAccumulatorsSyncEvent.hex_to_decimal, bind, int_base16. by rewrite Hv.
Qed.

(** X4 at the empty string. *)
Lemma no_digit_rejected_witness :
  forallb (λ ch, ch <? 128) (lit "") = true
  ∧ forallb (λ ch, negb (is_hex_digit ch)) (lit "") = true
  ∧ @int16 ucd_latin1 (lit "") = None
  ∧ @LiquidationEventData.validate_valid_numbers ucd_latin1 "debt_face_amount"
      (lit "") no_flags
    = (Raise (ValueError
                (Text (lit "debt_face_amount"
                       ++ lit " field is not a valid hexadecimal number"))), no_flags)
  ∧ @DataAccumulatorsSyncEvent.hex_to_decimal ucd_latin1 DefaultContext (lit "") no_flags
    = (Raise (ValueError (InvalidLiteralForInt 16 (lit ""))), no_flags).
Proof.
  split; [reflexivity|]. split; [reflexivity|].
  apply (@no_digit_rejected ucd_latin1 "debt_face_amount" no_flags (lit ""));
    reflexivity.
Defined.

(** ** Construction of a [DataAccumulatorsSyncEvent] *)

(** An accumulator that divides without overflow is a decimal, the same
    from every state of the context. *)
Lemma hex_to_decimal_returns `{UnicodeData} (h : str) (n : Z) :
  int16 h = Some n → ndigits (Z.abs n) <= 1000026 →
  ∃ d, ∀ fl, ∃ fl', DataAccumulatorsSyncEvent.hex_to_decimal h fl = (Return d, fl').
Proof.
  intros Hh HL.
  destruct (writes_only_hex_to_decimal h) as (r & sigs & Hr).
  assert (∃ d, r = Return d) as [d ->].
  { specialize (Hr no_flags).
    destruct (Z.lt_ge_cases (Z.abs n) (10 ^ 28)) as [Hn|Hn].
    - rewrite (hex_to_decimal_exact h n no_flags Hh Hn) in Hr.
      injection Hr as <- _. eauto.
    - destruct (hex_to_decimal_rounded h n no_flags Hh Hn HL) as (d & fl' & Hd & _).
      rewrite Hd in Hr. injection Hr as <- _. eauto. }
  exists d. intros fl. rewrite Hr. eauto.
Qed.

Lemma hex_to_decimal_rejects `{UnicodeData} (h : str) (fl : Flags) :
  int16 h = None →
  DataAccumulatorsSyncEvent.hex_to_decimal h fl
  = (Raise (ValueError (InvalidLiteralForInt 16 h)), fl).
Proof.
  intros Hh. unfold DataAccumulatorsSyncEvent.hex_to_decimal, bind, int_base16.
  by rewrite Hh.
Qed.

(** What an accumulator field contributes: its value, or its line
    error. *)
Lemma accumulator_field `{UnicodeData} (raw : raw_mapping) (name : string) (fl : Flags) :
  name ∈ accumulator_fields → quotient_in_range raw →
  ∃ o fl',
    field name DataAccumulatorsSyncEvent.hex_to_decimal raw fl
    = (inr (o, accumulator_errors raw name), fl')
    ∧ match o with
      | Some d =>
          accumulator_errors raw name = [] ∧
          ∃ h, raw !! name = Some h ∧
               ∀ fl0, (DataAccumulatorsSyncEvent.hex_to_decimal h fl0).1 = Return d
      | None => accumulator_errors raw name ≠ []
      end.
Proof.
  intros Hname Hrange. unfold field, accumulator_errors.
  destruct (raw !! name) as [h|] eqn:Hraw; [|by eexists None, _].
  destruct (int16 h) as [n|] eqn:Hh.
  - destruct (hex_to_decimal_returns h n Hh (Hrange name h n Hname Hraw Hh)) as [d Hd].
    destruct (Hd fl) as [fl' Hfl]. rewrite Hfl. exists (Some d), fl'.
    split; [done|]. split; [done|]. exists h. split; [done|].
    intros fl0. destruct (Hd fl0) as [fl0' ->]. done.
  - rewrite (hex_to_decimal_rejects h fl Hh). by eexists None, _.
Qed.

(** X5. Construction of a [DataAccumulatorsSyncEvent] from accumulators
    that divide without overflow ends in a record or in a validation
    error, never in another exception. The record keeps the token as the
    input has it, with no check of a prefix and no padding, and holds for
    each accumulator what [hex_to_decimal] returns. The validation error
    has one line error for each field that is absent and for each
    accumulator [int(_, 16)] rejects, in the order of declaration; the text
    of the latter is the text of [int()], the validator adding none of its
    own. *)
Theorem accumulators_outcome `{UnicodeData} (raw : raw_mapping) (fl : Flags) :
  quotient_in_range raw →
  ∃ o fl',
    DataAccumulatorsSyncEvent.model_validate raw fl = (o, fl')
    ∧ match o with
      | Constructed r =>
          ∃ hl hd,
            raw !! "token" = Some (DataAccumulatorsSyncEvent.token r)
            ∧ raw !! "lending_accumulator" = Some hl
            ∧ raw !! "debt_accumulator" = Some hd
            ∧ (∀ fl0, (DataAccumulatorsSyncEvent.hex_to_decimal hl fl0).1
                      = Return (DataAccumulatorsSyncEvent.lending_accumulator r))
            ∧ (∀ fl0, (DataAccumulatorsSyncEvent.hex_to_decimal hd fl0).1
                      = Return (DataAccumulatorsSyncEvent.debt_accumulator r))
      | ValidationError errs =>
          errs ≠ []
          ∧ errs = token_errors raw
                   ++ accumulator_errors raw "lending_accumulator"
                   ++ accumulator_errors raw "debt_accumulator"
      | Propagated _ => False
      end.
Proof.
  intros Hrange.
  assert ("lending_accumulator" ∈ accumulator_fields) as Hl by (apply elem_of_cons; by left).
  assert ("debt_accumulator" ∈ accumulator_fields) as Hd
    by (apply elem_of_cons; right; apply elem_of_cons; by left).
  unfold DataAccumulatorsSyncEvent.model_validate, validate_model.
  unfold ap at 1. unfold ap at 1. unfold ap at 1. unfold pure.
  unfold field at 1. unfold token_errors.
  destruct (raw !! "token") as [tk|] eqn:Htk; unfold ret;
    destruct (accumulator_field raw "lending_accumulator" fl Hl Hrange)
      as (ol & fl1 & -> & Hol);
    destruct (accumulator_field raw "debt_accumulator" fl1 Hd Hrange)
      as (od & fl2 & -> & Hod);
    destruct ol as [dl|], od as [dd|];
    repeat match goal with
           | H : _ ∧ _ |- _ => destruct H as [? ?]
           | H : ∃ _, _ |- _ => destruct H as [? ?]
           end;
    repeat match goal with
           | H : accumulator_errors _ _ = [] |- _ => rewrite H
           end; simpl.
  - eexists _, _. split; [done|]. simpl. eauto 10.
  - destruct (accumulator_errors raw "debt_accumulator") eqn:E; [done|].
    eexists _, _. split; [done|]. done.
  - destruct (accumulator_errors raw "lending_accumulator") eqn:E; [done|].
    eexists _, _. split; [done|]. simpl. by rewrite app_nil_r.
  - destruct (accumulator_errors raw "lending_accumulator") eqn:E; [done|].
    eexists _, _. split; [done|]. done.
  - eexists _, _. split; [done|]. done.
  - eexists _, _. split; [done|]. done.
  - eexists _, _. split; [done|]. done.
  - eexists _, _. split; [done|]. done.
Qed.

(** X5 at a token that is no address, with the accumulators [10^27] and
    [10^27 + 1]. *)
Lemma accumulators_outcome_witness :
  let raw : raw_mapping :=
    {[ "token" := lit "not an address";
       "lending_accumulator" := lit "0x33b2e3c9fd0803ce8000000";
       "debt_accumulator" := lit "33b2e3c9fd0803ce8000001" ]} in
  @quotient_in_range ucd_latin1 raw
  ∧ ∃ o fl',
      @DataAccumulatorsSyncEvent.model_validate ucd_latin1 DefaultContext raw no_flags = (o, fl')
      ∧ match o with
        | Constructed r =>
            ∃ hl hd,
              raw !! "token" = Some (DataAccumulatorsSyncEvent.token r)
              ∧ raw !! "lending_accumulator" = Some hl
              ∧ raw !! "debt_accumulator" = Some hd
              ∧ (∀ fl0, (@DataAccumulatorsSyncEvent.hex_to_decimal ucd_latin1 DefaultContext hl fl0).1
                        = Return (DataAccumulatorsSyncEvent.lending_accumulator r))
              ∧ (∀ fl0, (@DataAccumulatorsSyncEvent.hex_to_decimal ucd_latin1 DefaultContext hd fl0).1
                        = Return (DataAccumulatorsSyncEvent.debt_accumulator r))
        | ValidationError errs =>
            errs ≠ []
            ∧ errs = token_errors raw
                     ++ @accumulator_errors ucd_latin1 raw "lending_accumulator"
                     ++ @accumulator_errors ucd_latin1 raw "debt_accumulator"
        | Propagated _ => False
        end.
Proof.
  intros raw.
  assert (@quotient_in_range ucd_latin1 raw) as Hrange.
  { intros name v n Hname Hraw Hint. unfold accumulator_fields in Hname.
    rewrite !elem_of_cons in Hname.
    destruct Hname as [->|[->|Hname]]; [..|by apply elem_of_nil in Hname];
      vm_compute in Hraw; injection Hraw as <-;
      vm_compute in Hint; injection Hint as <-;
      intros Hgt; vm_compute in Hgt; discriminate Hgt. }
  split; [exact Hrange|].
  exact (@accumulators_outcome ucd_latin1 raw no_flags Hrange).
Defined.

(** ** Accumulators beyond the exponent range *)

(** X6. A hexadecimal string whose integer has 1000028 decimal digits or
    more makes [hex_to_decimal] raise [decimal.Overflow]: the quotient by
    [10^27] is above the largest number of the default context. The flag
    [Overflow] is set. The exception is no [ValueError], and construction
    of a [DataAccumulatorsSyncEvent] with such a lending accumulator ends
    with it, whatever the other fields hold, and not with a validation
    error. *)
Theorem accumulator_overflow_escapes `{UnicodeData}
    (raw : raw_mapping) (h : str) (n : Z) (fl : Flags) :
  int16 h = Some n → 1000028 <= ndigits (Z.abs n) →
  (DataAccumulatorsSyncEvent.hex_to_decimal h fl).1 = Raise (DecimalException Overflow)
  ∧ flag Overflow (DataAccumulatorsSyncEvent.hex_to_decimal h fl).2 = true
  ∧ (∀ m, DecimalException Overflow ≠ ValueError m)
  ∧ (raw !! "lending_accumulator" = Some h →
     (DataAccumulatorsSyncEvent.model_validate raw fl).1
     = Propagated (DecimalException Overflow)).
Proof.
  intros Hh HL.
  assert (DataAccumulatorsSyncEvent.hex_to_decimal h fl
          = (Raise (DecimalException Overflow),
             set_flag Overflow (set_flag Rounded (set_flag Inexact fl)))) as Hd.
  { unfold DataAccumulatorsSyncEvent.hex_to_decimal, bind, int_base16.
    rewrite Hh. by apply truediv_1e27_overflow. }
  rewrite Hd. split; [done|]. split; [apply flag_set_flag|]. split; [done|].
  intros Hraw.
  unfold DataAccumulatorsSyncEvent.model_validate, validate_model.
  unfold ap at 1. unfold ap at 1.
  assert (∃ p, (pure DataAccumulatorsSyncEvent.Build_t <*> field "token" ret raw) fl
               = (inr p, fl)) as [[og errs] ->].
  { unfold ap, pure, field, ret. destruct (raw !! "token"); eauto. }
  unfold field at 1. by rewrite Hraw, Hd.
Qed.

Lemma replicate_zero_digits (k : nat) : forallb is_hex_digit (replicate k 48) = true.
Proof. induction k as [|k IH]; [done|]. simpl. by rewrite IH. Qed.

(** The digit 1 followed by [k] zeros writes [16^k]. *)
Lemma hex_value_one_zeros (k : nat) :
  hex_value (49 :: replicate k 48) = 16 ^ Z.of_nat k.
Proof.
  unfold hex_value. simpl foldl. change (0 * 16 + _PyLong_DigitValue 49) with 1.
  assert (∀ acc, foldl (λ acc ch, acc * 16 + _PyLong_DigitValue ch) acc (replicate k 48)
                 = acc * 16 ^ Z.of_nat k) as Hgen.
  { induction k as [|k IH]; intros acc; [simpl; lia|].
    rewrite Nat2Z.inj_succ, Z.pow_succ_r by lia. simpl foldl. rewrite IH.
    change (_PyLong_DigitValue 48) with 0. lia. }
  rewrite Hgen. lia.
Qed.

Lemma int16_one_zeros `{UnicodeData} (k : Z) :
  0 <= k → int16 (49 :: replicate (Z.to_nat k) 48) = Some (16 ^ k).
Proof.
  intros Hk. rewrite int16_plain_hex.
  - by rewrite hex_value_one_zeros, Z2Nat.id.
  - done.
  - simpl. apply replicate_zero_digits.
Qed.

Lemma ndigits_lower (n k : Z) : 0 <= k → 10 ^ k <= n → k + 1 <= ndigits n.
Proof.
  intros Hk Hn.
  assert (0 < n) as Hpos by (pose proof (pow10_pos k Hk); lia).
  destruct (ndigits_spec n Hpos) as [_ Hhi].
  pose proof (ndigits_pos n).
  assert (10 ^ k < 10 ^ ndigits n) as Hlt by lia.
  apply Z.pow_lt_mono_r_iff in Hlt; lia.
Qed.

(** [16^5] being above [10^6], the number [16^(5 k)] has more than [6 k]
    digits. *)
Lemma ndigits_pow16 (k : Z) : 0 <= k → 6 * k + 1 <= ndigits (Z.abs (16 ^ (5 * k))).
Proof.
  intros Hk. rewrite Z.abs_eq by (apply Z.pow_nonneg; lia).
  apply ndigits_lower; [lia|]. rewrite !Z.pow_mul_r by lia.
  apply Z.pow_le_mono_l. split; [by vm_compute|]. by vm_compute.
Qed.

(** X6 at the digit 1 followed by 850000 zeros, that is [16^850000], a
    number of more than 1020000 digits. *)
Lemma accumulator_overflow_witness :
  let h := 49 :: replicate (Z.to_nat (5 * 170000)) 48 in
  let n := 16 ^ (5 * 170000) in
  let raw : raw_mapping := {[ "lending_accumulator" := h ]} in
  @int16 ucd_latin1 h = Some n
  ∧ 1000028 <= ndigits (Z.abs n)
  ∧ (@DataAccumulatorsSyncEvent.hex_to_decimal ucd_latin1 DefaultContext h no_flags).1
    = Raise (DecimalException Overflow)
  ∧ flag Overflow (@DataAccumulatorsSyncEvent.hex_to_decimal ucd_latin1 DefaultContext h no_flags).2 = true
  ∧ (∀ m, DecimalException Overflow ≠ ValueError m)
  ∧ (raw !! "lending_accumulator" = Some h →
     (@DataAccumulatorsSyncEvent.model_validate ucd_latin1 DefaultContext raw no_flags).1
     = Propagated (DecimalException Overflow)).
Proof.
  intros h n raw.
  pose proof (@int16_one_zeros ucd_latin1 (5 * 170000) ltac:(done)) as Hh.
  assert (1000028 <= ndigits (Z.abs (16 ^ (5 * 170000)))) as HL.
  { apply (Z.le_trans _ (6 * 170000 + 1)); [done|]. by apply ndigits_pow16. }
  split; [exact Hh|]. split; [exact HL|].
  exact (@accumulator_overflow_escapes ucd_latin1 raw h n no_flags Hh HL).
Defined.

(** ** Rounding of the accumulators *)

(** A decimal with an exponent of -27 or more is a multiple of [10^-27]. *)
Lemma Decimal_value_units (d : Decimal) :
  -27 <= d_exp d →
  (Decimal_value d ==
   inject_Z ((if d_sign d then - d_int d else d_int d) * 10 ^ (d_exp d + 27))
   / inject_Z (10 ^ 27))%Q.
Proof.
  intros He. unfold Decimal_value. cbv zeta.
  remember (if d_sign d then - d_int d else d_int d) as m eqn:Em. clear Em.
  assert (¬ (inject_Z (10 ^ 27) == 0)%Q) as HD by done.
  destruct (Z.leb_spec 0 (d_exp d)) as [Hnn|Hneg].
  - assert (10 ^ (d_exp d + 27) = 10 ^ d_exp d * 10 ^ 27) as ->
      by (clear HD; apply Z.pow_add_r; lia).
    rewrite Z.mul_assoc, !inject_Z_mult. field. done.
  - assert (10 ^ 27 = 10 ^ (d_exp d + 27) * 10 ^ (- d_exp d)) as HP.
    { clear HD. rewrite <- Z.pow_add_r by lia. f_equal. lia. }
    assert (0 < 10 ^ (- d_exp d)) as Hp1 by (clear HD; apply pow10_pos; lia).
    assert (0 < 10 ^ (d_exp d + 27)) as Hp2 by (clear HD; apply pow10_pos; lia).
    rewrite HP, !inject_Z_mult.
    assert (¬ (inject_Z (10 ^ (- d_exp d)) == 0)%Q) as H1.
    { intros E. unfold Qeq in E. cbn [Qnum Qden inject_Z] in E. clear HD. lia. }
    assert (¬ (inject_Z (10 ^ (d_exp d + 27)) == 0)%Q) as H2.
    { intros E. unfold Qeq in E. cbn [Qnum Qden inject_Z] in E. clear HD H1. lia. }
    field. split; done.
Qed.

Lemma units_eq (a b : Z) :
  (inject_Z a / inject_Z (10 ^ 27) == inject_Z b / inject_Z (10 ^ 27))%Q ↔ a = b.
Proof.
  split; [|by intros ->].
  intros E. apply inject_Z_injective.
  apply (Qmult_inj_r _ _ (/ inject_Z (10 ^ 27))); [done|exact E].
Qed.

Lemma units_le (a b : Z) :
  a <= b → (inject_Z a / inject_Z (10 ^ 27) <= inject_Z b / inject_Z (10 ^ 27))%Q.
Proof.
  intros Hab. unfold Qdiv. apply Qmult_le_compat_r; [by rewrite <- Zle_Qle|done].
Qed.

Lemma ndigits_mono (a b : Z) : 0 < a → a <= b → ndigits a <= ndigits b.
Proof.
  intros Ha Hab.
  destruct (ndigits_spec a Ha) as [Ha1 _].
  destruct (ndigits_spec b ltac:(lia)) as [_ Hb2].
  destruct (Z.le_gt_cases (ndigits a) (ndigits b)) as [|Hgt]; [done|].
  assert (10 ^ ndigits b <= 10 ^ (ndigits a - 1)) by (apply Z.pow_le_mono_r; lia).
  lia.
Qed.

(** A number of more than 28 digits, rounded: it keeps its number of
    digits, or becomes the next power of ten. *)
Lemma rounded_bounds (c : Z) :
  10 ^ 28 <= c →
  10 ^ (ndigits c - 1)
  <= round_half_even c (ndigits c - 28) * 10 ^ (ndigits c - 28)
  <= 10 ^ ndigits c.
Proof.
  intros Hc. destruct (digits_over_28 c Hc) as (Hk & Hq & <- & <-).
  destruct (round_half_even_nearest c (ndigits c - 28)) as (HR & _);
    [pose proof (pow10_pos 28); lia|done|].
  pose proof (pow10_pos (ndigits c - 28) ltac:(lia)) as HK.
  split; apply Z.mul_le_mono_nonneg_r; lia.
Qed.

Lemma round_half_even_mono (c1 c2 k : Z) :
  1 <= k → c1 <= c2 → round_half_even c1 k <= round_half_even c2 k.
Proof.
  intros Hk Hc.
  pose proof (pow10_pos k ltac:(lia)) as HK.
  pose proof (Z.div_le_mono c1 c2 (10 ^ k) HK Hc) as Hq.
  pose proof (Z.div_mod c1 (10 ^ k) ltac:(lia)) as Hdm1.
  pose proof (Z.div_mod c2 (10 ^ k) ltac:(lia)) as Hdm2.
  unfold round_half_even.
  remember (c1 / 10 ^ k) as q1. remember (c2 / 10 ^ k) as q2.
  remember (c1 mod 10 ^ k) as r1. remember (c2 mod 10 ^ k) as r2.
  remember (5 * 10 ^ (k - 1)) as half.
  destruct (Z.eq_dec q1 q2) as [->|Hne].
  - assert (r1 <= r2) as Hr by lia.
    destruct (Z.eqb_spec r1 half), (Z.eqb_spec r2 half),
      (Z.leb_spec half r1), (Z.leb_spec half r2), (Z.even q2);
      cbn [andb negb]; lia.
  - destruct (negb ((r1 =? half) && Z.even q1) && (half <=? r1)),
      (negb ((r2 =? half) && Z.even q2) && (half <=? r2)); lia.
Qed.

Lemma quotient_units_mono (n1 n2 : Z) :
  n1 <= n2 → quotient_units n1 <= quotient_units n2.
Proof.
  assert (∀ c, 0 <= c →
            0 <= (if c <? 10 ^ 28 then c
                  else round_half_even c (ndigits c - 28) * 10 ^ (ndigits c - 28)))
    as Hnn.
  { intros c Hc. destruct (Z.ltb_spec c (10 ^ 28)) as [|Hge]; [done|].
    pose proof (rounded_bounds c Hge) as [Hlo _].
    pose proof (pow10_pos (ndigits c - 1)
                  ltac:(pose proof (ndigits_pos c); lia)). lia. }
  assert (∀ c1 c2, 0 <= c1 → c1 <= c2 →
            (if c1 <? 10 ^ 28 then c1
             else round_half_even c1 (ndigits c1 - 28) * 10 ^ (ndigits c1 - 28))
            <= (if c2 <? 10 ^ 28 then c2
                else round_half_even c2 (ndigits c2 - 28) * 10 ^ (ndigits c2 - 28)))
    as Hmono.
  { intros c1 c2 H1 H12.
    destruct (Z.ltb_spec c1 (10 ^ 28)) as [Hlt1|Hge1],
      (Z.ltb_spec c2 (10 ^ 28)) as [Hlt2|Hge2]; [done| |lia|].
    - pose proof (rounded_bounds c2 Hge2) as [Hlo _].
      destruct (digits_over_28 c2 Hge2) as (Hk & _ & _ & _).
      assert (10 ^ 28 <= 10 ^ (ndigits c2 - 1)) by (apply Z.pow_le_mono_r; lia).
      lia.
    - pose proof (rounded_bounds c1 Hge1) as [_ Hhi].
      pose proof (rounded_bounds c2 Hge2) as [Hlo _].
      pose proof (ndigits_mono c1 c2 ltac:(pose proof (pow10_pos 28); lia) H12) as HL.
      destruct (Z.eq_dec (ndigits c1) (ndigits c2)) as [E|Hne].
      + rewrite E. destruct (digits_over_28 c2 Hge2) as (Hk & _).
        apply Z.mul_le_mono_nonneg_r; [pose proof (pow10_pos (ndigits c2 - 28)); lia|].
        by apply round_half_even_mono.
      + assert (10 ^ ndigits c1 <= 10 ^ (ndigits c2 - 1))
          by (apply Z.pow_le_mono_r; lia).
        lia. }
  intros Hn. unfold quotient_units. cbv zeta.
  destruct (Z.le_gt_cases 0 n1) as [Hp1|Hneg1].
  - pose proof (Hmono (Z.abs n1) (Z.abs n2) ltac:(lia) ltac:(lia)) as Hm.
    pose proof (Hnn (Z.abs n1) ltac:(lia)) as H1.
    destruct (Z.eq_dec n1 0) as [->|Hnz]; [|].
    + pose proof (Hnn (Z.abs n2) ltac:(lia)) as H2.
      change (Z.sgn 0) with 0. rewrite Z.mul_0_l.
      destruct (Z.eq_dec n2 0) as [->|Hnz2]; [done|].
      rewrite (Z.sgn_pos n2) by lia. lia.
    + rewrite (Z.sgn_pos n1), (Z.sgn_pos n2) by lia. lia.
  - rewrite (Z.sgn_neg n1) by lia.
    pose proof (Hnn (Z.abs n1) ltac:(lia)) as H1.
    destruct (Z.lt_trichotomy n2 0) as [Hneg2|[->|Hpos2]].
    + rewrite (Z.sgn_neg n2) by lia.
      pose proof (Hmono (Z.abs n2) (Z.abs n1) ltac:(lia) ltac:(lia)) as Hm. lia.
    + change (Z.sgn 0) with 0. lia.
    + rewrite (Z.sgn_pos n2) by lia.
      pose proof (Hnn (Z.abs n2) ltac:(lia)) as H2. lia.
Qed.

(** [Decimal(n) / Decimal("1e27")] is [quotient_units n] times [10^-27]. *)
Lemma truediv_1e27_units (n : Z) (fl : Flags) :
  ndigits (Z.abs n) <= 1000026 →
  ∃ d fl',
    Decimal_truediv (Decimal_of_int n) Decimal_1e27 fl = (Return d, fl')
    ∧ (Decimal_value d == inject_Z (quotient_units n) / inject_Z (10 ^ 27))%Q.
Proof.
  intros HL. unfold quotient_units. cbv zeta.
  destruct (Z.ltb_spec (Z.abs n) (10 ^ 28)) as [Hlt|Hge].
  - eexists _, _. split; [by apply truediv_1e27_exact|].
    rewrite Decimal_value_scaled.
    replace (Z.sgn n * Z.abs n) with n by lia. reflexivity.
  - destruct (digits_over_28 _ Hge) as (Hk & Hq & _).
    eexists _, _. split; [by apply (truediv_1e27_half_even n fl _ eq_refl)|].
    destruct (of_units_value (n <? 0)
                (round_half_even (Z.abs n) (ndigits (Z.abs n) - 28))
                (ndigits (Z.abs n) - 28) ltac:(lia)) as (Hs & He & Hv & _).
    rewrite Decimal_value_units by done. rewrite Hs.
    apply units_eq.
    assert (0 < 10 ^ 28) by done.
    destruct (Z.ltb_spec n 0).
    + rewrite Z.sgn_neg by lia. rewrite Z.mul_opp_l, Hv. lia.
    + rewrite Z.sgn_pos by lia. rewrite Hv. lia.
Qed.

(** X7. An accumulator whose integer [n] has more than 28 digits (and at
    most 1000026, which keeps the quotient in range) is [n / 10^27]
    rounded half-even at the 28th digit of [n], although the quotient is
    rounded twice, by [__truediv__] and by [_fix]: with [k] the number of
    digits past the 28th, the decimal returned has 28 digits and the sign
    of [n], and in units of [10^-27] it is the multiple [R * 10^k] of
    [10^k] nearest to [|n|], the even one when two are as near. [Rounded]
    is set, and [Inexact] exactly when a digit past the 28th is not zero,
    which is also exactly when the decimal is not [n / 10^27]. *)
Theorem accumulator_rounds_half_even `{UnicodeData} (h : str) (n : Z) (fl : Flags) :
  int16 h = Some n → 10 ^ 28 <= Z.abs n → ndigits (Z.abs n) <= 1000026 →
  ∃ d R k,
    k = ndigits (Z.abs n) - 28
    ∧ DataAccumulatorsSyncEvent.hex_to_decimal h fl
      = (Return d,
         set_flag Rounded
           (if Z.abs n mod 10 ^ k =? 0 then fl else set_flag Inexact fl))
    ∧ d_sign d = (n <? 0)
    ∧ 10 ^ 27 <= d_int d < 10 ^ 28
    ∧ d_int d * 10 ^ (d_exp d + 27) = R * 10 ^ k
    ∧ 2 * Z.abs (R * 10 ^ k - Z.abs n) <= 10 ^ k
    ∧ (2 * Z.abs (R * 10 ^ k - Z.abs n) = 10 ^ k → Z.even R = true)
    ∧ (Qeq (Decimal_value d) (inject_Z n / inject_Z (10 ^ 27))
       ↔ Z.abs n mod 10 ^ k = 0).
Proof.
  intros Hh Hge HL.
  destruct (digits_over_28 _ Hge) as (Hk & Hq & _).
  remember (ndigits (Z.abs n) - 28) as k eqn:Ek.
  assert (0 <= Z.abs n) as Hnn by lia.
  destruct (round_half_even_nearest (Z.abs n) k Hnn Hk) as (HR & Hnear & Htie & Hex).
  remember (round_half_even (Z.abs n) k) as R eqn:ER.
  destruct (of_units_value (n <? 0) R k ltac:(lia)) as (Hs & He & Hv & Hd).
  exists (of_units (n <? 0) R k), R, k. split; [done|]. split.
  { unfold DataAccumulatorsSyncEvent.hex_to_decimal, bind, int_base16.
    rewrite Hh. cbn [option_rect]. simpl.
    rewrite (truediv_1e27_half_even n fl k Ek Hge HL). by rewrite ER. }
  split; [done|]. split; [apply Hd; lia|]. split; [done|].
  split; [done|]. split; [done|].
  rewrite Decimal_value_units by done. rewrite units_eq, Hs, <- Hex.
  assert (0 < 10 ^ 28) by done.
  destruct (Z.ltb_spec n 0); [rewrite Z.mul_opp_l|]; rewrite Hv; split; lia.
Qed.

(** X7 at [10^28 + 15]: a tie after an odd digit, rounded up to
    [(10^27 + 2) * 10^-26]. *)
Lemma accumulator_rounds_half_even_witness :
  @int16 ucd_latin1 (lit "204fce5e3e2502611000000f") = Some (10 ^ 28 + 15)
  ∧ 10 ^ 28 <= Z.abs (10 ^ 28 + 15)
  ∧ ndigits (Z.abs (10 ^ 28 + 15)) <= 1000026
  ∧ ∃ d R k,
      k = ndigits (Z.abs (10 ^ 28 + 15)) - 28
      ∧ @DataAccumulatorsSyncEvent.hex_to_decimal ucd_latin1 DefaultContext
          (lit "204fce5e3e2502611000000f") no_flags
        = (Return d,
           set_flag Rounded
             (if Z.abs (10 ^ 28 + 15) mod 10 ^ k =? 0 then no_flags
              else set_flag Inexact no_flags))
      ∧ d_sign d = (10 ^ 28 + 15 <? 0)
      ∧ 10 ^ 27 <= d_int d < 10 ^ 28
      ∧ d_int d * 10 ^ (d_exp d + 27) = R * 10 ^ k
      ∧ 2 * Z.abs (R * 10 ^ k - Z.abs (10 ^ 28 + 15)) <= 10 ^ k
      ∧ (2 * Z.abs (R * 10 ^ k - Z.abs (10 ^ 28 + 15)) = 10 ^ k → Z.even R = true)
      ∧ (Qeq (Decimal_value d) (inject_Z (10 ^ 28 + 15) / inject_Z (10 ^ 27))
         ↔ Z.abs (10 ^ 28 + 15) mod 10 ^ k = 0).
Proof.
  assert (10 ^ 28 <= Z.abs (10 ^ 28 + 15)) as Hge
    by (intros Hgt; vm_compute in Hgt; discriminate Hgt).
  assert (ndigits (Z.abs (10 ^ 28 + 15)) <= 1000026) as HL
    by (intros Hgt; vm_compute in Hgt; discriminate Hgt).
  split; [by vm_compute|]. split; [exact Hge|]. split; [exact HL|].
  apply (@accumulator_rounds_half_even ucd_latin1
           (lit "204fce5e3e2502611000000f") (10 ^ 28 + 15) no_flags);
    [by vm_compute|exact Hge|exact HL].
Defined.

(** X8. Accumulators keep the order of their integers: when [int(_, 16)]
    reads [n1 <= n2] from two strings (of at most 1000026 digits), the
    accumulator of the first is at most the accumulator of the second,
    whatever the signs, the numbers of digits and the state of the
    context. *)
Theorem accumulator_monotone `{UnicodeData} (h1 h2 : str) (n1 n2 : Z) (fl1 fl2 : Flags) :
  int16 h1 = Some n1 → int16 h2 = Some n2 →
  ndigits (Z.abs n1) <= 1000026 → ndigits (Z.abs n2) <= 1000026 →
  n1 <= n2 →
  ∃ d1 d2 fl1' fl2',
    DataAccumulatorsSyncEvent.hex_to_decimal h1 fl1 = (Return d1, fl1')
    ∧ DataAccumulatorsSyncEvent.hex_to_decimal h2 fl2 = (Return d2, fl2')
    ∧ Qle (Decimal_value d1) (Decimal_value d2).
Proof.
  intros Hh1 Hh2 HL1 HL2 Hn.
  destruct (truediv_1e27_units n1 fl1 HL1) as (d1 & fl1' & Hd1 & Hv1).
  destruct (truediv_1e27_units n2 fl2 HL2) as (d2 & fl2' & Hd2 & Hv2).
  exists d1, d2, fl1', fl2'.
  unfold DataAccumulatorsSyncEvent.hex_to_decimal, bind, int_base16.
  rewrite Hh1, Hh2. simpl. split; [done|]. split; [done|].
  rewrite Hv1, Hv2. by apply units_le, quotient_units_mono.
Qed.

(** X8 at [-0x10] and [10^28 + 1]. *)
Lemma accumulator_monotone_witness :
  @int16 ucd_latin1 (lit "-0x10") = Some (-16)
  ∧ @int16 ucd_latin1 (lit "204fce5e3e25026110000001") = Some (10 ^ 28 + 1)
  ∧ ndigits (Z.abs (-16)) <= 1000026
  ∧ ndigits (Z.abs (10 ^ 28 + 1)) <= 1000026
  ∧ -16 <= 10 ^ 28 + 1
  ∧ ∃ d1 d2 fl1' fl2',
      @DataAccumulatorsSyncEvent.hex_to_decimal ucd_latin1 DefaultContext (lit "-0x10") no_flags
      = (Return d1, fl1')
      ∧ @DataAccumulatorsSyncEvent.hex_to_decimal ucd_latin1 DefaultContext
          (lit "204fce5e3e25026110000001") no_flags
        = (Return d2, fl2')
      ∧ Qle (Decimal_value d1) (Decimal_value d2).
Proof.
  assert (ndigits (Z.abs (-16)) <= 1000026) as HL1
    by (intros Hgt; vm_compute in Hgt; discriminate Hgt).
  assert (ndigits (Z.abs (10 ^ 28 + 1)) <= 1000026) as HL2
    by (intros Hgt; vm_compute in Hgt; discriminate Hgt).
  assert (-16 <= 10 ^ 28 + 1) as Hn
    by (intros Hgt; vm_compute in Hgt; discriminate Hgt).
  split; [by vm_compute|]. split; [by vm_compute|]. split; [exact HL1|].
  split; [exact HL2|]. split; [exact Hn|].
  apply (@accumulator_monotone ucd_latin1 (lit "-0x10")
           (lit "204fce5e3e25026110000001") (-16) (10 ^ 28 + 1) no_flags no_flags);
    [by vm_compute|by vm_compute|exact HL1|exact HL2|exact Hn].
Defined.

(** ** Construction of a [WithdrawalEventData] *)

(** What an address field contributes: the canonical address, or its line
    error. *)
Lemma withdrawal_address_field `{CanonicalWidth} (raw : raw_mapping) (name : string)
    (fl : Flags) :
  ∃ o,
    field name WithdrawalEventData.validate_addresses raw fl
    = (inr (o, withdrawal_address_errors raw name), fl)
    ∧ match o with
      | Some c =>
          withdrawal_address_errors raw name = [] ∧
          ∃ v, raw !! name = Some v ∧ startswith v (lit "0x") = true
               ∧ c = add_leading_zeros v
      | None => withdrawal_address_errors raw name ≠ []
      end.
Proof.
  unfold field, withdrawal_address_errors, WithdrawalEventData.validate_addresses.
  destruct (raw !! name) as [v|]; [|by exists None].
  destruct (startswith v (lit "0x")) eqn:Hv; simpl.
  - exists (Some (add_leading_zeros v)). eauto 10.
  - by exists None.
Qed.

(** X9. The outcome of constructing a [WithdrawalEventData], for every
    input. When the amount passes [str.isdigit] and [Decimal()] rejects it,
    construction ends with [decimal.InvalidOperation] whatever the other
    fields hold: a line error of [user], which is validated before, is
    lost, and [token] is not validated. Otherwise the context is left as
    it was, and construction ends
    - in a record, and then the three fields are there, both addresses
      start with [0x] and the amount is made of decimal digits: the
      addresses of the record are the canonical ones and its amount is
      the integer the digits write, with sign 0 and exponent 0;
    - or in a validation error, whose line errors are those of the fields
      that are absent or fail their check, one for each, in the order
      [user], [amount], [token]. *)
Theorem withdrawal_outcome `{UnicodeData} `{CanonicalWidth}
    (raw : raw_mapping) (fl : Flags) :
  if amount_escapes raw then
    WithdrawalEventData.model_validate raw fl
    = (Propagated (DecimalException InvalidOperation), set_flag InvalidOperation fl)
  else
    ∃ o,
      WithdrawalEventData.model_validate raw fl = (o, fl)
      ∧ match o with
        | Constructed r =>
            ∃ u a tk n,
              raw !! "user" = Some u ∧ raw !! "amount" = Some a
              ∧ raw !! "token" = Some tk
              ∧ startswith u (lit "0x") = true ∧ startswith tk (lit "0x") = true
              ∧ isdigit a = true ∧ decimal_digits 0 a = Some n
              ∧ r = {| WithdrawalEventData.user := add_leading_zeros u;
                       WithdrawalEventData.amount :=
                         {| d_sign := false; d_int := n; d_exp := 0 |};
                       WithdrawalEventData.token := add_leading_zeros tk |}
        | ValidationError errs =>
            errs ≠ []
            ∧ errs = withdrawal_address_errors raw "user"
                     ++ withdrawal_amount_errors raw
                     ++ withdrawal_address_errors raw "token"
        | Propagated _ => False
        end.
Proof.
  unfold amount_escapes, withdrawal_amount_errors.
  destruct (raw !! "amount") as [a|] eqn:Ha;
    [destruct (isdigit a) eqn:Hd;
       [destruct (decimal_digits 0 a) as [n|] eqn:Hn|]|];
    cbn [andb]; rewrite ?bool_decide_eq_false_2, ?bool_decide_eq_true_2 by done;
    unfold WithdrawalEventData.model_validate, validate_model, ap, pure;
    destruct (withdrawal_address_field raw "user" fl) as (ou & -> & Hou);
    unfold field at 1; rewrite Ha.
  - rewrite (validate_amount_converts a n fl Hd Hn).
    destruct (withdrawal_address_field raw "token" fl) as (ot & -> & Hot).
    destruct ou as [cu|], ot as [ct|];
      repeat match goal with
             | H : _ ∧ _ |- _ => destruct H as [? ?]
             | H : ∃ _, _ |- _ => destruct H as [? ?]
             end;
      repeat match goal with
             | H : withdrawal_address_errors _ _ = [] |- _ => rewrite H
             end; subst; cbn [app].
    + eexists. split; [done|]. eexists _, _, _, _. repeat (split; [done|]). done.
    + destruct (withdrawal_address_errors raw "token"); [done|].
      eexists. split; [reflexivity|]. split; [done|reflexivity].
    + destruct (withdrawal_address_errors raw "user"); [done|].
      eexists. split; [reflexivity|]. split; [done|]. by rewrite app_nil_r.
    + destruct (withdrawal_address_errors raw "user"); [done|].
      eexists. split; [reflexivity|]. split; [done|]. by rewrite app_nil_r.
  - by rewrite (validate_amount_escapes a fl Hd Hn).
  - rewrite (validate_amount_not_digits a fl Hd).
    destruct (withdrawal_address_field raw "token" fl) as (ot & -> & Hot).
    destruct ou, ot; (eexists; split; [reflexivity|]); cbn [app];
      rewrite <- ?app_assoc;
      (split; [by destruct (withdrawal_address_errors raw "user")|done]).
  - destruct (withdrawal_address_field raw "token" fl) as (ot & -> & Hot).
    destruct ou, ot; (eexists; split; [reflexivity|]); cbn [app];
      rewrite <- ?app_assoc;
      (split; [by destruct (withdrawal_address_errors raw "user")|done]).
Qed.

(** ** The amount of a [WithdrawalEventData] is a natural number *)

Lemma decimal_digits_bounds `{UnicodeData} (acc : Z) (s : str) (n : Z) :
  0 <= acc → decimal_digits acc s = Some n →
  0 <= n < (acc + 1) * 10 ^ Z.of_nat (length s).
Proof.
  revert acc. induction s as [|ch s IH]; intros acc Hacc Hn; simpl in Hn.
  - injection Hn as <-. simpl. lia.
  - destruct (Py_UNICODE_TODECIMAL ch) as [d|] eqn:Hd; [|done].
    apply todecimal_range in Hd.
    specialize (IH (acc * 10 + d) ltac:(lia) Hn).
    rewrite length_cons, Nat2Z.inj_succ, Z.pow_succ_r by lia.
    assert (0 < 10 ^ Z.of_nat (length s)) by (apply Z.pow_pos_nonneg; lia).
    nia.
Qed.

(** X10. Whenever the amount validator of [WithdrawalEventData] returns,
    the context is as it was, the string passes [str.isdigit], and the
    decimal returned is the natural number its digits write: sign 0,
    exponent 0, and a coefficient below [10^len(value)]. Unlike an amount
    of a [LiquidationEventData], it is never negative. *)
Theorem withdrawal_amount_is_a_natural_number `{UnicodeData}
    (v : str) (fl fl' : Flags) (d : Decimal) :
  WithdrawalEventData.validate_amount v fl = (Return d, fl') →
  fl' = fl
  ∧ isdigit v = true
  ∧ decimal_digits 0 v = Some (d_int d)
  ∧ d_sign d = false ∧ d_exp d = 0
  ∧ 0 <= d_int d < 10 ^ Z.of_nat (length v)
  ∧ Qeq (Decimal_value d) (inject_Z (d_int d)).
Proof.
  unfold WithdrawalEventData.validate_amount, Decimal_of_digit_str.
  destruct (isdigit v) eqn:Hd; [|done]. simpl.
  destruct (decimal_digits 0 v) as [n|] eqn:Hn; [|done].
  intros [= <- <-]. simpl.
  pose proof (decimal_digits_bounds 0 v n ltac:(lia) Hn) as Hb.
  repeat split; try done; try lia.
  unfold Decimal_value. simpl. change (inject_Z (10 ^ 0)) with 1%Q. ring.
Qed.

(** X10 at ["0042"], the decimal 42. *)
Lemma withdrawal_amount_witness :
  let d := {| d_sign := false; d_int := 42; d_exp := 0 |} in
  @WithdrawalEventData.validate_amount ucd_latin1 (lit "0042") no_flags
  = (Return d, no_flags)
  ∧ no_flags = no_flags
  ∧ @isdigit ucd_latin1 (lit "0042") = true
  ∧ @decimal_digits ucd_latin1 0 (lit "0042") = Some (d_int d)
  ∧ d_sign d = false ∧ d_exp d = 0
  ∧ 0 <= d_int d < 10 ^ Z.of_nat (length (lit "0042"))
  ∧ Qeq (Decimal_value d) (inject_Z (d_int d)).
Proof.
  intros d. split; [reflexivity|].
  apply (@withdrawal_amount_is_a_natural_number ucd_latin1 (lit "0042")
           no_flags no_flags d).
  reflexivity.
Defined.

(** ** Fields the input does not have *)

(** A field has a value only when the input has the field. *)
Lemma field_value {A} (name : string) (val : str → M A) (raw : raw_mapping)
    (fl fl' : Flags) (a : A) (errs : list line_error) :
  field name val raw fl = (inr (Some a, errs), fl') → is_Some (raw !! name).
Proof. unfold field. by destruct (raw !! name). Qed.

(** The fields validated so far have a value only when each of them has
    one. *)
Lemma ap_value {A B} (f : fields (A → B)) (x : fields A) (fl fl' : Flags)
    (b : B) (errs : list line_error) :
  ap f x fl = (inr (Some b, errs), fl') →
  ∃ g errs1 fl1 a errs2,
    f fl = (inr (Some g, errs1), fl1) ∧ x fl1 = (inr (Some a, errs2), fl').
Proof.
  unfold ap. destruct (f fl) as [[e|[[g|] errs1]] fl1]; try done;
    destruct (x fl1) as [[e|[[a|] errs2]] fl2] eqn:Hx; try done.
  intros [= <- <- <-]. eauto 10.
Qed.

Lemma validate_model_value {A} (v : fields A) (fl fl' : Flags) (a : A) :
  validate_model v fl = (Constructed a, fl') → ∃ errs, v fl = (inr (Some a, errs), fl').
Proof.
  unfold validate_model. destruct (v fl) as [[e|[[a'|] [|err errs]]] fl1]; try done.
  intros [= <- <-]. eauto.
Qed.

Lemma liquidation_missing `{UnicodeData} `{CanonicalWidth} (raw : raw_mapping)
    (name : string) :
  name ∈ LiquidationEventData.field_names → raw !! name = None →
  field_required name ∈ liquidation_errors raw.
Proof.
  intros Hname Hraw. apply (elem_of_flat_map _ _ name); [done|].
  unfold liquidation_field_errors, field_errors, field_result. rewrite Hraw.
  destruct (bool_decide _); by apply list_elem_of_singleton.
Qed.

(** X11. No field has a default: an input without one of the declared
    fields of a model never makes a record of it. For a
    [LiquidationEventData] construction then fails with a validation error
    that has the line error ["Field required"], of type [missing], located
    at the field. *)
Theorem missing_field_is_required `{UnicodeData} `{CanonicalWidth}
    (raw : raw_mapping) (name : string) (fl : Flags) :
  raw !! name = None →
  (name ∈ accumulators_field_names →
   ∀ r fl', DataAccumulatorsSyncEvent.model_validate raw fl ≠ (Constructed r, fl'))
  ∧ (name ∈ LiquidationEventData.field_names →
     ∃ errs, LiquidationEventData.model_validate raw fl = (ValidationError errs, fl)
             ∧ field_required name ∈ errs)
  ∧ (name ∈ withdrawal_field_names →
     ∀ r fl', WithdrawalEventData.model_validate raw fl ≠ (Constructed r, fl')).
Proof.
  intros Hraw. split; [|split].
  - intros Hname r fl' Hc.
    apply validate_model_value in Hc as [errs Hc].
    apply ap_value in Hc as (g3 & e3 & fl3 & a3 & e3' & Hc & H3).
    apply ap_value in Hc as (g2 & e2 & fl2 & a2 & e2' & Hc & H2).
    apply ap_value in Hc as (g1 & e1 & fl1 & a1 & e1' & Hc & H1).
    apply field_value in H1 as [? H1], H2 as [? H2], H3 as [? H3].
    unfold accumulators_field_names in Hname. rewrite !elem_of_cons in Hname.
    destruct Hname as [->|[->|[->|Hname]]]; [congruence..|by apply elem_of_nil in Hname].
  - intros Hname.
    pose proof (liquidation_missing raw name Hname Hraw) as Hin.
    destruct (liquidation_model_validate raw fl) as (o & Ho & Hm).
    destruct o as [r|errs|e]; [|destruct Hm as [-> _]|done].
    + rewrite Hm in Hin. by apply elem_of_nil in Hin.
    + by exists (liquidation_errors raw).
  - intros Hname r fl' Hc.
    apply validate_model_value in Hc as [errs Hc].
    apply ap_value in Hc as (g3 & e3 & fl3 & a3 & e3' & Hc & H3).
    apply ap_value in Hc as (g2 & e2 & fl2 & a2 & e2' & Hc & H2).
    apply ap_value in Hc as (g1 & e1 & fl1 & a1 & e1' & Hc & H1).
    apply field_value in H1 as [? H1], H2 as [? H2], H3 as [? H3].
    unfold withdrawal_field_names in Hname. rewrite !elem_of_cons in Hname.
    destruct Hname as [->|[->|[->|Hname]]]; [congruence..|by apply elem_of_nil in Hname].
Qed.

(** X11 at an input without [user]. *)
Lemma missing_field_witness :
  let raw : raw_mapping := {[ "token" := lit "0x1"; "amount" := lit "5" ]} in
  raw !! "user" = None
  ∧ ("user" ∈ accumulators_field_names →
     ∀ r fl', @DataAccumulatorsSyncEvent.model_validate ucd_latin1 DefaultContext raw no_flags
              ≠ (Constructed r, fl'))
  ∧ ("user" ∈ LiquidationEventData.field_names →
     ∃ errs, @LiquidationEventData.model_validate ucd_latin1 starknet_width raw no_flags
             = (ValidationError errs, no_flags)
             ∧ field_required "user" ∈ errs)
  ∧ ("user" ∈ withdrawal_field_names →
     ∀ r fl', @WithdrawalEventData.model_validate ucd_latin1 starknet_width raw no_flags
              ≠ (Constructed r, fl')).
Proof.
  intros raw. split; [reflexivity|].
  apply (@missing_field_is_required ucd_latin1 starknet_width raw "user" no_flags).
  reflexivity.
Defined.

(** ** The queue of [TelegramNotifications] *)

Lemma notified_app (evs1 evs2 : list TelegramNotifications.event) :
  TelegramNotifications.notified (evs1 ++ evs2)
  = TelegramNotifications.notified evs1 ++ TelegramNotifications.notified evs2.
Proof. apply omap_app. Qed.

(** X12. Whatever calls of [send_notification] and turns of the loop of
    [__call__] there are, in whatever order, and whatever the bot answers:
    no producer is ever left waiting; the queue holds every identifier
    that was handed to [send_notification], in the order of the calls, and
    as many unfinished tasks, the consumer taking none out; and every
    message handed to the bot has the coroutine object of [Queue.get] for
    its [chat_id] and the text ["Test message"], none of them an
    identifier. As long as the bot does not raise, the loop goes on and
    every turn of it sends a message, be the queue empty or not. *)
Theorem notifications_stay_in_the_queue (evs : list TelegramNotifications.event) :
  ∃ st,
    TelegramNotifications.run evs = Some st
    ∧ TelegramNotifications._queue (TelegramNotifications.__queue_to_send st)
      = TelegramNotifications.notified evs
    ∧ TelegramNotifications._unfinished_tasks (TelegramNotifications.__queue_to_send st)
      = Z.of_nat (length (TelegramNotifications.notified evs))
    ∧ (∀ m, m ∈ TelegramNotifications.sent st →
            m = (TelegramNotifications.coroutine_Queue_get, lit "Test message"))
    ∧ (∀ i text, (TelegramNotifications.int i, text) ∉ TelegramNotifications.sent st)
    ∧ (Forall (λ ev, ev ≠ TelegramNotifications.turn true) evs →
       TelegramNotifications.running st = true
       ∧ (length (TelegramNotifications.sent st)
          + length (TelegramNotifications.notified evs))%nat = length evs).
Proof.
  (* the bound stays 0, so that the queue is never full *)
  assert (∃ st,
            TelegramNotifications.run evs = Some st
            ∧ TelegramNotifications._maxsize (TelegramNotifications.__queue_to_send st) = 0
            ∧ TelegramNotifications._queue (TelegramNotifications.__queue_to_send st)
              = TelegramNotifications.notified evs
            ∧ TelegramNotifications._unfinished_tasks
                (TelegramNotifications.__queue_to_send st)
              = Z.of_nat (length (TelegramNotifications.notified evs))
            ∧ (∀ m, m ∈ TelegramNotifications.sent st →
                    m = (TelegramNotifications.coroutine_Queue_get, lit "Test message"))
            ∧ (Forall (λ ev, ev ≠ TelegramNotifications.turn true) evs →
               TelegramNotifications.running st = true
               ∧ (length (TelegramNotifications.sent st)
                  + length (TelegramNotifications.notified evs))%nat = length evs))
    as (st & Hrun & _ & Hq & Hu & Hs & Hgo).
  { induction evs as [|ev evs IH] using rev_ind.
    - exists TelegramNotifications.initial. repeat (split; [done|]).
      split; [|done]. intros m Hm. by apply elem_of_nil in Hm.
    - destruct IH as (st & Hrun & Hmax & Hq & Hu & Hs & Hgo).
      unfold TelegramNotifications.run in *.
      rewrite foldl_app, notified_app, Hrun. simpl.
      destruct ev as [i|b]; simpl.
      + unfold TelegramNotifications.send_notification, TelegramNotifications.put,
          TelegramNotifications.full. rewrite Hmax. simpl.
        eexists. split; [done|]. simpl. rewrite Hq, Hu, !length_app. simpl.
        repeat (split; [done || lia|]).
        intros [Hall _]%Forall_app. destruct (Hgo Hall) as [-> Hlen].
        split; [done|]. lia.
      + eexists. split; [done|]. unfold TelegramNotifications.loop_turn.
        destruct (TelegramNotifications.running st) eqn:Hr; simpl;
          rewrite ?app_nil_r, !length_app; simpl; repeat (split; [done|]).
        * split.
          { intros m [Hm|Hm%list_elem_of_singleton]%elem_of_app; [by apply Hs|done]. }
          intros [Hall Hb]%Forall_app. destruct (Hgo Hall) as [_ Hlen].
          apply Forall_inv in Hb. destruct b; [by destruct Hb|].
          split; [done|]. lia.
        * intros [Hall _]%Forall_app. by destruct (Hgo Hall). }
  exists st. repeat (split; [done|]). split; [|done].
  intros i text Hin. by specialize (Hs _ Hin).
Qed.
